(** * fileio.c: the framing layer of the FSE command line program

    A shallow embedding of [programs/fileio.c]: the simple frame format
    ([FIO_compressFilename], [FIO_decompressFilename]), the keystream
    selector ([simlple_scrambler], [empty_scrambler]) and the buffered
    streaming pump ([FIO_compressZstdFilename_extRess],
    [FIO_compressMultipleFilenames], [FIO_decompressFrame]).

    Conventions.
    - A byte, a [U32], a [size_t] are integers of [Z]; every narrowing cast
      of the source is written out ([BYTE], [to_int], [to_unsigned]).
    - A file opened for reading is the list of the bytes still unread; a
      file opened for writing is the list of the bytes written so far.
      [fwrite], [fclose] and [malloc] never fail in this model, so the
      throws that guard them are not reachable here.
    - [EXM_THROW] ends the process with [exit]; it is the outcome [Exit],
      which records the state of the world at that moment.
    - The entropy coders, xxhash, isaac64 and salsa20 are not part of this
      file; they are the variables of the sections below. *)

From Stdlib Require Import String Ascii ZArith List Lia Bool.
Import ListNotations.
Open Scope Z_scope.

(** ** Constants and basic types *)

Definition _6BITS : Z := 63.
Definition BIT5 : Z := 32.
Definition BIT6 : Z := 64.
Definition BIT7 : Z := 128.

Definition FIO_magicNumber_fse   : Z := 0x183E2309.
Definition FIO_magicNumber_huff0 : Z := 0x183E3309.
Definition FIO_magicNumber_zlibh : Z := 0x183E4309.
Definition FIO_maxBlockSizeID : Z := 6.
Definition FIO_maxBlockHeaderSize : Z := 5.
Definition FIO_FRAMEHEADERSIZE : Z := 5.
Definition FSE_CHECKSUM_SEED : Z := 0.

Inductive bType_t := bt_compressed | bt_raw | bt_rle | bt_crc.

(** The value of an enumerator of [bType_t]. *)
Definition bt (t : bType_t) : Z :=
  match t with bt_compressed => 0 | bt_raw => 1 | bt_rle => 2 | bt_crc => 3 end.

(** The enumerator of a two-bit value. *)
Definition bType_of (v : Z) : bType_t :=
  if v =? 0 then bt_compressed
  else if v =? 1 then bt_raw
  else if v =? 2 then bt_rle
  else bt_crc.

(** [FIO_compressor_t] of fileio.h, as the switch of
    [FIO_compressFilename] uses it; the default case of that switch
    (throw 20) has no value left to take. *)
Inductive FIO_compressor_t := FIO_fse | FIO_huff0 | FIO_zlibh.

(** The cast [(BYTE)x]. *)
Definition BYTE (x : Z) : Z := x mod 256.

(** Conversions to [unsigned] and to [int] (32 bits, two's complement). *)
Definition to_unsigned (x : Z) : Z := x mod 2 ^ 32.
Definition to_int (x : Z) : Z :=
  let u := x mod 2 ^ 32 in if u <? 2 ^ 31 then u else u - 2 ^ 32.

(** [FIO_blockID_to_blockSize]: [(1 << id) KB]. *)
Definition FIO_blockID_to_blockSize (id : Z) : Z := Z.shiftl 1 id * Z.shiftl 1 10.

(** ** Memory operations *)

Definition FIO_writeLE32 (val32 : Z) : list Z :=
  [BYTE val32; BYTE (Z.shiftr val32 8); BYTE (Z.shiftr val32 16);
   BYTE (Z.shiftr val32 24)].

Definition FIO_readLE32 (p : list Z) : Z :=
  to_unsigned (nth 0 p 0 + Z.shiftl (nth 1 p 0) 8 + Z.shiftl (nth 2 p 0) 16
               + Z.shiftl (nth 3 p 0) 24).

(** [fread(buf, 1, n, f)]: the bytes obtained (at most [n]) and the rest of
    the file. *)
Definition fread (n : Z) (f : list Z) : list Z * list Z :=
  (firstn (Z.to_nat n) f, skipn (Z.to_nat n) f).

Definition zlen (l : list Z) : Z := Z.of_nat (length l).

(** ** Block headers *)

(** The "Write cBlock" switch of [FIO_compressFilename], header part: the
    bytes of [out_buff] that precede the payload, for a block of [inSize]
    bytes on which the compressor returned [cSize]. *)
Definition block_header (inputBlockSize inSize cSize : Z) : list Z :=
  if cSize =? 0 then                                           (* raw *)
    if inSize =? inputBlockSize
    then [BYTE (Z.shiftl (bt bt_raw) 6 + BIT5)]
    else [BYTE (Z.shiftl (bt bt_raw) 6); BYTE (Z.shiftr inSize 8); BYTE inSize]
  else if cSize =? 1 then                                      (* rle *)
    if inSize =? inputBlockSize
    then [BYTE (Z.shiftl (bt bt_rle) 6 + BIT5)]
    else [BYTE (Z.shiftl (bt bt_raw) 6); BYTE (Z.shiftr inSize 8); BYTE inSize]
  else                                                         (* compressed *)
    if inSize =? inputBlockSize
    then [BYTE (Z.shiftl (bt bt_compressed) 6 + BIT5);
          BYTE (Z.shiftr cSize 8); BYTE cSize]
    else [BYTE (Z.shiftl (bt bt_compressed) 6);
          BYTE (Z.shiftr inSize 8); BYTE inSize;
          BYTE (Z.shiftr cSize 8); BYTE cSize].

(** The bytes written for one block: header, then the payload. [in_buff]
    holds the [inSize] bytes of the block, [dst] is what the compressor left
    at [out_buff + FIO_maxBlockHeaderSize] (at least [cSize] bytes). *)
Definition write_cBlock (inputBlockSize : Z) (in_buff dst : list Z) (cSize : Z)
  : list Z :=
  let inSize := zlen in_buff in
  if cSize =? 0 then block_header inputBlockSize inSize cSize ++ in_buff
  else if cSize =? 1 then block_header inputBlockSize inSize cSize ++ [nth 0 in_buff 0]
  else block_header inputBlockSize inSize cSize ++ firstn (Z.to_nat cSize) dst.

(** What one block adds to [compressedfilesize]. *)
Definition cBlock_size (inputBlockSize inSize cSize : Z) : Z :=
  let headerSize := zlen (block_header inputBlockSize inSize cSize) in
  if cSize =? 0 then inSize + headerSize
  else if cSize =? 1 then headerSize + 1
  else headerSize + cSize.

(** What the decoder knows of a block once its header is read. *)
Inductive header_result :=
| H_crc                                   (* end of frame *)
| H_throw (code : Z)                      (* EXM_THROW(35) or (36) *)
| H_block (bType : bType_t) (rSize cSize : Z) (rest : list Z).

(** "Decode header" of [FIO_decompressFilename]: [ip0] is the byte at [ip],
    [f] the unread part of the file. *)
Definition decode_header (blockSize ip0 : Z) (f : list Z) : header_result :=
  let bType := bType_of (Z.shiftr (Z.land ip0 (BIT7 + BIT6)) 6) in
  match bType with
  | bt_crc => H_crc
  | _ =>
    let sized :=
      if Z.land ip0 BIT5 =? 0 then                    (* non full block *)
        let '(b, f1) := fread 2 f in
        if zlen b =? 2 then inr (Z.shiftl (nth 0 b 0) 8 + nth 1 b 0, f1)
        else inl 35
      else inr (blockSize, f) in
    match sized with
    | inl code => H_throw code
    | inr (rSize, f1) =>
      match bType with
      | bt_compressed =>
        let '(b, f2) := fread 2 f1 in
        if zlen b =? 2
        then H_block bType rSize (Z.shiftl (nth 0 b 0) 8 + nth 1 b 0) f2
        else H_throw 36
      | bt_raw => H_block bType rSize rSize f1
      | bt_rle => H_block bType rSize 1 f1
      | bt_crc => H_throw 37                          (* should not happen *)
      end
    end
  end.

(** *** Block descriptions *)

(** A block as the format describes it: type, full-size flag, regenerated
    size, and the compressed size of a compressed block. *)
Record blockDesc := {
  bd_type : bType_t;
  bd_full : bool;
  bd_rSize : Z;
  bd_cSize : option Z
}.

(** The result the compressor gives for a block the encoder frames with
    this description: 0 selects raw, 1 selects rle, a larger value is the
    compressed size. *)
Definition bd_code (x : blockDesc) : Z :=
  match bd_type x with
  | bt_raw => 0
  | bt_rle => 1
  | _ => match bd_cSize x with Some c => c | None => 0 end
  end.

Definition encodeHeader (nominal : Z) (x : blockDesc) : list Z :=
  block_header nominal (bd_rSize x) (bd_code x).

Definition decodeHeader (nominal : Z) (bytes : list Z)
  : option (blockDesc * list Z) :=
  match bytes with
  | [] => None
  | ip0 :: f =>
    match decode_header nominal ip0 f with
    | H_block t rSize cSize rest =>
      Some ({| bd_type := t;
               bd_full := negb (Z.land ip0 BIT5 =? 0);
               bd_rSize := rSize;
               bd_cSize := match t with bt_compressed => Some cSize | _ => None end |},
            rest)
    | _ => None
    end
  end.

(** The valid descriptions for a frame of nominal block size [nominal]. *)
Definition valid_desc (nominal : Z) (x : blockDesc) : Prop :=
  0 < bd_rSize x <= nominal /\
  (bd_full x = true <-> bd_rSize x = nominal) /\
  match bd_type x with
  | bt_compressed => exists c, bd_cSize x = Some c /\ 1 < c < 65536
  | bt_raw | bt_rle => bd_cSize x = None
  | bt_crc => False
  end.

Definition nominal_size (n : Z) : Prop :=
  exists id, 0 <= id <= FIO_maxBlockSizeID /\ n = FIO_blockID_to_blockSize id.

(** ** The outside world *)

Inductive handle := finput | foutput.
Inductive buffer := in_buff | out_buff.

(** What the process holds and has produced: the bytes written to the
    destination, the streams opened by [fopen] and not yet closed by
    [fclose], the buffers obtained from [malloc] and not yet freed. *)
Record world := {
  w_written : list Z;
  w_open : list handle;
  w_heap : list buffer
}.

Definition fwrite (bytes : list Z) (w : world) : world :=
  {| w_written := w_written w ++ bytes; w_open := w_open w; w_heap := w_heap w |}.

Definition fopen (h : handle) (w : world) : world :=
  {| w_written := w_written w; w_open := h :: w_open w; w_heap := w_heap w |}.

Definition handle_eqb (a b : handle) : bool :=
  match a, b with finput, finput | foutput, foutput => true | _, _ => false end.

Definition fclose (h : handle) (w : world) : world :=
  {| w_written := w_written w;
     w_open := filter (fun h' => negb (handle_eqb h h')) (w_open w);
     w_heap := w_heap w |}.

Definition malloc (b : buffer) (w : world) : world :=
  {| w_written := w_written w; w_open := w_open w; w_heap := b :: w_heap w |}.

Definition free_all (w : world) : world :=
  {| w_written := w_written w; w_open := w_open w; w_heap := [] |}.

Definition world0 : world := {| w_written := []; w_open := []; w_heap := [] |}.

(** How a call ends. [Return]: the function returns to its caller.
    [Exit]: an [EXM_THROW], the process ends by [exit(code)] inside the
    function. [Undefined]: the C program has no defined behaviour from here
    (a division by zero, a write past the end of a buffer). [OutOfFuel]: the
    loop counter of the model ran out; the top-level functions give enough
    of it. *)
Inductive outcome (A : Type) :=
| Return (a : A) (w : world)
| Exit (code : Z) (w : world)
| Undefined (w : world)
| OutOfFuel.
Arguments Return {A} a w.
Arguments Exit {A} code w.
Arguments Undefined {A} w.
Arguments OutOfFuel {A}.

(** File names: the reserved tokens of fileio.h and ordinary paths. *)
Inductive fname := stdinmark | stdoutmark | nulmark | path (name : string).

(** What [get_fileHandle] meets: the content of the source (if it can be
    opened), of standard input, whether the destination exists and can be
    opened for writing, the two global settings, and the characters that
    [getchar] will deliver. *)
Record env := {
  e_input : fname;
  e_output : fname;
  e_source : option (list Z);
  e_stdin : list Z;
  e_dst_exists : bool;
  e_dst_writable : bool;
  g_overwrite : bool;
  g_displayLevel : Z;
  e_keys : list Z
}.

(** [getchar()]: the next character, or [EOF]. *)
Definition EOF : Z := -1.
Definition getchar (keys : list Z) : Z * list Z :=
  match keys with
  | [] => (EOF, [])
  | k :: keys' => (k, keys')
  end.

Definition is_stdinmark (n : fname) : bool :=
  match n with stdinmark => true | _ => false end.
Definition is_stdoutmark (n : fname) : bool :=
  match n with stdoutmark => true | _ => false end.
Definition is_nulmark (n : fname) : bool :=
  match n with nulmark => true | _ => false end.

(** [get_fileHandle]: the unread source bytes on success. The source is
    opened first; the two final tests come after the destination has been
    opened. *)
Definition get_fileHandle (e : env) (w : world) : outcome (list Z) :=
  let '(pfinput, w1) :=
    if is_stdinmark (e_input e) then (Some (e_stdin e), fopen finput w)
    else match e_source e with
         | Some bytes => (Some bytes, fopen finput w)
         | None => (None, w)
         end in
  let out :=
    if is_stdoutmark (e_output e) then inr (true, fopen foutput w1)
    else
      let exists_ := negb (is_nulmark (e_output e)) && e_dst_exists e in
      let refused :=
        exists_ && negb (g_overwrite e) &&
        ((g_displayLevel e <=? 1) ||
         (let ch := fst (getchar (e_keys e)) in
          negb (ch =? 89) && negb (ch =? 121))) in
      if refused then inl 11
      else if e_dst_writable e then inr (true, fopen foutput w1)
      else inr (false, w1) in
  match out with
  | inl code => Exit code w1
  | inr (pfoutput, w2) =>
    match pfinput with
    | None => Exit 12 w2
    | Some bytes => if pfoutput then Return bytes w2 else Exit 13 w2
    end
  end.

(** ** Collaborators of the simple format *)

(** The functions of fse.h, huff0.h, zlibh.h, xxhash.h, isaac64.h and
    salsa20.h that the simple format calls. A compressor is given the
    capacity of [dst], the source bytes and the scrambler; it answers its
    return value and the bytes it left in [dst]. A decompressor likewise.
    [salsa_local] and [salsa_global] are the salsa20 keystreams (nonce 0)
    under the key that [FIO_compressFilename] declares locally and under
    the global [key]; [PTR] is [sizeof(char* )].
    [getNumber64ForPassword password index] stands for the call on the
    pointer [password + index]. *)
Class Collaborators := {
  PTR : nat;
  salsa_local : nat -> Z;
  salsa_global : nat -> Z;
  XXH32 : Z -> list Z -> Z;
  FSE_compressBound : Z -> Z;
  FSE_isError : Z -> bool;
  FSE_compress : Z -> list Z -> Z -> Z * list Z;
  HUF_compress : Z -> list Z -> Z -> Z * list Z;
  ZLIBH_compress : list Z -> Z * list Z;
  FSE_decompress : Z -> list Z -> Z -> Z * list Z;
  HUF_decompress : Z -> list Z -> Z -> Z * list Z;
  ZLIBH_decompress : list Z -> Z * list Z;
  getNumber64ForPassword : string -> Z -> Z
}.

(** Modelled from the spec: salsa20.h is missing; the spec names the call a
    keystream generator applied to a buffer over the size of a pointer.
    [salsa20 ks mlen message] combines the first [mlen] bytes of [message]
    with the keystream [ks], in place. *)
Fixpoint xor_stream (ks : nat -> Z) (i mlen : nat) (message : list Z) : list Z :=
  match mlen, message with
  | S mlen', b :: message' => Z.lxor b (ks i) :: xor_stream ks (S i) mlen' message'
  | _, _ => message
  end.

Definition salsa20 (ks : nat -> Z) (mlen : nat) (message : list Z) : list Z :=
  xor_stream ks 0 mlen message.

(** ** Keystream selector *)

(** C strings: the characters of a [string] up to its first NUL, as
    [signed char] values, and the terminator after them. *)
Definition char_value (c : ascii) : Z :=
  let n := Z.of_N (N_of_ascii c) in if n <? 128 then n else n - 256.

Fixpoint strlen (s : string) : Z :=
  match s with
  | EmptyString => 0
  | String c s' => if char_value c =? 0 then 0 else 1 + strlen s'
  end.

(** [s[i]]; [None] outside of the string and its terminator. *)
Fixpoint char_at (s : string) (i : nat) : option Z :=
  match s with
  | EmptyString => match i with O => Some 0 | S _ => None end
  | String c s' =>
    match i with
    | O => Some (char_value c)
    | S i' => if char_value c =? 0 then None else char_at s' i'
    end
  end.

Section Simple.
Context {C : Collaborators}.

(** [simlple_scrambler], with the global [password_length] as an argument.
    [None]: the remainder of a division by zero, or a read outside of the
    string. *)
Definition simlple_scrambler (password : string) (password_length index : Z)
  : option Z :=
  if password_length =? 0 then None
  else
    let i := Z.rem index password_length in
    if i <? 0 then None
    else match char_at password (Z.to_nat i) with
         | None => None
         | Some c =>
           let d := to_unsigned c in
           if d =? 0 then None
           else Some (to_unsigned
                        (Z.abs (to_int (getNumber64ForPassword password index)))
                      mod d)
         end.

Definition empty_scrambler (index : Z) : option Z := Some 0.

(** The two values that the function pointer [scrambler_func] takes. *)
Inductive scrambler_t := fn_simlple_scrambler | fn_empty_scrambler.

(** The choice [if (password != NULL) ... else ...] made before each main
    loop: the function, and the value that [password_length] has from then
    on ([strlen(password)], or what it was, written 0). *)
Definition choose_scrambler (password : option string) : scrambler_t * Z :=
  match password with
  | Some pw => (fn_simlple_scrambler, to_int (strlen pw))
  | None => (fn_empty_scrambler, 0)
  end.

(** The call [scrambler_func(password, index++)]: the [unsigned] index
    reaches the function as an [int]. *)
Definition scrambler_func (password : option string) (index : Z) : option Z :=
  match choose_scrambler password, password with
  | (fn_simlple_scrambler, password_length), Some pw =>
    simlple_scrambler pw password_length (to_int index)
  | (fn_simlple_scrambler, _), None => None
  | (fn_empty_scrambler, _), _ => empty_scrambler (to_int index)
  end.

(** ** Simple format: compression *)

Definition FIO_ZLIBH_compress (dstSize : Z) (src : list Z) (scrambler : Z)
  : Z * list Z := ZLIBH_compress src.

(** The switch on [g_compressor]. *)
Definition select_compressor (c : FIO_compressor_t)
  : (Z -> list Z -> Z -> Z * list Z) * Z :=
  match c with
  | FIO_fse => (FSE_compress, FIO_magicNumber_fse)
  | FIO_huff0 => (HUF_compress, FIO_magicNumber_huff0)
  | FIO_zlibh => (FIO_ZLIBH_compress, FIO_magicNumber_zlibh)
  end.

(** The variables of the main loop, and two lists that the program does not
    hold but its claims speak of: [c_fed], the bytes given to
    [XXH32_update] so far, and [c_trace], the indices given to the
    scrambler so far. *)
Record cState := {
  c_world : world;
  c_index : Z;
  c_filesize : Z;
  c_compressedfilesize : Z;
  c_fed : list Z;
  c_trace : list Z
}.

(** One turn of the main compression loop on the bytes [blk] that [fread]
    obtained ([inSize > 0]). *)
Definition compress_block (compressor : Z -> list Z -> Z -> Z * list Z)
    (inputBlockSize : Z) (password : option string) (blk : list Z) (st : cState)
  : outcome cState :=
  let buf := salsa20 salsa_local PTR blk in
  let inSize := zlen blk in
  match scrambler_func password (c_index st) with
  | None => Undefined (c_world st)
  | Some scrambler =>
    let '(cSize, dst) :=
      compressor (FSE_compressBound inputBlockSize) buf scrambler in
    if FSE_isError cSize then Exit 23 (c_world st)
    else
      let bytes := write_cBlock inputBlockSize buf dst cSize in
      Return {| c_world := fwrite bytes (c_world st);
                c_index := to_unsigned (c_index st + 1);
                c_filesize := c_filesize st + inSize;
                c_compressedfilesize :=
                  c_compressedfilesize st + cBlock_size inputBlockSize inSize cSize;
                c_fed := c_fed st ++ buf;
                c_trace := c_trace st ++ [c_index st] |}
             (fwrite bytes (c_world st))
  end.

(** The main compression loop: [f] is the unread part of the source. *)
Fixpoint compress_loop (fuel : nat)
    (compressor : Z -> list Z -> Z -> Z * list Z)
    (inputBlockSize : Z) (password : option string) (f : list Z) (st : cState)
  : outcome cState :=
  match fuel with
  | O => OutOfFuel
  | S fuel' =>
    let '(blk, rest) := fread inputBlockSize f in
    if zlen blk =? 0 then Return st (c_world st)
    else match compress_block compressor inputBlockSize password blk st with
         | Return st' _ => compress_loop fuel' compressor inputBlockSize password rest st'
         | other => other
         end
  end.

(** The bytes that the main loop gives to [XXH32_update], in order, for a
    source [f] read in blocks of [inputBlockSize] bytes: each block as the
    cipher pass leaves it. *)
Fixpoint checksummed (fuel : nat) (inputBlockSize : Z) (f : list Z) : list Z :=
  match fuel with
  | O => []
  | S fuel' =>
    let '(blk, rest) := fread inputBlockSize f in
    if zlen blk =? 0 then []
    else salsa20 salsa_local PTR blk ++ checksummed fuel' inputBlockSize rest
  end.

(** The frame trailer: 22 bits of [XXH32_digest], under the [bt_crc] tag. *)
Definition checksum_block (digest : Z) : list Z :=
  let checksum := Z.land (Z.shiftr digest 5) (Z.shiftl 1 22 - 1) in
  [BYTE (Z.shiftr checksum 16 + Z.shiftl (bt bt_crc) 6);
   BYTE (Z.shiftr checksum 8);
   BYTE checksum].

(** What a call of [FIO_compressFilename] reports: its return value, and
    the two lists of [cState]. *)
Record cReport := {
  r_compressedfilesize : Z;
  r_filesize : Z;
  r_fed : list Z;
  r_trace : list Z
}.

(** [FIO_compressFilename]. The calls of [ksa] and [prga] work on local
    arrays that nothing reads afterwards, and [FIO_writeLE64(out_buff,
    getNumber64())] fills bytes of [out_buff] that every case of the
    "Write cBlock" switch sets again before it writes them: they leave no
    trace in what is written. *)
Definition FIO_compressFilename (e : env) (g_compressor : FIO_compressor_t)
    (g_blockSizeId : Z) (password : option string) : outcome cReport :=
  let inputBlockSize := FIO_blockID_to_blockSize g_blockSizeId in
  match get_fileHandle e world0 with
  | Return src w =>
    let '(compressor, magicNumber) := select_compressor g_compressor in
    if inputBlockSize =? 0 then Exit 0 w
    else
      let w := malloc out_buff (malloc in_buff w) in
      (* Write Frame Header *)
      let w := fwrite (FIO_writeLE32 magicNumber ++ [BYTE g_blockSizeId]) w in
      let st := {| c_world := w; c_index := 0; c_filesize := 0;
                   c_compressedfilesize := FIO_FRAMEHEADERSIZE;
                   c_fed := []; c_trace := [] |} in
      match compress_loop (S (length src)) compressor inputBlockSize password src st with
      | Return st' w' =>
        (* Checksum *)
        let w' := fwrite (checksum_block (XXH32 FSE_CHECKSUM_SEED (c_fed st'))) w' in
        (* clean *)
        let w' := fclose foutput (fclose finput (free_all w')) in
        Return {| r_compressedfilesize := c_compressedfilesize st' + 3;
                  r_filesize := c_filesize st';
                  r_fed := c_fed st';
                  r_trace := c_trace st' |} w'
      | Exit code w' => Exit code w'
      | Undefined w' => Undefined w'
      | OutOfFuel => OutOfFuel
      end
  | Exit code w => Exit code w
  | Undefined w => Undefined w
  | OutOfFuel => OutOfFuel
  end.

End Simple.

(** ** Simple format: decompression *)

Section SimpleDecode.
Context {C : Collaborators}.

(** [FIO_ZLIBH_decompress] passes neither size on: [ZLIBH_decompress] is
    given the two pointers only. *)
Definition FIO_ZLIBH_decompress (dstSize : Z) (src : list Z) (scrambler : Z)
  : Z * list Z := ZLIBH_decompress src.

(** The switch on the magic number; [None] is its default case. *)
Definition select_decompressor (magicNumber : Z)
  : option (Z -> list Z -> Z -> Z * list Z) :=
  if magicNumber =? FIO_magicNumber_fse then Some FSE_decompress
  else if magicNumber =? FIO_magicNumber_huff0 then Some HUF_decompress
  else if magicNumber =? FIO_magicNumber_zlibh then Some FIO_ZLIBH_decompress
  else None.

(** The variables of the main loop; [d_trace] lists the indices given to
    the scrambler so far, [d_fed] the bytes given to [XXH32_update], and
    [d_ip] is the offset of [ip] in [in_buff]. *)
Record dState := {
  d_world : world;
  d_index : Z;
  d_filesize : Z;
  d_fed : list Z;
  d_trace : list Z;
  d_ip : Z
}.

(** [ip = in_buff + cSize;] *)
Definition d_seek (cSize : Z) (st : dState) : dState :=
  {| d_world := d_world st;
     d_index := d_index st;
     d_filesize := d_filesize st;
     d_fed := d_fed st;
     d_trace := d_trace st;
     d_ip := cSize |}.

Definition d_emit (bytes : list Z) (size : Z) (st : dState) : dState :=
  {| d_world := fwrite bytes (d_world st);
     d_index := d_index st;
     d_filesize := d_filesize st + size;
     d_fed := d_fed st ++ bytes;
     d_trace := d_trace st;
     d_ip := d_ip st |}.

(** How one turn of the main loop ends. *)
Inductive turn :=
| T_break                                         (* the bt_crc header *)
| T_next (ip0 : Z) (rest : list Z) (st : dState)  (* next header byte *)
| T_exit (code : Z) (w : world)
| T_undefined (w : world).

(** One turn of the main loop of [FIO_decompressFilename]: [ip0] is the
    header byte at [ip], [f] the unread part of the source. [in_buff] has
    [blockSize + FIO_maxBlockHeaderSize] bytes and [out_buff] has
    [blockSize]: filling either beyond its end is [T_undefined]. *)
Definition decompress_block (decompressor : Z -> list Z -> Z -> Z * list Z)
    (blockSize : Z) (password : option string) (ip0 : Z) (f : list Z) (st : dState)
  : turn :=
  let w := d_world st in
  match decode_header blockSize ip0 f with
  | H_crc => T_break
  | H_throw code => T_exit code w
  | H_block bType rSize cSize f1 =>
    (* Fill input buffer *)
    let toReadSize := cSize + 1 in
    let '(buf, rest) := fread toReadSize f1 in
    if blockSize + FIO_maxBlockHeaderSize <? zlen buf then T_undefined w
    else if negb (zlen buf =? toReadSize) then T_exit 38 w
    else
      let next := nth (Z.to_nat cSize) buf 0 in
      let st := d_seek cSize st in
      (* Decode block, salsa20 on out_buff, Write block *)
      match bType with
      | bt_compressed =>
        match scrambler_func password (d_index st) with
        | None => T_undefined w
        | Some scrambler =>
          let '(rSize', out) :=
            decompressor rSize (firstn (Z.to_nat cSize) buf) scrambler in
          let st1 := {| d_world := w; d_index := to_unsigned (d_index st + 1);
                        d_filesize := d_filesize st; d_fed := d_fed st;
                        d_trace := d_trace st ++ [d_index st];
                        d_ip := d_ip st |} in
          if blockSize <? zlen out then T_undefined w
          else if FSE_isError rSize' then T_exit 39 w
          else
            let out := salsa20 salsa_global PTR out in
            T_next next rest (d_emit (firstn (Z.to_nat rSize') out) rSize' st1)
        end
      | bt_rle =>
        if blockSize <? rSize then T_undefined w
        else
          let out := salsa20 salsa_global PTR
                       (repeat (nth 0 buf 0) (Z.to_nat rSize)) in
          T_next next rest (d_emit out rSize st)
      | bt_raw =>
        T_next next rest (d_emit (firstn (Z.to_nat cSize) buf) cSize st)
      | bt_crc => T_exit 40 w                     (* should not happen *)
      end
  end.

Fixpoint decompress_loop (fuel : nat)
    (decompressor : Z -> list Z -> Z -> Z * list Z)
    (blockSize : Z) (password : option string) (ip0 : Z) (f : list Z) (st : dState)
  : outcome (dState * list Z) :=
  match fuel with
  | O => OutOfFuel
  | S fuel' =>
    match decompress_block decompressor blockSize password ip0 f st with
    | T_break => Return (st, f) (d_world st)
    | T_next ip0' rest st' =>
      decompress_loop fuel' decompressor blockSize password ip0' rest st'
    | T_exit code w => Exit code w
    | T_undefined w => Undefined w
    end
  end.

(** What a call of [FIO_decompressFilename] reports: its return value and
    the scrambler indices it used. *)
Record dReport := {
  r_decoded : Z;
  r_dtrace : list Z
}.

(** [FIO_decompressFilename]. The value read into [randomNumber] is not
    used. The two bytes of the trailer are read to [ip + 1], where [ip] is
    left by the last block: [in_buff] has [blockSize +
    FIO_maxBlockHeaderSize] bytes, and storing what was obtained beyond its
    end is [Undefined]. *)
Definition FIO_decompressFilename (e : env) (password : option string)
  : outcome dReport :=
  match get_fileHandle e world0 with
  | Return src w =>
    (* check header *)
    let '(header, f) := fread FIO_FRAMEHEADERSIZE src in
    if negb (zlen header =? FIO_FRAMEHEADERSIZE) then Exit 30 w
    else
      match select_decompressor (FIO_readLE32 header) with
      | None => Exit 31 w
      | Some decompressor =>
        let blockSizeId := nth 4 header 0 in
        if FIO_maxBlockSizeID <? blockSizeId then Exit 32 w
        else
          let blockSize := FIO_blockID_to_blockSize blockSizeId in
          (* Allocate Memory *)
          let w := malloc out_buff (malloc in_buff w) in
          (* read first bHeader *)
          let '(b, f) := fread 1 f in
          if negb (zlen b =? 1) then Exit 34 w
          else
            let st := {| d_world := w; d_index := 0; d_filesize := 0;
                         d_fed := []; d_trace := []; d_ip := 0 |} in
            match decompress_loop (S (length f)) decompressor blockSize password
                    (nth 0 b 0) f st with
            | Return (st', f') w' =>
              (* CRC verification: the two bytes are read, not compared *)
              let '(crc, _) := fread 2 f' in
              if blockSize + FIO_maxBlockHeaderSize <? d_ip st' + 1 + zlen crc
              then Undefined w'
              else if negb (zlen crc =? 2) then Exit 43 w'
              else
                let w' := fclose foutput (fclose finput (free_all w')) in
                Return {| r_decoded := d_filesize st'; r_dtrace := d_trace st' |} w'
            | Exit code w' => Exit code w'
            | Undefined w' => Undefined w'
            | OutOfFuel => OutOfFuel
            end
      end
  | Exit code w => Exit code w
  | Undefined w => Undefined w
  | OutOfFuel => OutOfFuel
  end.

End SimpleDecode.

(** ** Buffered format *)

(** The functions of zstd_buffered_static.h that the buffered pump calls.
    A context is a value that each call gives back. [ZBUFF_compressContinue
    ctx dstCapacity src scrambler] answers its return value, the bytes it
    left in [dst] (their number is the new value of [cSize]) and the new
    value of [usedInSize]; [ZBUFF_decompressContinue] likewise answers its
    return value, the decoded bytes and the new value of [inSize]. *)
Class Buffered := {
  cctx : Type;
  dctx : Type;
  ZBUFF_isError : Z -> bool;
  ZBUFF_recommendedCInSize : Z;
  ZBUFF_recommendedCOutSize : Z;
  ZBUFF_recommendedDInSize : Z;
  ZBUFF_recommendedDOutSize : Z;
  ZBUFF_createCCtx : cctx;
  ZBUFF_createDCtx : dctx;
  ZBUFF_compressInit_advanced : cctx -> Z -> Z -> cctx * Z;
  ZBUFF_compressWithDictionary : cctx -> list Z -> cctx * Z;
  ZBUFF_compressContinue : cctx -> Z -> list Z -> Z -> cctx * (Z * list Z * Z);
  ZBUFF_compressEnd : cctx -> Z -> cctx * (Z * list Z);
  ZBUFF_decompressInit : dctx -> dctx;
  ZBUFF_decompressWithDictionary : dctx -> list Z -> dctx;
  ZBUFF_decompressContinue : dctx -> Z -> list Z -> Z -> dctx * (Z * list Z * Z);
  ZBUFF_freeCCtx : cctx -> Z;
  ZBUFF_freeDCtx : dctx -> Z
}.

Definition MAX_DICT_SIZE : Z := 512 * Z.shiftl 1 10.

Section BufferedFormat.
Context {C : Collaborators} {B : Buffered}.

Record cRess_t := {
  c_srcBufferSize : Z;
  c_dstBufferSize : Z;
  c_dictBuffer : list Z;
  c_ctx : cctx
}.

Record dRess_t := {
  d_srcBufferSize : Z;
  d_dstBufferSize : Z;
  d_dictBuffer : list Z;
  d_dctx : dctx
}.

(** What [FIO_loadFile] meets under the name of the dictionary: a file
    that [fopen] cannot open, or one that it opens, with the size that
    [FIO_getFileSize2] reports (0 when [stat] fails or the file is not a
    regular one), the bytes that can be read from it, and whether [fseek]
    succeeds on it. *)
Inductive dictFile :=
| dict_missing
| dict_file (size : Z) (bytes : list Z) (seekable : bool).

(** [FIO_loadFile]: [None] is the NULL file name. A file above
    [MAX_DICT_SIZE] gives its last bytes, one above 1 GB is refused. The
    result is the thrown code ([inl]) or the content of [*bufferPtr]; the
    buffer is taken to be obtained from [malloc]. *)
Definition FIO_loadFile (dict : option dictFile) : Z + list Z :=
  match dict with
  | None => inr []
  | Some dict_missing => inl 31
  | Some (dict_file size bytes seekable) =>
    if MAX_DICT_SIZE <? size then
      if Z.shiftl 1 30 <? size then inl 32
      else if negb seekable then inl 33
      else
        let '(buf, _) :=
          fread MAX_DICT_SIZE (skipn (Z.to_nat (size - MAX_DICT_SIZE)) bytes) in
        if negb (zlen buf =? MAX_DICT_SIZE) then inl 35 else inr buf
    else
      let '(buf, _) := fread size bytes in
      if negb (zlen buf =? size) then inl 35 else inr buf
  end.

(** [FIO_createCResources]; the context and the two buffers are taken to be
    obtained. *)
Definition FIO_createCResources (dict : option dictFile) : Z + cRess_t :=
  match FIO_loadFile dict with
  | inl code => inl code
  | inr d => inr {| c_srcBufferSize := ZBUFF_recommendedCInSize;
                    c_dstBufferSize := ZBUFF_recommendedCOutSize;
                    c_dictBuffer := d;
                    c_ctx := ZBUFF_createCCtx |}
  end.

(** [FIO_freeCResources], on the context as the calls have left it: the
    code that it throws, if any. *)
Definition FIO_freeCResources (ctx : cctx) : option Z :=
  if ZBUFF_isError (ZBUFF_freeCCtx ctx) then Some 38 else None.

(** [FIO_freeDResources]. *)
Definition FIO_freeDResources (ctx : dctx) : option Z :=
  if ZBUFF_isError (ZBUFF_freeDCtx ctx) then Some 69 else None.

(** [while ((ch = getchar()) != '\n' && ch != EOF);] *)
Fixpoint flush_line (keys : list Z) : list Z :=
  match keys with
  | [] => []
  | k :: keys' => if k =? 10 then keys' else flush_line keys'
  end.

(** How [FIO_getFiles] ends: it returns 0 with both files open, it returns
    1, or it throws. *)
Inductive getFiles_result :=
| GF_ok (src : list Z) (w : world)
| GF_fail (w : world)
| GF_throw (code : Z) (w : world).

Definition FIO_getFiles (e : env) (w : world) : getFiles_result :=
  let fileIn :=
    if is_stdinmark (e_input e) then Some (e_stdin e) else e_source e in
  match fileIn with
  | None => GF_fail w
  | Some src =>
    let w1 := fopen finput w in
    let refused :=
      negb (is_stdoutmark (e_output e)) && negb (g_overwrite e) &&
      e_dst_exists e &&
      ((g_displayLevel e <=? 1) || is_stdinmark (e_input e) ||
       (let '(ch, keys) := getchar (flush_line (e_keys e)) in
        let ch := if fst (getchar keys) =? 10 then ch else 78 in
        negb (ch =? 89) && negb (ch =? 121))) in
    if refused then GF_fail w1
    else if is_stdoutmark (e_output e) || e_dst_writable e
         then GF_ok src (fopen foutput w1)
         else GF_throw 13 w1
  end.

(** The variables of the loop of [FIO_compressZstdFilename_extRess];
    [z_trace] lists the calls of the scrambler so far: index and result. *)
Record zState := {
  z_world : world;
  z_ctx : cctx;
  z_index : Z;
  z_filesize : Z;
  z_compressedfilesize : Z;
  z_trace : list (Z * Z)
}.

(** The main compression loop. The scrambler is called at the top of every
    turn, the last one included. The call of [salsa20] on [srcBuffer] comes
    before [fread] fills that buffer again, and only the bytes just read are
    used. *)
Fixpoint zstd_compress_loop (fuel : nat) (ress : cRess_t)
    (passwordValue : option string) (f : list Z) (st : zState) : outcome zState :=
  match fuel with
  | O => OutOfFuel
  | S fuel' =>
    match scrambler_func passwordValue (z_index st) with
    | None => Undefined (z_world st)
    | Some scrambler =>
      let trace := z_trace st ++ [(z_index st, scrambler)] in
      let index := to_unsigned (z_index st + 1) in
      (* Fill input Buffer *)
      let '(blk, rest) := fread (c_srcBufferSize ress) f in
      let inSize := zlen blk in
      if inSize =? 0
      then Return {| z_world := z_world st; z_ctx := z_ctx st; z_index := index;
                     z_filesize := z_filesize st;
                     z_compressedfilesize := z_compressedfilesize st;
                     z_trace := trace |} (z_world st)
      else
        let '(ctx, (result, out, usedInSize)) :=
          ZBUFF_compressContinue (z_ctx st) (c_dstBufferSize ress) blk scrambler in
        if ZBUFF_isError result then Exit 23 (z_world st)
        else if negb (inSize =? usedInSize) then Exit 24 (z_world st)
        else
          zstd_compress_loop fuel' ress passwordValue rest
            {| z_world := fwrite out (z_world st); z_ctx := ctx; z_index := index;
               z_filesize := z_filesize st + inSize;
               z_compressedfilesize := z_compressedfilesize st + zlen out;
               z_trace := trace |}
    end
  end.

(** What one file of a run reports: the value returned, the function the
    pointer [scrambler_func] was set to, and the calls made through it. *)
Record zReport := {
  zr_result : Z;
  zr_scrambler : option scrambler_t;
  zr_trace : list (Z * Z);
  zr_written : list Z
}.

(** [FIO_compressZstdFilename_extRess]: the report, and the context as the
    call leaves it. [srcSize] is [FIO_getFileSize2(srcFileName)]. *)
Definition FIO_compressZstdFilename_extRess (ress : cRess_t) (e : env)
    (srcSize cLevel : Z) (passwordValue : option string)
  : outcome (zReport * cctx) :=
  match FIO_getFiles e world0 with
  | GF_fail w =>
    Return ({| zr_result := 1; zr_scrambler := None; zr_trace := [];
               zr_written := [] |}, c_ctx ress) w
  | GF_throw code w => Exit code w
  | GF_ok src w =>
    let dictSize := zlen (c_dictBuffer ress) in
    let '(ctx, errorCode) :=
      ZBUFF_compressInit_advanced (c_ctx ress) cLevel (srcSize + dictSize) in
    if ZBUFF_isError errorCode then Exit 21 w
    else
      let '(ctx, errorCode) := ZBUFF_compressWithDictionary ctx (c_dictBuffer ress) in
      if ZBUFF_isError errorCode then Exit 22 w
      else
        let st := {| z_world := w; z_ctx := ctx; z_index := 0; z_filesize := 0;
                     z_compressedfilesize := 0; z_trace := [] |} in
        match zstd_compress_loop (S (length src)) ress passwordValue src st with
        | Return st' w' =>
          (* End of Frame *)
          let '(ctx', (result, out)) :=
            ZBUFF_compressEnd (z_ctx st') (c_dstBufferSize ress) in
          if negb (result =? 0) then Exit 26 w'
          else
            let w' := fclose foutput (fclose finput (fwrite out w')) in
            Return ({| zr_result := 0;
                       zr_scrambler := Some (fst (choose_scrambler passwordValue));
                       zr_trace := z_trace st';
                       zr_written := w_written w' |}, ctx') w'
        | Exit code w' => Exit code w'
        | Undefined w' => Undefined w'
        | OutOfFuel => OutOfFuel
        end
  end.

Definition FNSPACE : Z := 30.

(** The loop of [FIO_compressMultipleFilenames] over the table of names.
    [look dst src] is what [FIO_getFiles] meets for that pair of names, and
    the size of the source. The same resources serve every file; a throw in
    one file ends the run. [dfnSize] is the size of the buffer of
    [dstFileName]: [strcpy] and [strcat] put the name, the suffix and the
    terminator in it, whatever its size. File names are strings without
    NUL. The result: the number of missed files, the report of every file,
    and the context as the last call leaves it. *)
Fixpoint compress_each (ress : cRess_t) (look : string -> string -> env * Z)
    (suffix : string) (cLevel : Z) (dfnSize : Z) (names : list string)
  : outcome (Z * list zReport * cctx) :=
  match names with
  | [] => Return (0, [], c_ctx ress) world0
  | name :: names' =>
    let suffixSize := Z.of_nat (String.length suffix) in
    let ifnSize := Z.of_nat (String.length name) in
    let dfnSize :=
      if dfnSize <=? ifnSize + suffixSize + 1 then ifnSize + 20 else dfnSize in
    if dfnSize <? ifnSize + suffixSize + 1 then Undefined world0
    else
      let dstFileName := (name ++ suffix)%string in
      let '(e, srcSize) := look dstFileName name in
      match FIO_compressZstdFilename_extRess ress e srcSize cLevel
              (Some "TODO passwordValue"%string) with
      | Return (rep, ctx) _ =>
        let ress' := {| c_srcBufferSize := c_srcBufferSize ress;
                        c_dstBufferSize := c_dstBufferSize ress;
                        c_dictBuffer := c_dictBuffer ress;
                        c_ctx := ctx |} in
        match compress_each ress' look suffix cLevel dfnSize names' with
        | Return (missed, reps, ctx') w =>
          Return (zr_result rep + missed, rep :: reps, ctx') w
        | other => other
        end
      | Exit code w => Exit code w
      | Undefined w => Undefined w
      | OutOfFuel => OutOfFuel
      end
  end.

(** [FIO_compressMultipleFilenames]: the number of missed files, and the
    report of every file. *)
Definition FIO_compressMultipleFilenames (look : string -> string -> env * Z)
    (inFileNamesTable : list string) (suffix : string)
    (dict : option dictFile) (compressionLevel : Z)
  : outcome (Z * list zReport) :=
  match FIO_createCResources dict with
  | inl code => Exit code world0
  | inr ress =>
    match compress_each ress look suffix compressionLevel FNSPACE
            inFileNamesTable with
    | Return (missed, reps, ctx) w =>
      match FIO_freeCResources ctx with
      | Some code => Exit code w
      | None => Return (missed, reps) w
      end
    | Exit code w => Exit code w
    | Undefined w => Undefined w
    | OutOfFuel => OutOfFuel
    end
  end.

(** *** Decompression of one frame *)

(** The variables of the loop of [FIO_decompressFrame]: [f_staged] is the
    part of [srcBuffer] that holds [readSize] loaded bytes, [f_file] the
    unread part of the source. *)
Record fState := {
  f_world : world;
  f_dctx : dctx;
  f_staged : list Z;
  f_file : list Z;
  f_index : Z;
  f_frameSize : Z
}.

(** How one turn of the loop ends; [F_continue] records the number of
    bytes that [ZBUFF_decompressContinue] asked for. *)
Inductive fturn :=
| F_done (st : fState)
| F_continue (toRead : Z) (st : fState)
| F_exit (code : Z) (w : world)
| F_undefined (w : world).

(** The number of bytes that the codec asks for at the call made in
    state [st]. *)
Definition requested (ress : dRess_t) (scrambler : Z) (st : fState) : Z :=
  fst (fst (snd (ZBUFF_decompressContinue (f_dctx st) (d_dstBufferSize ress)
                   (f_staged st) scrambler))).

Definition decompressFrame_turn (ress : dRess_t) (passwordValue : option string)
    (st : fState) : fturn :=
  match scrambler_func passwordValue (f_index st) with
  | None => F_undefined (f_world st)
  | Some scrambler =>
    (* Decode *)
    let readSize := zlen (f_staged st) in
    let '(dctx', (toRead, decoded, inSize)) :=
      ZBUFF_decompressContinue (f_dctx st) (d_dstBufferSize ress) (f_staged st)
        scrambler in
    if ZBUFF_isError toRead then F_exit 36 (f_world st)
    else
      let readSize := readSize - inSize in
      (* Write block *)
      let w := fwrite decoded (f_world st) in
      let frameSize := f_frameSize st + zlen decoded in
      let index := to_unsigned (f_index st + 1) in
      if toRead =? 0
      then F_done {| f_world := w; f_dctx := dctx'; f_staged := f_staged st;
                     f_file := f_file st; f_index := index;
                     f_frameSize := frameSize |}
      else if negb (readSize =? 0) then F_exit 38 w
      (* Fill input buffer *)
      else if d_srcBufferSize ress <? toRead then F_exit 34 w
      else
        let '(buf, rest) := fread toRead (f_file st) in
        if negb (zlen buf =? toRead) then F_exit 35 w
        else F_continue toRead
               {| f_world := w; f_dctx := dctx'; f_staged := buf;
                  f_file := rest; f_index := index; f_frameSize := frameSize |}
  end.

Fixpoint decompressFrame_loop (fuel : nat) (ress : dRess_t)
    (passwordValue : option string) (st : fState) : outcome (Z * list Z) :=
  match fuel with
  | O => OutOfFuel
  | S fuel' =>
    match decompressFrame_turn ress passwordValue st with
    | F_done st' => Return (f_frameSize st', f_file st') (f_world st')
    | F_continue _ st' => decompressFrame_loop fuel' ress passwordValue st'
    | F_exit code w => Exit code w
    | F_undefined w => Undefined w
    end
  end.

(** [FIO_decompressFrame]: [loaded] is the part of [srcBuffer] already
    filled by the caller ([alreadyLoaded] bytes), [src] the unread part of
    the source, [w] the world with both files open. The result is the size
    of the frame and what is left of the source. The call of [salsa20] on
    [dstBuffer] comes before the coder fills that buffer. *)
Definition FIO_decompressFrame (ress : dRess_t) (w : world) (src : list Z)
    (loaded : list Z) (passwordValue : option string) : outcome (Z * list Z) :=
  let dctx0 :=
    ZBUFF_decompressWithDictionary (ZBUFF_decompressInit (d_dctx ress))
      (d_dictBuffer ress) in
  decompressFrame_loop (S (length src)) ress passwordValue
    {| f_world := w; f_dctx := dctx0; f_staged := loaded; f_file := src;
       f_index := 0; f_frameSize := 0 |}.

End BufferedFormat.

(** ** Sample collaborators

    Small stand-ins for the libraries, to run the definitions on concrete
    files. The sample coder answers 1 on a block of one repeated byte,
    packs a block that repeats a pair of bytes into three bytes, and
    answers 0 otherwise. *)

Definition sample_file (src : list Z) : env :=
  {| e_input := path "in"; e_output := path "out"; e_source := Some src;
     e_stdin := []; e_dst_exists := false; e_dst_writable := true;
     g_overwrite := false; g_displayLevel := 2; e_keys := [] |}.

Definition all_equal (l : list Z) : bool :=
  match l with
  | [] => false
  | x :: l' => forallb (Z.eqb x) l'
  end.

Fixpoint list_eqb (a b : list Z) : bool :=
  match a, b with
  | [], [] => true
  | x :: a', y :: b' => (x =? y) && list_eqb a' b'
  | _, _ => false
  end.

Definition pairs (a b : Z) (k : nat) : list Z := concat (repeat [a; b] k).

Definition sample_error : Z := 2 ^ 64 - 1.

Definition sample_compress (dstSize : Z) (src : list Z) (scrambler : Z)
  : Z * list Z :=
  if all_equal src then (1, [])
  else match src with
       | a :: b :: _ =>
         let k := Nat.div (length src) 2 in
         if list_eqb src (pairs a b k) && (Nat.leb 2 k) && (Nat.ltb k 256)
         then (3, [a; b; Z.of_nat k])
         else (0, [])
       | _ => (0, [])
       end.

Definition sample_decompress (dstSize : Z) (src : list Z) (scrambler : Z)
  : Z * list Z :=
  match src with
  | [a; b; k] => if 2 * k <=? dstSize then (2 * k, pairs a b (Z.to_nat k))
                 else (sample_error, [])
  | _ => (sample_error, [])
  end.

Definition sample_hash (seed : Z) (bytes : list Z) : Z :=
  fold_left (fun h b => (h * 31 + b + 1) mod 2 ^ 32) bytes seed.

Definition sample_collaborators (keystream : nat -> Z) : Collaborators :=
  {| PTR := 8;
     salsa_local := keystream;
     salsa_global := keystream;
     XXH32 := sample_hash;
     FSE_compressBound := fun size => 512 + size + Z.shiftr size 7;
     FSE_isError := fun code => 2 ^ 64 - 100 <? code;
     FSE_compress := sample_compress;
     HUF_compress := sample_compress;
     ZLIBH_compress := fun src => sample_compress 0 src 0;
     FSE_decompress := sample_decompress;
     HUF_decompress := sample_decompress;
     ZLIBH_decompress := fun src => sample_decompress (2 ^ 16) (firstn 3 src) 0;
     getNumber64ForPassword :=
       fun password index => 1000003 * strlen password + 7919 * index |}.

(** No cipher at all, and a keystream 1, 2, 3, ... *)
Definition plain : Collaborators := sample_collaborators (fun _ => 0).
Definition keyed : Collaborators :=
  sample_collaborators (fun i => Z.of_nat (S i)).

(** A sample buffered coder. Compression copies. Decompression follows a
    small protocol: after the four bytes of the magic number it asks for
    one byte [n]; [n = 0] ends the frame, otherwise it asks for [n] bytes,
    gives them back as decoded bytes and asks for the next [n]. The
    context counts the bytes it still expects as payload. *)
Definition sample_buffered : Buffered :=
  {| cctx := unit;
     dctx := option Z;
     ZBUFF_isError := fun code => 2 ^ 64 - 100 <? code;
     ZBUFF_recommendedCInSize := 4;
     ZBUFF_recommendedCOutSize := 16;
     ZBUFF_recommendedDInSize := 16;
     ZBUFF_recommendedDOutSize := 16;
     ZBUFF_createCCtx := tt;
     ZBUFF_createDCtx := None;
     ZBUFF_compressInit_advanced := fun ctx _ _ => (ctx, 0);
     ZBUFF_compressWithDictionary := fun ctx _ => (ctx, 0);
     ZBUFF_compressContinue := fun ctx _ src _ => (ctx, (0, src, zlen src));
     ZBUFF_compressEnd := fun ctx _ => (ctx, (0, [0]));
     ZBUFF_decompressInit := fun _ => None;
     ZBUFF_decompressWithDictionary := fun ctx _ => ctx;
     ZBUFF_decompressContinue := fun ctx _ src _ =>
       match ctx with
       | None => (Some 0, (1, [], zlen src))
       | Some 0 =>
         let n := nth 0 src 0 in
         if n =? 0 then (None, (0, [], zlen src)) else (Some n, (n, [], zlen src))
       | Some _ => (Some 0, (1, src, zlen src))
       end;
     ZBUFF_freeCCtx := fun _ => 0;
     ZBUFF_freeDCtx := fun _ => 0 |}.

(** A coder that shows the scrambler value it is given: compression
    copies the block and puts the value after it. *)
Definition showing_buffered : Buffered :=
  {| cctx := unit;
     dctx := unit;
     ZBUFF_isError := fun code => 2 ^ 64 - 100 <? code;
     ZBUFF_recommendedCInSize := 4;
     ZBUFF_recommendedCOutSize := 16;
     ZBUFF_recommendedDInSize := 16;
     ZBUFF_recommendedDOutSize := 16;
     ZBUFF_createCCtx := tt;
     ZBUFF_createDCtx := tt;
     ZBUFF_compressInit_advanced := fun ctx _ _ => (ctx, 0);
     ZBUFF_compressWithDictionary := fun ctx _ => (ctx, 0);
     ZBUFF_compressContinue := fun ctx _ src scrambler =>
       (ctx, (0, src ++ [scrambler], zlen src));
     ZBUFF_compressEnd := fun ctx _ => (ctx, (0, [0]));
     ZBUFF_decompressInit := fun ctx => ctx;
     ZBUFF_decompressWithDictionary := fun ctx _ => ctx;
     ZBUFF_decompressContinue := fun ctx _ src _ => (ctx, (0, src, zlen src));
     ZBUFF_freeCCtx := fun _ => 0;
     ZBUFF_freeDCtx := fun _ => 0 |}.

Definition sample_dRess : dRess_t (B := sample_buffered) :=
  @Build_dRess_t sample_buffered 16 16 [] (@None Z).

Definition both_open : world :=
  {| w_written := []; w_open := [foutput; finput]; w_heap := [] |}.

(** The world of a decoder that has opened both files, obtained both
    buffers and written nothing. *)
Definition starved : world :=
  {| w_written := []; w_open := [foutput; finput]; w_heap := [out_buff; in_buff] |}.

(** A sample file system for a run over several files: the file "a"
    holds five bytes, no other file can be opened. *)
Definition sample_look (dst src : string) : env * Z :=
  if String.eqb src "a" then (sample_file [1; 2; 3; 4; 5], 5)
  else ({| e_input := path src; e_output := path dst; e_source := None;
           e_stdin := []; e_dst_exists := false; e_dst_writable := true;
           g_overwrite := false; g_displayLevel := 2; e_keys := [] |}, 0).

(** Two states of the loop of [FIO_decompressFrame] with the sample coder
    about to read a length byte: one of 3, one of 200. *)
Definition sample_fState (n : Z) (src : list Z) : fState (B := sample_buffered) :=
  @Build_fState sample_buffered both_open (Some 0) [n] src 1 0.

(** The state of the compression loop of the sample coder after a first
    block [blk] that it leaves raw. *)
Definition compress_block_result (blk : list Z) : cState :=
  {| c_world := fwrite (write_cBlock 1024 blk [] 0) both_open;
     c_index := 1; c_filesize := zlen blk;
     c_compressedfilesize := 5 + cBlock_size 1024 (zlen blk) 0;
     c_fed := blk; c_trace := [0] |}.

(** The state of the decompression loop before the first block. *)
Definition dState0 : dState :=
  {| d_world := starved; d_index := 0; d_filesize := 0; d_fed := [];
     d_trace := []; d_ip := 0 |}.

(** The state of the compression loop before the first block. *)
Definition cState0 : cState :=
  {| c_world := both_open; c_index := 0; c_filesize := 0;
     c_compressedfilesize := 5; c_fed := []; c_trace := [] |}.

(** ** Further functions of fileio.c *)

(** [ub8] of isaac64's standard.h: an unsigned integer of 8 bytes. *)
Definition to_ub8 (x : Z) : Z := x mod 2 ^ 64.

Definition FIO_writeLE64 (val64 : Z) : list Z :=
  [BYTE val64; BYTE (Z.shiftr val64 8); BYTE (Z.shiftr val64 16);
   BYTE (Z.shiftr val64 24); BYTE (Z.shiftr val64 32); BYTE (Z.shiftr val64 40);
   BYTE (Z.shiftr val64 48); BYTE (Z.shiftr val64 56)].

Definition FIO_readLE64 (p : list Z) : Z :=
  to_ub8 (nth 0 p 0 + Z.shiftl (nth 1 p 0) 8 + Z.shiftl (nth 2 p 0) 16
          + Z.shiftl (nth 3 p 0) 24 + Z.shiftl (nth 4 p 0) 32
          + Z.shiftl (nth 5 p 0) 40 + Z.shiftl (nth 6 p 0) 48
          + Z.shiftl (nth 7 p 0) 56).

(** The value [CRCsaved] that [FIO_decompressFilename] computes from the
    three bytes at [ip] after its main loop (and compares with nothing). *)
Definition CRCsaved (ip : list Z) : Z :=
  to_unsigned (nth 2 ip 0 + Z.shiftl (nth 1 ip 0) 8
               + Z.shiftl (Z.land (nth 0 ip 0) _6BITS) 16).

Section SimpleStreams.
Context {C : Collaborators}.

(** The main loop of [FIO_decompressFilename] on a stream whose first byte
    is the header byte at [ip]; on an empty stream, the failed read of the
    first header byte. *)
Definition decode_stream (fuel : nat)
    (decompressor : Z -> list Z -> Z -> Z * list Z)
    (blockSize : Z) (password : option string) (stream : list Z) (st : dState)
  : outcome (dState * list Z) :=
  match stream with
  | [] => Exit 34 (d_world st)
  | ip0 :: f => decompress_loop fuel decompressor blockSize password ip0 f st
  end.

(** The bytes that the main loop of [FIO_compressFilename] writes for a
    source [f], with no secret, when no turn fails. *)
Fixpoint frame_blocks (fuel : nat) (compressor : Z -> list Z -> Z -> Z * list Z)
    (inputBlockSize : Z) (f : list Z) : list Z :=
  match fuel with
  | O => []
  | S fuel' =>
    let '(blk, rest) := fread inputBlockSize f in
    if zlen blk =? 0 then []
    else
      let buf := salsa20 salsa_local PTR blk in
      let '(cSize, dst) := compressor (FSE_compressBound inputBlockSize) buf 0 in
      write_cBlock inputBlockSize buf dst cSize
      ++ frame_blocks fuel' compressor inputBlockSize rest
  end.

(** The decompressor that the magic number of compressor [c] selects. *)
Definition paired_decompressor (c : FIO_compressor_t)
  : Z -> list Z -> Z -> Z * list Z :=
  match c with
  | FIO_fse => FSE_decompress
  | FIO_huff0 => HUF_decompress
  | FIO_zlibh => FIO_ZLIBH_decompress
  end.

(** A block that a pair of coders handles faithfully, with no secret.
    [buf] is the block as the cipher pass of the encoder leaves it in
    [in_buff]. The compressor reports no error and answers 0; or it
    answers 1 on a [buf] of one repeated byte that is full or one byte
    long; or it answers a size that fits the size field and leaves room in
    the input buffer of the decoder for the next header byte and the two
    bytes of the trailer, leaves that many bytes, and the decompressor
    gives [buf] back from them. *)
Definition block_ok (compressor decompressor : Z -> list Z -> Z -> Z * list Z)
    (bs : Z) (blk : list Z) : bool :=
  let buf := salsa20 salsa_local PTR blk in
  let '(cSize, dst) := compressor (FSE_compressBound bs) buf 0 in
  negb (FSE_isError cSize) &&
  ((cSize =? 0)
   || ((cSize =? 1) && list_eqb buf (repeat (nth 0 buf 0) (length buf))
       && ((zlen blk =? bs) || (zlen blk =? 1)))
   || ((1 <? cSize) && (cSize <? 65536) && (cSize <=? bs + 2)
       && (cSize <=? zlen dst)
       && (let '(r, out) :=
             decompressor (zlen blk) (firstn (Z.to_nat cSize) dst) 0 in
           (r =? zlen blk) && list_eqb out buf && negb (FSE_isError r)))).

(** What the decoder writes for such a block. A block framed raw (the
    compressor answered 0, or 1 on a block shorter than the nominal size)
    is written from [in_buff]: it comes back as the cipher pass of the
    encoder left it. A block framed rle or compressed is written from
    [out_buff], after the cipher pass of the decoder. *)
Definition block_back (compressor : Z -> list Z -> Z -> Z * list Z)
    (bs : Z) (blk : list Z) : list Z :=
  let buf := salsa20 salsa_local PTR blk in
  let '(cSize, _) := compressor (FSE_compressBound bs) buf 0 in
  if (cSize =? 0) || ((cSize =? 1) && negb (zlen blk =? bs)) then buf
  else salsa20 salsa_global PTR buf.

(** The same for a source read in blocks of [bs] bytes. *)
Fixpoint source_back (fuel : nat) (compressor : Z -> list Z -> Z -> Z * list Z)
    (bs : Z) (f : list Z) : list Z :=
  match fuel with
  | O => []
  | S fuel' =>
    let '(blk, rest) := fread bs f in
    if zlen blk =? 0 then []
    else block_back compressor bs blk ++ source_back fuel' compressor bs rest
  end.

(** Every block of a source read in blocks of [bs] bytes is handled
    faithfully. *)
Fixpoint blocks_ok (fuel : nat)
    (compressor decompressor : Z -> list Z -> Z -> Z * list Z)
    (bs : Z) (f : list Z) : bool :=
  match fuel with
  | O => true
  | S fuel' =>
    let '(blk, rest) := fread bs f in
    if zlen blk =? 0 then true
    else block_ok compressor decompressor bs blk
         && blocks_ok fuel' compressor decompressor bs rest
  end.

End SimpleStreams.

Section BufferedFiles.
Context {C : Collaborators} {B : Buffered}.

(** [FIO_compressZstdFilename]: resources are created, one file is
    compressed with the secret of the caller, resources are freed. *)
Definition FIO_compressZstdFilename (e : env) (srcSize : Z)
    (dict : option dictFile) (compressionLevel : Z) (passwordValue : option string)
  : outcome zReport :=
  match FIO_createCResources dict with
  | inl code => Exit code world0
  | inr ress =>
    match FIO_compressZstdFilename_extRess ress e srcSize compressionLevel
            passwordValue with
    | Return (rep, ctx) w =>
      match FIO_freeCResources ctx with
      | Some code => Exit code w
      | None => Return rep w
      end
    | Exit code w => Exit code w
    | Undefined w => Undefined w
    | OutOfFuel => OutOfFuel
    end
  end.

(** [FIO_createDResources]; the context and the two buffers are taken to be
    obtained. *)
Definition FIO_createDResources (dict : option dictFile) : Z + dRess_t :=
  match FIO_loadFile dict with
  | inl code => inl code
  | inr d => inr {| d_srcBufferSize := ZBUFF_recommendedDInSize;
                    d_dstBufferSize := ZBUFF_recommendedDOutSize;
                    d_dictBuffer := d;
                    d_dctx := ZBUFF_createDCtx |}
  end.

(** The loop of [FIO_decompressFrame], giving the state in which it ends:
    the context is behind a pointer and the next frame finds it as this one
    left it. *)
Fixpoint decompressFrame_run (fuel : nat) (ress : dRess_t)
    (passwordValue : option string) (st : fState) : outcome fState :=
  match fuel with
  | O => OutOfFuel
  | S fuel' =>
    match decompressFrame_turn ress passwordValue st with
    | F_done st' => Return st' (f_world st')
    | F_continue _ st' => decompressFrame_run fuel' ress passwordValue st'
    | F_exit code w => Exit code w
    | F_undefined w => Undefined w
    end
  end.

Definition with_dctx (ress : dRess_t) (ctx : dctx) : dRess_t :=
  {| d_srcBufferSize := d_srcBufferSize ress;
     d_dstBufferSize := d_dstBufferSize ress;
     d_dictBuffer := d_dictBuffer ress;
     d_dctx := ctx |}.

(** The loop "for each frame" of [FIO_decompressFile_extRess] (without the
    legacy formats): four bytes are read; none ends the loop, fewer than
    four is the read error 31. The result is [filesize] and the context. *)
Fixpoint decompress_frames (fuel : nat) (ress : dRess_t)
    (passwordValue : option string) (src : list Z) (w : world) (filesize : Z)
  : outcome (Z * dctx) :=
  match fuel with
  | O => OutOfFuel
  | S fuel' =>
    let toRead := 4 in
    let '(loaded, rest) := fread toRead src in
    if zlen loaded =? 0 then Return (filesize, d_dctx ress) w
    else if negb (zlen loaded =? toRead) then Exit 31 w
    else
      let dctx0 :=
        ZBUFF_decompressWithDictionary (ZBUFF_decompressInit (d_dctx ress))
          (d_dictBuffer ress) in
      match decompressFrame_run (S (length rest)) ress passwordValue
              {| f_world := w; f_dctx := dctx0; f_staged := loaded;
                 f_file := rest; f_index := 0; f_frameSize := 0 |} with
      | Return st' w' =>
        decompress_frames fuel' (with_dctx ress (f_dctx st')) passwordValue
          (f_file st') w' (filesize + f_frameSize st')
      | Exit code w' => Exit code w'
      | Undefined w' => Undefined w'
      | OutOfFuel => OutOfFuel
      end
  end.

(** What one file of a decompression reports: the value returned, the
    number of bytes decoded (which the program displays) and the bytes
    written. *)
Record dzReport := {
  dz_result : Z;
  dz_filesize : Z;
  dz_written : list Z
}.

Definition FIO_decompressFile_extRess (ress : dRess_t) (e : env)
    (passwordValue : option string) : outcome (dzReport * dctx) :=
  match FIO_getFiles e world0 with
  | GF_fail w =>
    Return ({| dz_result := 1; dz_filesize := 0; dz_written := [] |}, d_dctx ress) w
  | GF_throw code w => Exit code w
  | GF_ok src w =>
    match decompress_frames (S (length src)) ress passwordValue src w 0 with
    | Return (filesize, ctx) w' =>
      let w' := fclose foutput (fclose finput w') in
      Return ({| dz_result := 0; dz_filesize := filesize;
                 dz_written := w_written w' |}, ctx) w'
    | Exit code w' => Exit code w'
    | Undefined w' => Undefined w'
    | OutOfFuel => OutOfFuel
    end
  end.

Definition FIO_decompressZstdFilename (e : env) (dict : option dictFile)
    (passwordValue : option string) : outcome dzReport :=
  match FIO_createDResources dict with
  | inl code => Exit code world0
  | inr ress =>
    match FIO_decompressFile_extRess ress e passwordValue with
    | Return (rep, ctx) w =>
      match FIO_freeDResources ctx with
      | Some code => Exit code w
      | None => Return rep w
      end
    | Exit code w => Exit code w
    | Undefined w => Undefined w
    | OutOfFuel => OutOfFuel
    end
  end.

(** The test on the name of a source in [FIO_decompressMultipleFilenames]
    and the name of its destination: [None] when the name is not longer
    than the suffix or does not end with it, otherwise the name without
    the suffix. File names are strings without NUL. *)
Definition decompress_dstName (srcFileName suffix : string) : option string :=
  let sfnSize := String.length srcFileName in
  let suffixSize := String.length suffix in
  if (sfnSize <=? suffixSize)%nat
     || negb (String.eqb (substring (sfnSize - suffixSize) suffixSize srcFileName)
                suffix)
  then None
  else Some (substring 0 (sfnSize - suffixSize) srcFileName).



End BufferedFiles.

(** ** The buffered compression, from the values given to the coder

    A second description of the buffered compression, to compare with
    [FIO_compressZstdFilename_extRess] and its callers: the source is cut
    in blocks, and the coder is given block after block, block number [k]
    with the scrambler value [values k]. *)

Definition map_outcome {A A' : Type} (g : A -> A') (o : outcome A) : outcome A' :=
  match o with
  | Return a w => Return (g a) w
  | Exit code w => Exit code w
  | Undefined w => Undefined w
  | OutOfFuel => OutOfFuel
  end.

(** The scrambler values of a secret, block by block; without a secret
    every value is 0. *)
Definition values_of_secret {C : Collaborators} (secret : option string)
    (index : Z) : option Z :=
  match secret with
  | None => Some 0
  | Some pw => simlple_scrambler pw (to_int (strlen pw)) (to_int index)
  end.

Section BufferedValues.
Context {C : Collaborators} {B : Buffered}.

(** The source in blocks of [n] bytes, the last one shorter. *)
Fixpoint blocks_of (fuel : nat) (n : Z) (f : list Z) : list (list Z) :=
  match fuel with
  | O => []
  | S fuel' =>
    let '(blk, rest) := fread n f in
    if zlen blk =? 0 then [] else blk :: blocks_of fuel' n rest
  end.

(** The blocks go to the coder one by one, and what it produces is written.
    A value is asked for every block, and one more after the last block:
    where there is none the run has no defined behaviour. *)
Fixpoint feed_blocks (values : Z -> option Z) (dstCapacity : Z)
    (blocks : list (list Z)) (index : Z) (ctx : cctx) (w : world)
  : outcome cctx :=
  match values index with
  | None => Undefined w
  | Some scrambler =>
    match blocks with
    | [] => Return ctx w
    | blk :: blocks' =>
      let '(ctx', (result, out, usedInSize)) :=
        ZBUFF_compressContinue ctx dstCapacity blk scrambler in
      if ZBUFF_isError result then Exit 23 w
      else if negb (zlen blk =? usedInSize) then Exit 24 w
      else feed_blocks values dstCapacity blocks' (to_unsigned (index + 1)) ctx'
             (fwrite out w)
    end
  end.

(** One file: the value returned, the bytes of the destination, and the
    context. *)
Definition compress_file_with (values : Z -> option Z) (ress : cRess_t)
    (e : env) (srcSize cLevel : Z) : outcome (Z * list Z * cctx) :=
  match FIO_getFiles e world0 with
  | GF_fail w => Return (1, [], c_ctx ress) w
  | GF_throw code w => Exit code w
  | GF_ok src w =>
    let '(ctx, errorCode) :=
      ZBUFF_compressInit_advanced (c_ctx ress) cLevel
        (srcSize + zlen (c_dictBuffer ress)) in
    if ZBUFF_isError errorCode then Exit 21 w
    else
      let '(ctx, errorCode) := ZBUFF_compressWithDictionary ctx (c_dictBuffer ress) in
      if ZBUFF_isError errorCode then Exit 22 w
      else
        match feed_blocks values (c_dstBufferSize ress)
                (blocks_of (S (length src)) (c_srcBufferSize ress) src) 0 ctx w with
        | Return ctx w' =>
          let '(ctx', (result, out)) := ZBUFF_compressEnd ctx (c_dstBufferSize ress) in
          if negb (result =? 0) then Exit 26 w'
          else
            let w' := fclose foutput (fclose finput (fwrite out w')) in
            Return (0, w_written w', ctx') w'
        | Exit code w' => Exit code w'
        | Undefined w' => Undefined w'
        | OutOfFuel => OutOfFuel
        end
  end.

(** One file between the creation and the release of the resources. *)
Definition compress_one_with (values : Z -> option Z) (e : env) (srcSize : Z)
    (dict : option dictFile) (cLevel : Z) : outcome (Z * list Z) :=
  match FIO_createCResources dict with
  | inl code => Exit code world0
  | inr ress =>
    match compress_file_with values ress e srcSize cLevel with
    | Return (result, written, ctx) w =>
      match FIO_freeCResources ctx with
      | Some code => Exit code w
      | None => Return (result, written) w
      end
    | Exit code w => Exit code w
    | Undefined w => Undefined w
    | OutOfFuel => OutOfFuel
    end
  end.



(** What a report says of the file: the value returned and the bytes of
    the destination. *)
Definition file_of_report (rep : zReport) : Z * list Z :=
  (zr_result rep, zr_written rep).

End BufferedValues.

(** ** The blocks of a frame of the simple format, from its headers *)

Definition is_compressed (t : bType_t) : bool :=
  match t with bt_compressed => true | _ => false end.

(** The types of the blocks of a frame, read from the headers alone: [ip0]
    is the first header byte, [f] what follows it. The list ends at the
    end-of-frame header, or where a header is refused. *)
Fixpoint block_types (fuel : nat) (blockSize ip0 : Z) (f : list Z) : list bType_t :=
  match fuel with
  | O => []
  | S fuel' =>
    match decode_header blockSize ip0 f with
    | H_block bType _ cSize f1 =>
      let '(buf, rest) := fread (cSize + 1) f1 in
      bType :: block_types fuel' blockSize (nth (Z.to_nat cSize) buf 0) rest
    | _ => []
    end
  end.

(** The types of the blocks of a source file that holds one frame. *)
Definition frame_block_types (src : list Z) : list bType_t :=
  let '(header, f) := fread FIO_FRAMEHEADERSIZE src in
  let '(b, f) := fread 1 f in
  block_types (S (length f)) (FIO_blockID_to_blockSize (nth 4 header 0))
    (nth 0 b 0) f.

(** A sample source of three blocks of 1024 bytes at most: one repeated
    byte, bytes that the sample coder leaves raw, and a short run of pairs
    that it packs. *)
Definition sample_source : list Z :=
  repeat 97 1024 ++ map (fun i => Z.of_nat i mod 251) (seq 0 1024)
  ++ [1; 2; 1; 2; 1; 2].

(** ** Sample file systems *)

(** The answer at the prompt of [get_fileHandle] is a yes. *)
Definition answers_yes (e : env) : Prop :=
  fst (getchar (e_keys e)) = 89 \/ fst (getchar (e_keys e)) = 121.

(** A destination that exists already, and the keys typed at the prompt. *)
Definition existing_destination (keys : list Z) : env :=
  {| e_input := path "in"; e_output := path "out"; e_source := Some [1; 2; 3];
     e_stdin := []; e_dst_exists := true; e_dst_writable := true;
     g_overwrite := false; g_displayLevel := 2; e_keys := keys |}.

(** A source that cannot be opened. *)
Definition missing_source : env :=
  {| e_input := path "in"; e_output := path "out"; e_source := None;
     e_stdin := []; e_dst_exists := false; e_dst_writable := true;
     g_overwrite := false; g_displayLevel := 2; e_keys := [] |}.

(** Standard input sent to a destination that exists already. *)
Definition piped_to_existing : env :=
  {| e_input := stdinmark; e_output := path "out"; e_source := None;
     e_stdin := [1; 2; 3]; e_dst_exists := true; e_dst_writable := true;
     g_overwrite := false; g_displayLevel := 2; e_keys := [121; 10] |}.


(** A frame for the sample buffered coder: four bytes of magic number, a
    payload of two bytes, the end of the frame. *)
Definition sample_frame : list Z := [9; 9; 9; 9; 2; 5; 6; 0].


(** The frame that the simple format makes of [sample_source] with the
    sample collaborators, blocks of 1024 bytes and no secret. *)
Definition sample_encoded : list Z :=
  match FIO_compressFilename (C := plain) (sample_file sample_source) FIO_fse 0
          None with
  | Return _ w => w_written w
  | _ => []
  end.

(** ** Proof tools *)

(** Case analysis on every test and every call that decides which way a
    turn of a loop goes. *)
Ltac split_turn :=
  repeat match goal with
         | |- context [match ?x with _ => _ end] =>
           lazymatch x with
           | context [match _ with _ => _ end] => fail
           | _ => destruct x
           end
         end.

(** Turn the boolean tests in the context into facts for [lia]. *)
Ltac tests_to_facts :=
  repeat match goal with
         | E : (_ =? _) = true |- _ => apply Z.eqb_eq in E
         | E : (_ =? _) = false |- _ => apply Z.eqb_neq in E
         | E : (_ <? _) = true |- _ => apply Z.ltb_lt in E
         | E : (_ <? _) = false |- _ => apply Z.ltb_ge in E
         | E : negb _ = false |- _ => apply negb_false_iff in E
         | E : negb _ = true |- _ => apply negb_true_iff in E
         end.

(** * Properties *)

(** ** Bytes and sizes *)

Lemma be16_join (n : Z) :
  0 <= n < 65536 -> Z.shiftl (BYTE (Z.shiftr n 8)) 8 + BYTE n = n.
Proof.
  intros Hn. unfold BYTE.
  rewrite Z.shiftr_div_pow2, Z.shiftl_mul_pow2 by lia.
  change (2 ^ 8) with 256.
  assert (0 <= n / 256 < 256).
  { split; [apply Z.div_pos; lia | apply Z.div_lt_upper_bound; lia]. }
  rewrite (Z.mod_small (n / 256)) by lia.
  pose proof (Z.div_mod n 256). lia.
Qed.

Lemma blockSize_cases (id : Z) :
  0 <= id <= FIO_maxBlockSizeID ->
  In (FIO_blockID_to_blockSize id) [1024; 2048; 4096; 8192; 16384; 32768; 65536].
Proof.
  unfold FIO_maxBlockSizeID. intros H.
  assert (id = 0 \/ id = 1 \/ id = 2 \/ id = 3 \/ id = 4 \/ id = 5 \/ id = 6)
    as Hid by lia.
  repeat (destruct Hid as [-> | Hid]; [vm_compute; tauto | ]).
  subst id. vm_compute; tauto.
Qed.

Lemma blockSize_bounds (id : Z) :
  0 <= id <= FIO_maxBlockSizeID -> 1024 <= FIO_blockID_to_blockSize id <= 65536.
Proof.
  intros H. pose proof (blockSize_cases id H) as Hc. simpl in Hc.
  repeat (destruct Hc as [<- | Hc]; [lia | ]). contradiction.
Qed.

Lemma nominal_bounds (n : Z) : nominal_size n -> 1024 <= n <= 65536.
Proof. intros (id & Hid & ->). now apply blockSize_bounds. Qed.

Lemma zlen_nonneg (l : list Z) : 0 <= zlen l.
Proof. unfold zlen. lia. Qed.

Lemma zlen_app (a b : list Z) : zlen (a ++ b) = zlen a + zlen b.
Proof. unfold zlen. rewrite length_app. lia. Qed.

(** ** What the decoder reads in each of the six header shapes *)

Lemma decode_header_full_raw bs f :
  decode_header bs 96 f = H_block bt_raw bs bs f.
Proof. reflexivity. Qed.

Lemma decode_header_full_rle bs f :
  decode_header bs 160 f = H_block bt_rle bs 1 f.
Proof. reflexivity. Qed.

Lemma decode_header_full_compressed bs hi lo f :
  decode_header bs 32 (hi :: lo :: f)
  = H_block bt_compressed bs (Z.shiftl hi 8 + lo) f.
Proof. reflexivity. Qed.

Lemma decode_header_short_raw bs hi lo f :
  decode_header bs 64 (hi :: lo :: f)
  = H_block bt_raw (Z.shiftl hi 8 + lo) (Z.shiftl hi 8 + lo) f.
Proof. reflexivity. Qed.

Lemma decode_header_short_rle bs hi lo f :
  decode_header bs 128 (hi :: lo :: f)
  = H_block bt_rle (Z.shiftl hi 8 + lo) 1 f.
Proof. reflexivity. Qed.

Lemma decode_header_short_compressed bs h1 l1 h2 l2 f :
  decode_header bs 0 (h1 :: l1 :: h2 :: l2 :: f)
  = H_block bt_compressed (Z.shiftl h1 8 + l1) (Z.shiftl h2 8 + l2) f.
Proof. reflexivity. Qed.

Lemma decodeHeader_cons nominal ip0 f :
  decodeHeader nominal (ip0 :: f)
  = match decode_header nominal ip0 f with
    | H_block t rSize cSize rest =>
      Some ({| bd_type := t;
               bd_full := negb (Z.land ip0 BIT5 =? 0);
               bd_rSize := rSize;
               bd_cSize := match t with bt_compressed => Some cSize | _ => None end |},
            rest)
    | _ => None
    end.
Proof. reflexivity. Qed.

(** ** The header the encoder writes in each case *)

Lemma block_header_raw bs n :
  block_header bs n 0
  = if n =? bs then [96] else [64; BYTE (Z.shiftr n 8); BYTE n].
Proof. reflexivity. Qed.

Lemma block_header_rle bs n :
  block_header bs n 1
  = if n =? bs then [160] else [64; BYTE (Z.shiftr n 8); BYTE n].
Proof. reflexivity. Qed.

Lemma block_header_compressed bs n c :
  1 < c ->
  block_header bs n c
  = if n =? bs then [32; BYTE (Z.shiftr c 8); BYTE c]
    else [0; BYTE (Z.shiftr n 8); BYTE n; BYTE (Z.shiftr c 8); BYTE c].
Proof.
  intros Hc. unfold block_header.
  destruct (c =? 0) eqn:E0; [apply Z.eqb_eq in E0; lia | ].
  destruct (c =? 1) eqn:E1; [apply Z.eqb_eq in E1; lia | ].
  reflexivity.
Qed.

(** Header encoding gives 1, 3 or 5 bytes, whatever the block. *)
Lemma block_header_length bs n c :
  In (length (block_header bs n c)) [1; 3; 5]%nat.
Proof.
  unfold block_header.
  destruct (c =? 0), (c =? 1), (n =? bs); simpl; tauto.
Qed.

(** On every valid description but that of a short rle block, the decoder
    reads back what the encoder was given. *)
Lemma header_roundtrip_but_short_rle nominal x tail :
  nominal_size nominal -> valid_desc nominal x ->
  (bd_type x = bt_rle -> bd_full x = true) ->
  decodeHeader nominal (encodeHeader nominal x ++ tail) = Some (x, tail).
Proof.
  intros Hn (Hr & Hfull & Ht) Hrle.
  apply nominal_bounds in Hn.
  destruct x as [t full r c]; simpl in *.
  unfold encodeHeader, bd_code; simpl.
  destruct t; simpl in *.
  - destruct Ht as (cs & -> & Hcs).
    rewrite block_header_compressed by lia.
    destruct (r =? nominal) eqn:E.
    + apply Z.eqb_eq in E. subst r.
      assert (full = true) as -> by (apply Hfull; reflexivity).
      cbn [app]. rewrite decodeHeader_cons.
      rewrite decode_header_full_compressed, be16_join by lia. reflexivity.
    + apply Z.eqb_neq in E.
      assert (full = false) as ->.
      { destruct full; [ | reflexivity]. exfalso. apply E, Hfull. reflexivity. }
      cbn [app]. rewrite decodeHeader_cons.
      rewrite decode_header_short_compressed, !be16_join by lia. reflexivity.
  - subst c. rewrite block_header_raw.
    destruct (r =? nominal) eqn:E.
    + apply Z.eqb_eq in E. subst r.
      assert (full = true) as -> by (apply Hfull; reflexivity).
      reflexivity.
    + apply Z.eqb_neq in E.
      assert (full = false) as ->.
      { destruct full; [ | reflexivity]. exfalso. apply E, Hfull. reflexivity. }
      cbn [app]. rewrite decodeHeader_cons.
      rewrite decode_header_short_raw, be16_join by lia. reflexivity.
  - subst c. rewrite block_header_rle.
    rewrite (Hrle eq_refl) in *.
    assert (r = nominal) as -> by (apply Hfull; reflexivity).
    rewrite Z.eqb_refl. reflexivity.
  - contradiction.
Qed.

(** C3 (code at the failing input). A valid description of an rle block
    shorter than the nominal size is encoded with the raw tag; decoding
    its header gives a raw block of the same size, not the description
    that was encoded. *)
Theorem short_rle_header_decodes_as_raw nominal x tail :
  nominal_size nominal -> valid_desc nominal x ->
  bd_type x = bt_rle -> bd_full x = false ->
  encodeHeader nominal x
    = [64; BYTE (Z.shiftr (bd_rSize x) 8); BYTE (bd_rSize x)] /\
  decodeHeader nominal (encodeHeader nominal x ++ tail)
    = Some ({| bd_type := bt_raw; bd_full := false;
               bd_rSize := bd_rSize x; bd_cSize := None |}, tail) /\
  decodeHeader nominal (encodeHeader nominal x ++ tail) <> Some (x, tail).
Proof.
  intros Hn (Hr & Hfull & Ht) Hrle Hshort.
  apply nominal_bounds in Hn.
  destruct x as [t full r c]; simpl in *. subst t full.
  assert (r <> nominal) as Hne.
  { intros E. apply Hfull in E. discriminate. }
  unfold encodeHeader, bd_code; simpl.
  rewrite block_header_rle.
  destruct (r =? nominal) eqn:E; [apply Z.eqb_eq in E; contradiction | ].
  assert (decodeHeader nominal
            ([64; BYTE (Z.shiftr r 8); BYTE r] ++ tail)
          = Some ({| bd_type := bt_raw; bd_full := false;
                     bd_rSize := r; bd_cSize := None |}, tail)) as Hd.
  { cbn [app]. rewrite decodeHeader_cons.
    rewrite decode_header_short_raw, be16_join by lia. reflexivity. }
  repeat split; [exact Hd | ].
  rewrite Hd. intros Heq. discriminate Heq.
Qed.

Lemma short_rle_header_decodes_as_raw_witness :
  let x := {| bd_type := bt_rle; bd_full := false; bd_rSize := 4;
              bd_cSize := None |} in
  encodeHeader 1024 x = [64; 0; 4] /\
  decodeHeader 1024 (encodeHeader 1024 x ++ [97])
    = Some ({| bd_type := bt_raw; bd_full := false;
               bd_rSize := 4; bd_cSize := None |}, [97]) /\
  decodeHeader 1024 (encodeHeader 1024 x ++ [97]) <> Some (x, [97]).
Proof.
  intro x.
  apply (short_rle_header_decodes_as_raw 1024 x [97]).
  - exists 0. split; [unfold FIO_maxBlockSizeID; lia | reflexivity].
  - unfold valid_desc, x; simpl. repeat split; try lia; intros H; discriminate H.
  - reflexivity.
  - reflexivity.
Defined.

(** ** Reading and the cipher pass *)

Lemma fread_all n f : zlen f <= n -> fread n f = (f, []).
Proof.
  unfold zlen, fread. intros H.
  rewrite firstn_all2, skipn_all2 by lia. reflexivity.
Qed.

Lemma fread_app_exact n a b : zlen a = n -> fread n (a ++ b) = (a, b).
Proof.
  unfold zlen, fread. intros <-. rewrite Nat2Z.id.
  rewrite firstn_app, skipn_app, Nat.sub_diag, firstn_all, skipn_all.
  simpl. now rewrite app_nil_r.
Qed.

Lemma fread_nil n : fread n [] = ([], []).
Proof. unfold fread. now rewrite firstn_nil, skipn_nil. Qed.

Lemma fread_app n f : fst (fread n f) ++ snd (fread n f) = f.
Proof. unfold fread. simpl. apply firstn_skipn. Qed.

Lemma fread_length n f : 0 <= n -> zlen (fst (fread n f)) = Z.min n (zlen f).
Proof.
  unfold fread, zlen. simpl. intros H. rewrite length_firstn. lia.
Qed.

Lemma xor_stream_length ks i mlen message :
  length (xor_stream ks i mlen message) = length message.
Proof.
  revert i message. induction mlen as [ | mlen IH]; intros i [ | b message];
    simpl; try reflexivity.
  now rewrite IH.
Qed.

Lemma salsa20_length ks mlen message :
  zlen (salsa20 ks mlen message) = zlen message.
Proof. unfold zlen, salsa20. now rewrite xor_stream_length. Qed.

(** A keystream of zeros leaves the buffer as it is. *)
Lemma xor_stream_zero ks i mlen message :
  (forall j, ks j = 0) -> xor_stream ks i mlen message = message.
Proof.
  intros Hks. revert i message.
  induction mlen as [ | mlen IH]; intros i [ | b message]; simpl; try reflexivity.
  now rewrite Hks, Z.lxor_0_r, IH.
Qed.

Lemma lxor_changes b k : k <> 0 -> Z.lxor b k <> b.
Proof.
  intros Hk E. apply Hk.
  assert (Z.lxor b (Z.lxor b k) = Z.lxor b b) as H by (f_equal; exact E).
  rewrite <- Z.lxor_assoc, Z.lxor_nilpotent, Z.lxor_0_l in H. exact H.
Qed.

Lemma get_fileHandle_sample src :
  get_fileHandle (sample_file src) world0 = Return src both_open.
Proof. reflexivity. Qed.

(** ** Simple format: one block *)

Section SimpleBlocks.
Context {C : Collaborators}.

(** What [compress_block] does when the compressor answers [cSize]. *)
Lemma compress_block_eq compressor inputBlockSize password blk st scrambler cSize dst :
  scrambler_func password (c_index st) = Some scrambler ->
  compressor (FSE_compressBound inputBlockSize) (salsa20 salsa_local PTR blk)
    scrambler = (cSize, dst) ->
  FSE_isError cSize = false ->
  let bytes := write_cBlock inputBlockSize (salsa20 salsa_local PTR blk) dst cSize in
  compress_block compressor inputBlockSize password blk st
  = Return {| c_world := fwrite bytes (c_world st);
              c_index := to_unsigned (c_index st + 1);
              c_filesize := c_filesize st + zlen blk;
              c_compressedfilesize :=
                c_compressedfilesize st + cBlock_size inputBlockSize (zlen blk) cSize;
              c_fed := c_fed st ++ salsa20 salsa_local PTR blk;
              c_trace := c_trace st ++ [c_index st] |}
           (fwrite bytes (c_world st)).
Proof.
  intros Hs Hc He. unfold compress_block. rewrite Hs, Hc, He. reflexivity.
Qed.

(** A full block on which the compressor answers 1 is framed as rle. *)
Lemma rle_sentinel_full_block compressor inputBlockSize password blk st scrambler dst :
  scrambler_func password (c_index st) = Some scrambler ->
  compressor (FSE_compressBound inputBlockSize) (salsa20 salsa_local PTR blk)
    scrambler = (1, dst) ->
  FSE_isError 1 = false ->
  zlen blk = inputBlockSize ->
  exists st',
    compress_block compressor inputBlockSize password blk st
      = Return st' (c_world st') /\
    w_written (c_world st')
      = w_written (c_world st) ++ [160; nth 0 (salsa20 salsa_local PTR blk) 0] /\
    decode_header inputBlockSize 160 [] = H_block bt_rle inputBlockSize 1 [].
Proof.
  intros Hs Hc He Hn.
  pose proof (compress_block_eq _ _ _ _ _ _ _ _ Hs Hc He) as H. cbv zeta in H.
  match type of H with _ = Return ?s _ => exists s end.
  split; [exact H | ].
  split; [ | reflexivity]. simpl.
  unfold write_cBlock. simpl. rewrite block_header_rle, salsa20_length, Hn, Z.eqb_refl.
  reflexivity.
Qed.

(** C2 (code at the failing input). When the compressor answers 1 on a
    block shorter than the nominal size, the turn of the encode loop
    succeeds and writes a three-byte header whose tag bits are 01 (raw),
    not 10 (rle), followed by the one payload byte. *)
Theorem rle_sentinel_short_block_tagged_raw
    compressor inputBlockSize password blk st scrambler dst :
  scrambler_func password (c_index st) = Some scrambler ->
  compressor (FSE_compressBound inputBlockSize) (salsa20 salsa_local PTR blk)
    scrambler = (1, dst) ->
  FSE_isError 1 = false ->
  zlen blk <> inputBlockSize ->
  exists st',
    compress_block compressor inputBlockSize password blk st
      = Return st' (c_world st') /\
    w_written (c_world st')
      = w_written (c_world st)
        ++ [64; BYTE (Z.shiftr (zlen blk) 8); BYTE (zlen blk);
            nth 0 (salsa20 salsa_local PTR blk) 0] /\
    bType_of (Z.shiftr (Z.land 64 (BIT7 + BIT6)) 6) = bt_raw /\
    bt bt_raw <> bt bt_rle.
Proof.
  intros Hs Hc He Hn.
  pose proof (compress_block_eq _ _ _ _ _ _ _ _ Hs Hc He) as H. cbv zeta in H.
  match type of H with _ = Return ?s _ => exists s end.
  split; [exact H | ].
  split; [ | split; [reflexivity | discriminate]]. simpl.
  unfold write_cBlock. simpl. rewrite block_header_rle, salsa20_length.
  destruct (zlen blk =? inputBlockSize) eqn:E;
    [apply Z.eqb_eq in E; contradiction | reflexivity].
Qed.

End SimpleBlocks.

Lemma rle_sentinel_short_block_tagged_raw_witness :
  exists st',
    compress_block (C := plain) (@FSE_compress plain) 1024 None [97; 97; 97; 97] cState0
      = Return st' (c_world st') /\
    w_written (c_world st') = [] ++ [64; 0; 4; 97] /\
    bType_of (Z.shiftr (Z.land 64 (BIT7 + BIT6)) 6) = bt_raw /\
    bt bt_raw <> bt bt_rle.
Proof.
  apply (rle_sentinel_short_block_tagged_raw (C := plain)
           (@FSE_compress plain) 1024 None [97; 97; 97; 97] cState0 0 []).
  - reflexivity.
  - reflexivity.
  - reflexivity.
  - vm_compute. discriminate.
Defined.

(** ** Simple format: whole files *)

Section SimpleFiles.
Context {C : Collaborators}.

Lemma compress_loop_S fuel compressor bs pw f st :
  compress_loop (S fuel) compressor bs pw f st
  = let '(blk, rest) := fread bs f in
    if zlen blk =? 0 then Return st (c_world st)
    else match compress_block compressor bs pw blk st with
         | Return st' _ => compress_loop fuel compressor bs pw rest st'
         | other => other
         end.
Proof. reflexivity. Qed.

(** A source that fits in one block takes two turns: the block, then the
    read that obtains nothing. *)
Lemma compress_loop_one fuel compressor bs pw blk st st' w' :
  0 < zlen blk <= bs ->
  compress_block compressor bs pw blk st = Return st' w' ->
  compress_loop (S (S fuel)) compressor bs pw blk st = Return st' (c_world st').
Proof.
  intros Hlen Hblk.
  rewrite compress_loop_S, fread_all by lia.
  destruct (zlen blk =? 0) eqn:E; [apply Z.eqb_eq in E; lia | ].
  rewrite Hblk, compress_loop_S, fread_nil. reflexivity.
Qed.

Lemma decompress_loop_S fuel decompressor bs pw ip0 f st :
  decompress_loop (S fuel) decompressor bs pw ip0 f st
  = match decompress_block decompressor bs pw ip0 f st with
    | T_break => Return (st, f) (d_world st)
    | T_next ip0' rest st' => decompress_loop fuel decompressor bs pw ip0' rest st'
    | T_exit code w => Exit code w
    | T_undefined w => Undefined w
    end.
Proof. reflexivity. Qed.

Lemma readLE32_magic c :
  FIO_readLE32 (FIO_writeLE32 (snd (select_compressor c)))
  = snd (select_compressor c).
Proof. destruct c; reflexivity. Qed.

Lemma select_decompressor_magic c :
  exists d, select_decompressor (snd (select_compressor c)) = Some d.
Proof. destruct c; eexists; reflexivity. Qed.

(** A frame whose first block has a raw header for [n] bytes, [n >= 4],
    and only four bytes after it: the decoder stops on the read error 38
    and has written nothing. *)
Lemma decode_starved_raw_block magic decompressor id n b c0 c1 c2 pw :
  FIO_readLE32 (FIO_writeLE32 magic) = magic ->
  select_decompressor magic = Some decompressor ->
  0 <= id <= FIO_maxBlockSizeID ->
  4 <= n < 65536 ->
  FIO_decompressFilename
    (sample_file (FIO_writeLE32 magic
                  ++ [id] ++ [64; BYTE (Z.shiftr n 8); BYTE n; b] ++ [c0; c1; c2])) pw
  = Exit 38 starved.
Proof.
  intros Hm Hd Hid Hn.
  pose proof (blockSize_bounds id Hid) as Hbs.
  unfold FIO_decompressFilename. rewrite get_fileHandle_sample.
  rewrite app_assoc, (fread_app_exact FIO_FRAMEHEADERSIZE) by reflexivity.
  change (zlen (FIO_writeLE32 magic ++ [id]) =? FIO_FRAMEHEADERSIZE) with true.
  change (FIO_readLE32 (FIO_writeLE32 magic ++ [id]))
    with (FIO_readLE32 (FIO_writeLE32 magic)).
  rewrite Hm, Hd.
  change (nth 4 (FIO_writeLE32 magic ++ [id]) 0) with id.
  destruct (FIO_maxBlockSizeID <? id) eqn:E; [apply Z.ltb_lt in E; lia | ].
  cbn [app negb].
  change (fread 1 (64 :: ?r)) with ([64], r).
  change (zlen [64] =? 1) with true. cbn [negb nth].
  rewrite decompress_loop_S.
  unfold decompress_block.
  rewrite decode_header_short_raw, be16_join by lia.
  rewrite fread_all by (change (zlen [b; c0; c1; c2]) with 4; lia).
  change (zlen [b; c0; c1; c2]) with 4.
  destruct (FIO_blockID_to_blockSize id + FIO_maxBlockHeaderSize <? 4) eqn:E1;
    [apply Z.ltb_lt in E1; unfold FIO_maxBlockHeaderSize in E1; lia | ].
  destruct (4 =? n + 1) eqn:E2; [apply Z.eqb_eq in E2; lia | ].
  reflexivity.
Qed.

(** The frame written for a source of one short block on which the
    compressor answers 1. *)
Lemma compress_short_rle_file c id blk :
  0 <= id <= FIO_maxBlockSizeID ->
  0 < zlen blk < FIO_blockID_to_blockSize id ->
  fst (fst (select_compressor c)
         (FSE_compressBound (FIO_blockID_to_blockSize id))
         (salsa20 salsa_local PTR blk) 0) = 1 ->
  FSE_isError 1 = false ->
  exists rep w,
    FIO_compressFilename (sample_file blk) c id None = Return rep w /\
    w_written w
    = FIO_writeLE32 (snd (select_compressor c))
      ++ [id]
      ++ [64; BYTE (Z.shiftr (zlen blk) 8); BYTE (zlen blk);
          nth 0 (salsa20 salsa_local PTR blk) 0]
      ++ checksum_block (XXH32 FSE_CHECKSUM_SEED (salsa20 salsa_local PTR blk)).
Proof.
  intros Hid Hlen Hc He.
  pose proof (blockSize_bounds id Hid) as Hbs.
  unfold FIO_compressFilename. rewrite get_fileHandle_sample.
  destruct (select_compressor c) as [compressor magic]. simpl fst in Hc. simpl snd.
  destruct (FIO_blockID_to_blockSize id =? 0) eqn:E; [apply Z.eqb_eq in E; lia | ].
  destruct (compressor (FSE_compressBound (FIO_blockID_to_blockSize id))
              (salsa20 salsa_local PTR blk) 0) as [cSize dst] eqn:Hcall.
  simpl in Hc. subst cSize.
  match goal with
  | |- context [compress_loop _ _ _ _ _ ?st] =>
    pose proof (compress_block_eq compressor (FIO_blockID_to_blockSize id)
                  None blk st 0 1 dst eq_refl Hcall He) as Hblk
  end.
  cbv zeta in Hblk.
  destruct blk as [ | b0 blk]; [unfold zlen in Hlen; simpl in Hlen; lia | ].
  cbn [length].
  erewrite compress_loop_one by (try exact Hblk; lia).
  do 2 eexists. split; [reflexivity | ].
  cbn [w_written fclose free_all fwrite malloc both_open c_world c_fed app].
  unfold write_cBlock. rewrite salsa20_length.
  change (1 =? 0) with false. change (1 =? 1) with true. cbv iota.
  rewrite block_header_rle.
  destruct (zlen (b0 :: blk) =? FIO_blockID_to_blockSize id) eqn:E1;
    [apply Z.eqb_eq in E1; lia | ].
  unfold BYTE at 1. rewrite (Z.mod_small id) by (unfold FIO_maxBlockSizeID in Hid; lia).
  rewrite <- !app_assoc. reflexivity.
Qed.

(** C1 (code at the failing input). A source of 4 bytes or more, shorter
    than the nominal block size, on which the compressor answers 1 (one
    repeated byte): the frame is written without error, and decoding that
    frame stops on the read error 38 with nothing written. *)
Theorem short_rle_block_breaks_roundtrip c id blk :
  0 <= id <= FIO_maxBlockSizeID ->
  4 <= zlen blk < FIO_blockID_to_blockSize id ->
  fst (fst (select_compressor c)
         (FSE_compressBound (FIO_blockID_to_blockSize id))
         (salsa20 salsa_local PTR blk) 0) = 1 ->
  FSE_isError 1 = false ->
  exists rep w,
    FIO_compressFilename (sample_file blk) c id None = Return rep w /\
    FIO_decompressFilename (sample_file (w_written w)) None = Exit 38 starved.
Proof.
  intros Hid Hlen Hc He.
  destruct (compress_short_rle_file c id blk Hid ltac:(lia) Hc He)
    as (rep & w & Henc & Hw).
  exists rep, w. split; [exact Henc | ].
  rewrite Hw.
  destruct (select_decompressor_magic c) as [d Hd].
  pose proof (blockSize_bounds id Hid) as Hbs.
  unfold checksum_block.
  apply decode_starved_raw_block with (decompressor := d);
    [apply readLE32_magic | exact Hd | exact Hid | lia].
Qed.

End SimpleFiles.

Lemma short_rle_block_breaks_roundtrip_witness :
  exists rep w,
    FIO_compressFilename (C := plain) (sample_file [97; 97; 97; 97]) FIO_fse 0 None
      = Return rep w /\
    FIO_decompressFilename (C := plain) (sample_file (w_written w)) None
      = Exit 38 starved.
Proof.
  apply (short_rle_block_breaks_roundtrip (C := plain) FIO_fse 0 [97; 97; 97; 97]).
  - unfold FIO_maxBlockSizeID. lia.
  - change (zlen [97; 97; 97; 97]) with 4.
    change (FIO_blockID_to_blockSize 0) with 1024. lia.
  - reflexivity.
  - reflexivity.
Defined.

(** ** Simple format: what the decoder checks *)

Section SimpleChecks.
Context {C : Collaborators}.

(** When [get_fileHandle] returns, both files are open and nothing else
    has happened. *)
Lemma get_fileHandle_returns e src w :
  get_fileHandle e world0 = Return src w -> w = both_open.
Proof.
  unfold get_fileHandle. split_turn; simpl; split_turn;
    intros H; inversion H; reflexivity.
Qed.

(** C7 (as amended). A source of five bytes or more whose magic number is
    none of the three known ones: the decoder ends the process with code
    31; nothing was written to the destination, no buffer was obtained yet,
    and the two files it opened are still open: no [fclose] is executed on
    this path. *)
Theorem unknown_magic_exits_with_files_open e password src w0 :
  get_fileHandle e world0 = Return src w0 ->
  FIO_FRAMEHEADERSIZE <= zlen src ->
  select_decompressor (FIO_readLE32 (fst (fread FIO_FRAMEHEADERSIZE src))) = None ->
  FIO_decompressFilename e password = Exit 31 w0 /\
  w_written w0 = [] /\ w_heap w0 = [] /\ w_open w0 = [foutput; finput].
Proof.
  intros Hget Hlen Hmagic.
  pose proof (get_fileHandle_returns _ _ _ Hget) as ->.
  split; [ | repeat split].
  unfold FIO_decompressFilename. rewrite Hget.
  pose proof (fread_length FIO_FRAMEHEADERSIZE src) as Hl.
  destruct (fread FIO_FRAMEHEADERSIZE src) as [header f]. simpl in *.
  rewrite Hl, Z.min_l by (unfold FIO_FRAMEHEADERSIZE in *; lia).
  rewrite Z.eqb_refl, Hmagic. reflexivity.
Qed.

(** A turn of the decode loop ends the process only on a short read (35,
    36, 38) or on an error of the decompressor (39), and then it has
    written nothing. *)
Lemma decompress_block_exits decompressor blockSize password ip0 f st code w :
  decompress_block decompressor blockSize password ip0 f st = T_exit code w ->
  In code [35; 36; 38; 39] /\ w = d_world st.
Proof.
  unfold decompress_block, decode_header.
  destruct (bType_of (Z.shiftr (Z.land ip0 (BIT7 + BIT6)) 6)) eqn:Et;
    try discriminate; split_turn;
    intros H; inversion H; subst; simpl; tauto.
Qed.

(** The turn of the decode loop on a raw block with a size field, when the
    payload and the next header byte are in the source and fit the input
    buffer: the payload is written as it is. *)
Lemma raw_block_turn decompressor blockSize password st hi lo payload ip1 rest :
  Z.shiftl hi 8 + lo <= blockSize + 4 ->
  zlen payload = Z.shiftl hi 8 + lo ->
  decompress_block decompressor blockSize password 64
    (hi :: lo :: payload ++ ip1 :: rest) st
  = T_next ip1 rest
      (d_emit payload (Z.shiftl hi 8 + lo) (d_seek (Z.shiftl hi 8 + lo) st)).
Proof.
  intros Hsize Hlen.
  unfold decompress_block. rewrite decode_header_short_raw.
  set (rSize := Z.shiftl hi 8 + lo) in *.
  assert (payload ++ ip1 :: rest = (payload ++ [ip1]) ++ rest) as ->
      by (rewrite <- app_assoc; reflexivity).
  rewrite fread_app_exact by (rewrite zlen_app; change (zlen [ip1]) with 1; lia).
  rewrite zlen_app. change (zlen [ip1]) with 1. rewrite Hlen.
  destruct (blockSize + FIO_maxBlockHeaderSize <? rSize + 1) eqn:E;
    [apply Z.ltb_lt in E; unfold FIO_maxBlockHeaderSize in E; lia | ].
  rewrite Z.eqb_refl. cbn [negb].
  assert (Z.to_nat rSize = length payload) as -> by (unfold zlen in Hlen; lia).
  rewrite nth_middle, firstn_app, Nat.sub_diag, firstn_all.
  cbn [firstn]. rewrite app_nil_r. reflexivity.
Qed.

End SimpleChecks.

Lemma unknown_magic_exits_with_files_open_witness :
  FIO_decompressFilename (C := plain) (sample_file [1; 2; 3; 4; 0; 192; 0; 0]) None
    = Exit 31 both_open /\
  w_written both_open = [] /\ w_heap both_open = [] /\
  w_open both_open = [foutput; finput].
Proof.
  apply (unknown_magic_exits_with_files_open (C := plain)
           (sample_file [1; 2; 3; 4; 0; 192; 0; 0]) None
           [1; 2; 3; 4; 0; 192; 0; 0] both_open).
  - reflexivity.
  - vm_compute. discriminate.
  - reflexivity.
Defined.

(** C7 (counterexample). On an unknown magic number the process ends with
    code 31 while both files are open: the outcome is not one in which the
    handles have been closed. *)
Lemma unknown_magic_handles_not_closed :
  FIO_decompressFilename (C := plain) (sample_file [1; 2; 3; 4; 0; 192; 0; 0]) None
    = Exit 31 both_open /\
  ~ (exists w,
        FIO_decompressFilename (C := plain)
          (sample_file [1; 2; 3; 4; 0; 192; 0; 0]) None = Exit 31 w /\
        w_written w = [] /\ w_open w = []).
Proof.
  split; [reflexivity | ].
  intros (w & H & _ & Hopen).
  change (Exit (A := dReport) 31 both_open = Exit 31 w) in H.
  inversion H; subst w. discriminate Hopen.
Qed.


(** ** Keystream selector *)

Section Selector.
Context {C : Collaborators}.

(** With no secret the selector is the constant zero. *)
Lemma scrambler_func_no_secret index : scrambler_func None index = Some 0.
Proof. reflexivity. Qed.

Lemma compress_block_index compressor bs password blk st st' w :
  compress_block compressor bs password blk st = Return st' w ->
  c_index st' = to_unsigned (c_index st + 1) /\
  c_trace st' = c_trace st ++ [c_index st].
Proof.
  unfold compress_block.
  destruct (scrambler_func password (c_index st)); [ | discriminate].
  destruct (compressor _ _ _) as [cSize dst].
  destruct (FSE_isError cSize); [discriminate | ].
  intros H; inversion H; subst; simpl. split; reflexivity.
Qed.

(** C5 (code at the failing input). Every turn of the encode loop gives
    its index to the scrambler and moves to the next one, whatever block is
    written. A turn of the decode loop does so on a compressed block only:
    on a raw or rle block the index stays where it was. With no secret the
    scrambler value is zero. *)
Theorem decoder_skips_index_on_raw_and_rle
    compressor decompressor bs password blk cst cst' cw ip0 f dst ip1 rest dst' :
  compress_block compressor bs password blk cst = Return cst' cw ->
  decompress_block decompressor bs password ip0 f dst = T_next ip1 rest dst' ->
  bType_of (Z.shiftr (Z.land ip0 (BIT7 + BIT6)) 6) <> bt_compressed ->
  (c_index cst' = to_unsigned (c_index cst + 1) /\
   c_trace cst' = c_trace cst ++ [c_index cst]) /\
  (d_index dst' = d_index dst /\ d_trace dst' = d_trace dst) /\
  (forall index, scrambler_func None index = Some 0).
Proof.
  intros Henc Hdec Ht.
  split; [eapply compress_block_index; eassumption | ].
  split; [ | intros; reflexivity].
  revert Hdec. unfold decompress_block, decode_header.
  destruct (bType_of (Z.shiftr (Z.land ip0 (BIT7 + BIT6)) 6)) eqn:Et;
    try discriminate; try contradiction; split_turn;
    intros H; inversion H; subst; simpl; split; reflexivity.
Qed.

(** On a compressed block the decoder does use its index. *)
Lemma decoder_uses_index_on_compressed
    decompressor bs password ip0 f st ip1 rest st' :
  decompress_block decompressor bs password ip0 f st = T_next ip1 rest st' ->
  bType_of (Z.shiftr (Z.land ip0 (BIT7 + BIT6)) 6) = bt_compressed ->
  d_index st' = to_unsigned (d_index st + 1) /\
  d_trace st' = d_trace st ++ [d_index st].
Proof.
  intros Hdec Ht. revert Hdec. unfold decompress_block, decode_header.
  rewrite Ht. split_turn;
    intros H; inversion H; subst; simpl; split; reflexivity.
Qed.

End Selector.


Lemma strlen_nonneg s : 0 <= strlen s.
Proof.
  induction s as [ | c s IH]; cbn [strlen]; [lia | ].
  destruct (char_value c =? 0); lia.
Qed.


Section SelectorTotality.
Context {C : Collaborators}.


End SelectorTotality.

Lemma decoder_skips_index_on_raw_and_rle_witness :
  (c_index (compress_block_result [1; 2; 3]) = to_unsigned (c_index cState0 + 1) /\
   c_trace (compress_block_result [1; 2; 3]) = c_trace cState0 ++ [c_index cState0]) /\
  (d_index (d_emit [1; 2; 3] 3 dState0) = d_index dState0 /\
   d_trace (d_emit [1; 2; 3] 3 dState0) = d_trace dState0) /\
  (forall index, scrambler_func (C := plain) None index = Some 0).
Proof.
  apply (decoder_skips_index_on_raw_and_rle (C := plain)
           (@FSE_compress plain) (@FSE_decompress plain) 1024 None
           [1; 2; 3] cState0 (compress_block_result [1; 2; 3])
           (c_world (compress_block_result [1; 2; 3]))
           64 [0; 3; 1; 2; 3; 192; 0; 0] dState0 192 [0; 0]
           (d_emit [1; 2; 3] 3 (d_seek 3 dState0))).
  - reflexivity.
  - reflexivity.
  - vm_compute. discriminate.
Defined.

(** The same on a whole file, with the sample coder and the secret "key":
    a full block of one repeated byte, then a block that the coder packs.
    The encoder gives the indices 0 and 1 to the scrambler, the packed
    block being coded under index 1; the decoder gives index 0 only, and
    decodes the packed block under it. *)
Example indices_of_a_two_block_file :
  exists rep w rep' w',
    FIO_compressFilename (C := plain)
      (sample_file (repeat 97 1024 ++ [1; 2; 1; 2; 1; 2])) FIO_fse 0
      (Some "key"%string) = Return rep w /\
    r_trace rep = [0; 1] /\
    FIO_decompressFilename (C := plain) (sample_file (w_written w))
      (Some "key"%string) = Return rep' w' /\
    r_dtrace rep' = [0] /\
    scrambler_func (C := plain) (Some "key"%string) 0
      <> scrambler_func (C := plain) (Some "key"%string) 1.
Proof.
  do 4 eexists.
  split; [vm_compute; reflexivity | ].
  split; [reflexivity | ].
  split; [vm_compute; reflexivity | ].
  split; [reflexivity | ].
  vm_compute. discriminate.
Qed.


(** ** Simple format: the checksum *)

Section Checksum.
Context {C : Collaborators}.

Lemma compress_loop_fed fuel compressor bs password f st st' w :
  compress_loop fuel compressor bs password f st = Return st' w ->
  c_fed st' = c_fed st ++ checksummed fuel bs f /\
  exists bytes, w_written w = w_written (c_world st) ++ bytes.
Proof.
  revert f st. induction fuel as [ | fuel IH]; intros f st; [discriminate | ].
  rewrite compress_loop_S. cbn [checksummed].
  destruct (fread bs f) as [blk rest].
  destruct (zlen blk =? 0).
  - intros H; inversion H; subst. rewrite app_nil_r. split; [reflexivity | ].
    exists []. now rewrite app_nil_r.
  - destruct (compress_block compressor bs password blk st) as [st1 w1 | | | ] eqn:Hb;
      try discriminate.
    intros H. apply IH in H. destruct H as (Hfed & bytes & Hw).
    revert Hb. unfold compress_block.
    destruct (scrambler_func password (c_index st)); [ | discriminate].
    destruct (compressor _ _ _) as [cSize dst].
    destruct (FSE_isError cSize); [discriminate | ].
    intros Hb; inversion Hb; subst; simpl in *.
    rewrite Hfed, <- app_assoc. split; [reflexivity | ].
    rewrite Hw, <- app_assoc. eexists. reflexivity.
Qed.

(** With a keystream of zeros, the checksummed bytes are those of the
    source, whatever the block size. *)
Lemma checksummed_plain fuel bs f :
  (forall i, salsa_local i = 0) -> 0 < bs -> (length f < fuel)%nat ->
  checksummed fuel bs f = f.
Proof.
  intros Hks Hbs. revert f.
  induction fuel as [ | fuel IH]; intros f Hfuel; [lia | ].
  cbn [checksummed].
  pose proof (fread_app bs f) as Happ.
  pose proof (fread_length bs f ltac:(lia)) as Hlen.
  destruct (fread bs f) as [blk rest]. simpl in Happ, Hlen.
  destruct (zlen blk =? 0) eqn:E.
  - apply Z.eqb_eq in E.
    assert (zlen f = 0) as Hf by lia.
    destruct f; [reflexivity | unfold zlen in Hf; simpl in Hf; lia].
  - apply Z.eqb_neq in E.
    unfold salsa20. rewrite xor_stream_zero by exact Hks.
    rewrite IH; [exact Happ | ].
    apply (f_equal (@length Z)) in Happ. rewrite length_app in Happ.
    unfold zlen in E. lia.
Qed.

(** The trailer is three bytes: the [bt_crc] tag in the two high bits of
    the first, then the 22 bits [(digest >> 5) & 0x3FFFFF], high byte
    first. *)
Lemma checksum_block_format digest :
  let checksum := Z.land (Z.shiftr digest 5) (Z.shiftl 1 22 - 1) in
  exists b0 b1 b2,
    checksum_block digest = [b0; b1; b2] /\
    Z.shiftr b0 6 = bt bt_crc /\
    Z.shiftl (Z.land b0 _6BITS) 16 + Z.shiftl b1 8 + b2 = checksum.
Proof.
  intros checksum.
  assert (0 <= checksum < 2 ^ 22) as Hc.
  { unfold checksum. change (Z.shiftl 1 22 - 1) with (Z.ones 22).
    rewrite Z.land_ones by lia. apply Z.mod_pos_bound. lia. }
  unfold checksum_block. fold checksum.
  do 3 eexists. split; [reflexivity | ].
  change (Z.shiftl (bt bt_crc) 6) with 192. change (bt bt_crc) with 3.
  change _6BITS with (Z.ones 6).
  rewrite Z.land_ones, !Z.shiftr_div_pow2, !Z.shiftl_mul_pow2 by lia.
  unfold BYTE.
  change (2 ^ 16) with 65536. change (2 ^ 8) with 256. change (2 ^ 6) with 64.
  change (2 ^ 22) with 4194304 in Hc.
  assert (0 <= checksum / 65536 < 64) as H16.
  { split; [apply Z.div_pos; lia | apply Z.div_lt_upper_bound; lia]. }
  rewrite (Z.mod_small (checksum / 65536 + 192)) by lia.
  split.
  - rewrite Z.add_comm. change 192 with (3 * 64).
    rewrite Z.div_add_l by lia. rewrite Z.div_small by lia. lia.
  - replace ((checksum / 65536 + 192) mod 64) with (checksum / 65536).
    2:{ change 192 with (3 * 64). rewrite Z.mod_add by lia.
        now rewrite Z.mod_small by lia. }
    pose proof (Z.div_mod checksum 65536 ltac:(lia)) as D1.
    pose proof (Z.mod_pos_bound checksum 65536 ltac:(lia)) as B1.
    pose proof (Z.div_mod checksum 256 ltac:(lia)) as D2.
    pose proof (Z.mod_pos_bound checksum 256 ltac:(lia)) as B2.
    pose proof (Z.div_mod (checksum / 256) 256 ltac:(lia)) as D3.
    pose proof (Z.mod_pos_bound (checksum / 256) 256 ltac:(lia)) as B3.
    rewrite Z.div_div in D3 by lia. change (256 * 256) with 65536 in D3.
    lia.
Qed.

Lemma nth_xor_stream ks j mlen message i :
  (i < mlen)%nat -> (i < length message)%nat ->
  nth i (xor_stream ks j mlen message) 0
  = Z.lxor (nth i message 0) (ks (j + i)%nat).
Proof.
  revert j message i.
  induction mlen as [ | mlen IH]; intros j [ | b message] i Hm Hl;
    simpl in Hl; try lia.
  destruct i as [ | i]; cbn [xor_stream nth].
  - now rewrite Nat.add_0_r.
  - rewrite IH by lia. f_equal. f_equal. lia.
Qed.

(** The checksummed bytes at a position inside the cipher pass of the
    first block. *)
Lemma checksummed_nth fuel bs src i :
  (i < PTR)%nat -> (i < length src)%nat -> Z.of_nat i < bs ->
  nth i (checksummed (S fuel) bs src) 0 = Z.lxor (nth i src 0) (salsa_local i).
Proof.
  intros Hp Hl Hb. cbn [checksummed]. unfold fread.
  assert (i < length (firstn (Z.to_nat bs) src))%nat as Hfirst
      by (rewrite length_firstn; lia).
  destruct (zlen (firstn (Z.to_nat bs) src) =? 0) eqn:E.
  { apply Z.eqb_eq in E. unfold zlen in E. lia. }
  rewrite app_nth1 by (unfold salsa20; rewrite xor_stream_length; exact Hfirst).
  unfold salsa20. rewrite nth_xor_stream by assumption.
  rewrite nth_firstn.
  destruct (Nat.ltb_spec i (Z.to_nat bs)); [reflexivity | lia].
Qed.

(** C6 (code at the failing input). The trailer written is the
    [checksum_block] of the digest of the bytes given to [XXH32_update];
    those bytes are the blocks of the source after the cipher pass over
    their first [PTR] bytes. At a position of the first block inside that
    pass, the checksummed byte is the source byte combined with the
    keystream byte; when that keystream byte is not zero, the checksummed
    bytes are not the bytes of the source. *)
Theorem checksum_covers_ciphered_bytes e c id password src w0 rep w :
  get_fileHandle e world0 = Return src w0 ->
  FIO_compressFilename e c id password = Return rep w ->
  (exists body,
      w_written w
      = body ++ checksum_block (XXH32 FSE_CHECKSUM_SEED (r_fed rep))) /\
  r_fed rep = checksummed (S (length src)) (FIO_blockID_to_blockSize id) src /\
  (forall i,
      (i < PTR)%nat -> (i < length src)%nat ->
      Z.of_nat i < FIO_blockID_to_blockSize id ->
      nth i (r_fed rep) 0 = Z.lxor (nth i src 0) (salsa_local i) /\
      (salsa_local i <> 0 -> r_fed rep <> src)).
Proof.
  intros Hget Henc. revert Henc.
  unfold FIO_compressFilename. rewrite Hget.
  destruct (select_compressor c) as [compressor magic].
  destruct (FIO_blockID_to_blockSize id =? 0); [discriminate | ].
  match goal with
  | |- context [compress_loop ?n ?a ?b ?p ?f ?st] =>
    destruct (compress_loop n a b p f st) as [st' w' | | | ] eqn:Hloop
  end; try discriminate.
  apply compress_loop_fed in Hloop. destruct Hloop as (Hfed & bytes & Hw).
  simpl in Hfed.
  intros H; inversion H; subst; clear H. simpl.
  split; [eexists; reflexivity | ].
  split; [exact Hfed | ].
  intros i Hptr Hlen Hbs.
  assert (nth i (c_fed st') 0 = Z.lxor (nth i src 0) (salsa_local i)) as Hnth
      by (rewrite Hfed; now apply checksummed_nth).
  split; [exact Hnth | ].
  intros Hks E. rewrite E in Hnth. symmetry in Hnth.
  exact (lxor_changes _ _ Hks Hnth).
Qed.

End Checksum.

Lemma checksum_covers_ciphered_bytes_witness :
  let rep := {| r_compressedfilesize := 14; r_filesize := 3;
                r_fed := [1; 2; 3]; r_trace := [0] |} in
  (exists body,
      [9; 35; 62; 24; 0; 64; 0; 3; 1; 2; 3; 192; 0; 63]
      = body ++ checksum_block (@XXH32 keyed FSE_CHECKSUM_SEED (r_fed rep))) /\
  r_fed rep = checksummed (C := keyed) 4 (FIO_blockID_to_blockSize 0) [0; 0; 0] /\
  nth 2 (r_fed rep) 0 = Z.lxor (nth 2 [0; 0; 0] 0) (@salsa_local keyed 2%nat) /\
  r_fed rep <> [0; 0; 0].
Proof.
  intro rep.
  destruct (checksum_covers_ciphered_bytes (C := keyed)
              (sample_file [0; 0; 0]) FIO_fse 0 None [0; 0; 0] both_open rep
              {| w_written := [9; 35; 62; 24; 0; 64; 0; 3; 1; 2; 3; 192; 0; 63];
                 w_open := []; w_heap := [] |} eq_refl eq_refl)
    as (Htrailer & Hfed & Hpos).
  split; [exact Htrailer | ]. split; [exact Hfed | ].
  destruct (Hpos 2%nat) as (Hnth & Hne).
  - simpl. lia.
  - simpl. lia.
  - change (FIO_blockID_to_blockSize 0) with 1024. lia.
  - split; [exact Hnth | ]. apply Hne. simpl. discriminate.
Defined.

(** The same content read in blocks of 1024 and of 2048 bytes: under the
    keystream 1, 2, 3, ... the checksummed bytes differ. *)
Example checksummed_depends_on_block_size :
  checksummed (C := keyed) 2049 1024 (repeat 0 2048)
  <> checksummed (C := keyed) 2049 2048 (repeat 0 2048).
Proof.
  intros E. apply (f_equal (fun l => nth 1024 l 0)) in E.
  vm_compute in E. discriminate E.
Qed.

(** ** Buffered format *)

Section BufferedProperties.
Context {C : Collaborators} {B : Buffered}.

(** C8. At a call of [ZBUFF_decompressContinue] that reports no error
    and asks for [toRead] bytes, [toRead] not zero. When the request is
    within the capacity of the staging buffer, the staged input was
    consumed and the source holds [toRead] more bytes, the turn goes on:
    the staging buffer holds exactly the next [toRead] bytes of the
    source, nothing more is taken from the source, and the next turn, so
    the next call, starts from that state. When the source does not hold
    that many bytes the process ends with code 35. When [toRead] is above
    the capacity, the turn never goes on: the process ends with code 34
    ("too large block"), or with code 38 when the staged input was not
    consumed. Conversely a turn that goes on has refilled the buffer with
    exactly [toRead] bytes. *)
Theorem refill_is_exactly_the_request
    ress passwordValue st scrambler dctx' toRead decoded inSize :
  scrambler_func passwordValue (f_index st) = Some scrambler ->
  ZBUFF_decompressContinue (f_dctx st) (d_dstBufferSize ress) (f_staged st)
    scrambler = (dctx', (toRead, decoded, inSize)) ->
  ZBUFF_isError toRead = false -> 0 < toRead ->
  let w := fwrite decoded (f_world st) in
  let st' := {| f_world := w; f_dctx := dctx';
                f_staged := firstn (Z.to_nat toRead) (f_file st);
                f_file := skipn (Z.to_nat toRead) (f_file st);
                f_index := to_unsigned (f_index st + 1);
                f_frameSize := f_frameSize st + zlen decoded |} in
  let turn := decompressFrame_turn ress passwordValue st in
  (toRead <= d_srcBufferSize ress -> inSize = zlen (f_staged st) ->
   toRead <= zlen (f_file st) ->
   turn = F_continue toRead st' /\
   zlen (f_staged st') = toRead /\
   f_staged st' ++ f_file st' = f_file st /\
   forall fuel,
     decompressFrame_loop (S fuel) ress passwordValue st
     = decompressFrame_loop fuel ress passwordValue st') /\
  (toRead <= d_srcBufferSize ress -> inSize = zlen (f_staged st) ->
   zlen (f_file st) < toRead -> turn = F_exit 35 w) /\
  (d_srcBufferSize ress < toRead -> inSize = zlen (f_staged st) ->
   turn = F_exit 34 w) /\
  (d_srcBufferSize ress < toRead ->
   exists code, turn = F_exit code w /\ (code = 34 \/ code = 38)) /\
  (forall t st2,
      turn = F_continue t st2 ->
      t = toRead /\ st2 = st' /\ toRead <= d_srcBufferSize ress /\
      inSize = zlen (f_staged st) /\ zlen (f_staged st2) = toRead).
Proof.
  intros Hs Hcall Herr Hpos w st' turn.
  assert (turn
          = if negb (zlen (f_staged st) - inSize =? 0) then F_exit 38 w
            else if d_srcBufferSize ress <? toRead then F_exit 34 w
            else if negb (zlen (firstn (Z.to_nat toRead) (f_file st)) =? toRead)
                 then F_exit 35 w
                 else F_continue toRead st') as Hturn.
  { subst turn. unfold decompressFrame_turn. rewrite Hs, Hcall, Herr.
    destruct (toRead =? 0) eqn:E0; [apply Z.eqb_eq in E0; lia | ].
    reflexivity. }
  assert (zlen (firstn (Z.to_nat toRead) (f_file st))
          = Z.min toRead (zlen (f_file st))) as Hlen.
  { unfold zlen. rewrite length_firstn. lia. }
  rewrite Hturn. clear Hturn.
  split; [ | split; [ | split; [ | split]]].
  - intros Hcap Hall Hfile.
    replace (zlen (f_staged st) - inSize =? 0) with true
      by (symmetry; apply Z.eqb_eq; lia).
    replace (d_srcBufferSize ress <? toRead) with false
      by (symmetry; apply Z.ltb_ge; lia).
    replace (zlen (firstn (Z.to_nat toRead) (f_file st)) =? toRead) with true
      by (symmetry; apply Z.eqb_eq; lia).
    cbn [negb]. split; [reflexivity | ].
    split; [subst st'; cbn [f_staged]; lia | ].
    split; [subst st'; cbn [f_staged f_file]; apply firstn_skipn | ].
    intros fuel. cbn [decompressFrame_loop].
    unfold decompressFrame_turn. rewrite Hs, Hcall, Herr.
    replace (toRead =? 0) with false by (symmetry; apply Z.eqb_neq; lia).
    replace (zlen (f_staged st) - inSize =? 0) with true
      by (symmetry; apply Z.eqb_eq; lia).
    replace (d_srcBufferSize ress <? toRead) with false
      by (symmetry; apply Z.ltb_ge; lia).
    unfold fread.
    replace (zlen (firstn (Z.to_nat toRead) (f_file st)) =? toRead) with true
      by (symmetry; apply Z.eqb_eq; lia).
    reflexivity.
  - intros Hcap Hall Hfile.
    replace (zlen (f_staged st) - inSize =? 0) with true
      by (symmetry; apply Z.eqb_eq; lia).
    replace (d_srcBufferSize ress <? toRead) with false
      by (symmetry; apply Z.ltb_ge; lia).
    replace (zlen (firstn (Z.to_nat toRead) (f_file st)) =? toRead) with false
      by (symmetry; apply Z.eqb_neq; lia).
    reflexivity.
  - intros Hbig Hall.
    replace (zlen (f_staged st) - inSize =? 0) with true
      by (symmetry; apply Z.eqb_eq; lia).
    replace (d_srcBufferSize ress <? toRead) with true
      by (symmetry; apply Z.ltb_lt; lia).
    reflexivity.
  - intros Hbig.
    replace (d_srcBufferSize ress <? toRead) with true
      by (symmetry; apply Z.ltb_lt; lia).
    destruct (negb (zlen (f_staged st) - inSize =? 0)); eexists; eauto.
  - intros t st2.
    destruct (zlen (f_staged st) - inSize =? 0) eqn:Eall; cbn [negb];
      [ | discriminate].
    destruct (d_srcBufferSize ress <? toRead) eqn:Ebig; [discriminate | ].
    destruct (zlen (firstn (Z.to_nat toRead) (f_file st)) =? toRead) eqn:El;
      cbn [negb]; [ | discriminate].
    apply Z.eqb_eq in Eall, El. apply Z.ltb_ge in Ebig.
    intros H. injection H as <- <-.
    subst st'. cbn [f_staged]. repeat split; lia.
Qed.

(** The trace of the compression loop holds what the scrambler gave for
    the secret of the call, and the loop adds at least one entry. *)
Lemma zstd_compress_loop_trace fuel ress passwordValue f st st' w :
  zstd_compress_loop fuel ress passwordValue f st = Return st' w ->
  (forall i v, In (i, v) (z_trace st) -> scrambler_func passwordValue i = Some v) ->
  (forall i v, In (i, v) (z_trace st') -> scrambler_func passwordValue i = Some v) /\
  z_trace st' <> [].
Proof.
  revert f st. induction fuel as [ | fuel IH]; intros f st; [discriminate | ].
  cbn [zstd_compress_loop].
  destruct (scrambler_func passwordValue (z_index st)) as [scrambler | ] eqn:Hs;
    [ | discriminate].
  assert ((forall i v, In (i, v) (z_trace st) ->
                       scrambler_func passwordValue i = Some v) ->
          forall i v, In (i, v) (z_trace st ++ [(z_index st, scrambler)]) ->
                      scrambler_func passwordValue i = Some v) as Hstep.
  { intros Hold i v Hin. apply in_app_or in Hin. destruct Hin as [Hin | Hin].
    - now apply Hold.
    - destruct Hin as [Hin | []]. inversion Hin; subst. exact Hs. }
  destruct (fread (c_srcBufferSize ress) f) as [blk rest].
  destruct (zlen blk =? 0).
  - intros H Hold; inversion H; subst; clear H. cbn [z_trace].
    split; [now apply Hstep | ].
    intros E. apply (f_equal (@length _)) in E. rewrite length_app in E.
    simpl in E. lia.
  - destruct (ZBUFF_compressContinue _ _ _ _) as [ctx [[result out] usedInSize]].
    destruct (ZBUFF_isError result); [discriminate | ].
    destruct (negb (zlen blk =? usedInSize)); [discriminate | ].
    intros H Hold. apply IH in H; [exact H | ].
    cbn [z_trace]. now apply Hstep.
Qed.

Lemma extRess_report ress e srcSize cLevel passwordValue rep ctx w :
  FIO_compressZstdFilename_extRess ress e srcSize cLevel passwordValue
    = Return (rep, ctx) w ->
  (zr_result rep = 0 ->
   zr_scrambler rep = Some (fst (choose_scrambler passwordValue)) /\
   zr_trace rep <> []) /\
  (zr_result rep <> 0 -> zr_scrambler rep = None /\ zr_trace rep = []) /\
  (forall i v, In (i, v) (zr_trace rep) -> scrambler_func passwordValue i = Some v).
Proof.
  unfold FIO_compressZstdFilename_extRess.
  destruct (FIO_getFiles e world0) as [src w1 | w1 | code w1].
  2:{ intros H; inversion H; subst; simpl.
      repeat split; try tauto; try discriminate; intros i v []. }
  2:{ discriminate. }
  destruct (ZBUFF_compressInit_advanced _ _ _) as [ctx1 e1].
  destruct (ZBUFF_isError e1); [discriminate | ].
  destruct (ZBUFF_compressWithDictionary _ _) as [ctx2 e2].
  destruct (ZBUFF_isError e2); [discriminate | ].
  match goal with
  | |- context [zstd_compress_loop ?n ?r ?p ?f ?st] =>
    destruct (zstd_compress_loop n r p f st) as [st' w' | | | ] eqn:Hloop
  end; try discriminate.
  apply zstd_compress_loop_trace in Hloop; [ | intros i v []].
  destruct Hloop as (Htrace & Hne).
  destruct (ZBUFF_compressEnd _ _) as [ctx' [result out]].
  destruct (negb (result =? 0)); [discriminate | ].
  intros H; inversion H; subst; simpl.
  repeat split; try tauto; try (intros; congruence); try exact Htrace.
Qed.


End BufferedProperties.

Lemma refill_is_exactly_the_request_witness :
  (decompressFrame_turn (C := plain) sample_dRess None
     (sample_fState 3 [7; 8; 9; 0])
   = F_continue 3
       (@Build_fState sample_buffered both_open (Some 3) [7; 8; 9] [0] 2 0) /\
   forall fuel,
     decompressFrame_loop (C := plain) (S fuel) sample_dRess None
       (sample_fState 3 [7; 8; 9; 0])
     = decompressFrame_loop (C := plain) fuel sample_dRess None
         (@Build_fState sample_buffered both_open (Some 3) [7; 8; 9] [0] 2 0)) /\
  decompressFrame_turn (C := plain) sample_dRess None
    (sample_fState 3 [7; 8])
  = F_exit 35 both_open /\
  decompressFrame_turn (C := plain) sample_dRess None
    (sample_fState 200 [1; 2; 3])
  = F_exit 34 both_open.
Proof.
  split; [ | split].
  - destruct (refill_is_exactly_the_request (C := plain) sample_dRess None
                (sample_fState 3 [7; 8; 9; 0]) 0 (Some 3) 3 [] 1
                eq_refl eq_refl eq_refl ltac:(lia))
      as (Hrefill & _).
    destruct (Hrefill ltac:(simpl; lia) eq_refl ltac:(vm_compute; discriminate))
      as (Hturn & _ & _ & Hnext).
    split; [exact Hturn | exact Hnext].
  - apply (refill_is_exactly_the_request (C := plain) sample_dRess None
             (sample_fState 3 [7; 8]) 0 (Some 3) 3 [] 1
             eq_refl eq_refl eq_refl ltac:(lia));
      [simpl; lia | reflexivity | vm_compute; reflexivity].
  - apply (refill_is_exactly_the_request (C := plain) sample_dRess None
             (sample_fState 200 [1; 2; 3]) 0 (Some 200) 200 [] 1
             eq_refl eq_refl eq_refl ltac:(lia));
      [vm_compute; reflexivity | reflexivity].
Defined.

(** Two runs of [FIO_decompressFrame] with the sample coder and a staging
    buffer of 16 bytes: requests of 3 and 2 bytes are served and the frame
    ends; a request of 200 bytes ends the process with code 34. *)
Example decompressFrame_serves_requests :
  FIO_decompressFrame (C := plain) sample_dRess both_open
    [3; 7; 8; 9; 2; 5; 6; 0; 77] [1; 1; 1; 1] None
  = Return (5, [77])
      {| w_written := [7; 8; 9; 5; 6]; w_open := [foutput; finput]; w_heap := [] |}.
Proof. reflexivity. Qed.

Example decompressFrame_refuses_large_request :
  FIO_decompressFrame (C := plain) sample_dRess both_open
    [3; 7; 8; 9; 200; 5; 6; 0; 77] [1; 1; 1; 1] None
  = Exit 34
      {| w_written := [7; 8; 9]; w_open := [foutput; finput]; w_heap := [] |}.
Proof. reflexivity. Qed.

(** ** The loops end *)

Section Fuel.
Context {C : Collaborators} {B : Buffered}.

Lemma fread_rest_shorter n f :
  0 < zlen (fst (fread n f)) -> (length (snd (fread n f)) < length f)%nat.
Proof.
  unfold fread, zlen. simpl. rewrite length_skipn, length_firstn. lia.
Qed.

Lemma fread_rest_le n f : (length (snd (fread n f)) <= length f)%nat.
Proof. unfold fread. simpl. rewrite length_skipn. lia. Qed.

Lemma get_fileHandle_fuel e w : get_fileHandle e w <> OutOfFuel.
Proof. unfold get_fileHandle. split_turn; simpl; split_turn; discriminate. Qed.

(** The compression loop of the simple format does not run out of fuel. *)
Lemma compress_loop_fuel fuel compressor bs password f st :
  (length f < fuel)%nat ->
  compress_loop fuel compressor bs password f st <> OutOfFuel.
Proof.
  revert f st. induction fuel as [ | fuel IH]; intros f st Hfuel; [lia | ].
  rewrite compress_loop_S.
  pose proof (fread_rest_shorter bs f) as Hshort.
  destruct (fread bs f) as [blk rest]. simpl in Hshort.
  destruct (zlen blk =? 0) eqn:E; [discriminate | ].
  apply Z.eqb_neq in E. pose proof (zlen_nonneg blk).
  destruct (compress_block compressor bs password blk st) eqn:Hb; try discriminate.
  - apply IH. specialize (Hshort ltac:(lia)). lia.
  - unfold compress_block in Hb.
    destruct (scrambler_func password (c_index st)); [ | discriminate].
    destruct (compressor _ _ _) as [cSize dst].
    destruct (FSE_isError cSize); discriminate.
Qed.

Lemma FIO_compressFilename_fuel e c id password :
  FIO_compressFilename e c id password <> OutOfFuel.
Proof.
  unfold FIO_compressFilename.
  destruct (get_fileHandle e world0) as [src w | | | ] eqn:Hget; try discriminate.
  - destruct (select_compressor c) as [compressor magic].
    destruct (FIO_blockID_to_blockSize id =? 0); [discriminate | ].
    match goal with
    | |- context [compress_loop ?n ?a ?b ?p ?f ?st] =>
      pose proof (compress_loop_fuel n a b p f st ltac:(lia)) as Hloop;
      destruct (compress_loop n a b p f st)
    end; try discriminate. contradiction.
  - destruct (get_fileHandle_fuel _ _ Hget).
Qed.

(** Every turn of the decode loop that goes on has taken at least one
    byte from the source. *)
Lemma decompress_block_progress decompressor bs password ip0 f st ip1 rest st' :
  0 <= bs ->
  decompress_block decompressor bs password ip0 f st = T_next ip1 rest st' ->
  (length rest < length f)%nat.
Proof.
  intros Hbs. unfold decompress_block, decode_header.
  destruct (bType_of (Z.shiftr (Z.land ip0 (BIT7 + BIT6)) 6)); try discriminate;
    destruct (Z.land ip0 BIT5 =? 0) eqn:Efull;
    repeat match goal with
           | |- context [fread ?n ?l] =>
             let Hl := fresh "Hl" in
             let Hs := fresh "Hs" in
             pose proof (fread_rest_le n l) as Hl;
             pose proof (fread_rest_shorter n l) as Hs;
             destruct (fread n l); cbn [fst snd] in Hl, Hs
           | |- context [if ?b then _ else _] =>
             let E := fresh "E" in destruct b eqn:E; cbn [negb]
           | |- context [scrambler_func ?p ?i] => destruct (scrambler_func p i)
           | |- context [decompressor ?a ?b ?c] => destruct (decompressor a b c)
           end;
    try discriminate;
    intros H; inversion H; subst; clear H; tests_to_facts; lia.
Qed.

Lemma decompress_loop_fuel fuel decompressor bs password ip0 f st :
  0 <= bs -> (length f < fuel)%nat ->
  decompress_loop fuel decompressor bs password ip0 f st <> OutOfFuel.
Proof.
  intros Hbs. revert ip0 f st.
  induction fuel as [ | fuel IH]; intros ip0 f st Hfuel; [lia | ].
  rewrite decompress_loop_S.
  destruct (decompress_block decompressor bs password ip0 f st) eqn:Hb;
    try discriminate.
  apply IH. apply decompress_block_progress in Hb; [lia | exact Hbs].
Qed.

(** The decoder of the simple format does not run out of fuel. *)
Lemma FIO_decompressFilename_fuel e password :
  FIO_decompressFilename e password <> OutOfFuel.
Proof.
  unfold FIO_decompressFilename.
  destruct (get_fileHandle e world0) as [src w | | | ] eqn:Hget; try discriminate.
  - destruct (fread FIO_FRAMEHEADERSIZE src) as [header f].
    destruct (negb (zlen header =? FIO_FRAMEHEADERSIZE)); [discriminate | ].
    destruct (select_decompressor (FIO_readLE32 header)); [ | discriminate].
    destruct (FIO_maxBlockSizeID <? nth 4 header 0) eqn:Eid; [discriminate | ].
    pose proof (fread_rest_le 1 f) as Hle.
    destruct (fread 1 f) as [b f0]. simpl in Hle.
    destruct (negb (zlen b =? 1)); [discriminate | ].
    match goal with
    | |- context [decompress_loop ?n ?d ?bs ?p ?i ?g ?st] =>
      assert (0 <= bs) as Hbs;
        [ | pose proof (decompress_loop_fuel n d bs p i g st Hbs ltac:(lia)) as Hloop;
            destruct (decompress_loop n d bs p i g st) as [[st' f'] w' | | | ] ]
    end.
    + unfold FIO_blockID_to_blockSize.
      apply Z.mul_nonneg_nonneg; apply Z.shiftl_nonneg; lia.
    + destruct (fread 2 f') as [crc rest].
      destruct (_ <? d_ip st' + 1 + zlen crc); [discriminate | ].
      destruct (negb (zlen crc =? 2)); discriminate.
    + discriminate.
    + discriminate.
    + contradiction.
  - destruct (get_fileHandle_fuel _ _ Hget).
Qed.

(** Every turn of the loop of [FIO_decompressFrame] that goes on has taken
    at least one byte from the source, so the loop does not run out of
    fuel. *)
Lemma decompressFrame_loop_fuel fuel ress passwordValue st :
  (length (f_file st) < fuel)%nat ->
  decompressFrame_loop fuel ress passwordValue st <> OutOfFuel.
Proof.
  revert st. induction fuel as [ | fuel IH]; intros st Hfuel; [lia | ].
  cbn [decompressFrame_loop].
  destruct (decompressFrame_turn ress passwordValue st) as [st' | t st' | | ] eqn:Hturn;
    try discriminate.
  apply IH.
  revert Hturn. unfold decompressFrame_turn.
  destruct (scrambler_func passwordValue (f_index st)); [ | discriminate].
  destruct (ZBUFF_decompressContinue _ _ _ _) as [dctx' [[toRead decoded] inSize]].
  destruct (ZBUFF_isError toRead); [discriminate | ].
  destruct (toRead =? 0) eqn:E0; [discriminate | ].
  apply Z.eqb_neq in E0.
  destruct (negb (zlen (f_staged st) - inSize =? 0)); [discriminate | ].
  destruct (d_srcBufferSize ress <? toRead); [discriminate | ].
  pose proof (fread_rest_shorter toRead (f_file st)) as Hshort.
  destruct (fread toRead (f_file st)) as [buf rest]. simpl in Hshort.
  destruct (zlen buf =? toRead) eqn:El; cbn [negb]; [ | discriminate].
  apply Z.eqb_eq in El. pose proof (zlen_nonneg buf) as Hnn.
  intros Heq; inversion Heq; subst; clear Heq. cbn [f_file].
  specialize (Hshort ltac:(lia)). lia.
Qed.

Lemma FIO_decompressFrame_fuel ress w src loaded passwordValue :
  FIO_decompressFrame ress w src loaded passwordValue <> OutOfFuel.
Proof.
  unfold FIO_decompressFrame. apply decompressFrame_loop_fuel. simpl. lia.
Qed.

(** Neither does the compression loop of the buffered format, nor a run
    over several files. *)
Lemma zstd_compress_loop_fuel fuel ress passwordValue f st :
  (length f < fuel)%nat ->
  zstd_compress_loop fuel ress passwordValue f st <> OutOfFuel.
Proof.
  revert f st. induction fuel as [ | fuel IH]; intros f st Hfuel; [lia | ].
  cbn [zstd_compress_loop].
  destruct (scrambler_func passwordValue (z_index st)); [ | discriminate].
  pose proof (fread_rest_shorter (c_srcBufferSize ress) f) as Hshort.
  destruct (fread (c_srcBufferSize ress) f) as [blk rest]. simpl in Hshort.
  destruct (zlen blk =? 0) eqn:E; [discriminate | ].
  apply Z.eqb_neq in E. pose proof (zlen_nonneg blk) as Hnn.
  destruct (ZBUFF_compressContinue _ _ _ _) as [ctx [[result out] usedInSize]].
  destruct (ZBUFF_isError result); [discriminate | ].
  destruct (negb (zlen blk =? usedInSize)); [discriminate | ].
  apply IH. specialize (Hshort ltac:(lia)). lia.
Qed.

Lemma extRess_fuel ress e srcSize cLevel passwordValue :
  FIO_compressZstdFilename_extRess ress e srcSize cLevel passwordValue <> OutOfFuel.
Proof.
  unfold FIO_compressZstdFilename_extRess.
  destruct (FIO_getFiles e world0) as [src w1 | w1 | code w1]; try discriminate.
  destruct (ZBUFF_compressInit_advanced _ _ _) as [ctx1 e1].
  destruct (ZBUFF_isError e1); [discriminate | ].
  destruct (ZBUFF_compressWithDictionary _ _) as [ctx2 e2].
  destruct (ZBUFF_isError e2); [discriminate | ].
  match goal with
  | |- context [zstd_compress_loop ?n ?r ?p ?f ?st] =>
    pose proof (zstd_compress_loop_fuel n r p f st ltac:(lia)) as Hloop;
    destruct (zstd_compress_loop n r p f st) as [st' w' | | | ]
  end; try discriminate; try contradiction.
  destruct (ZBUFF_compressEnd _ _) as [ctx' [result out]].
  destruct (negb (result =? 0)); discriminate.
Qed.

Lemma compress_each_fuel ress look suffix level dfnSize names :
  compress_each ress look suffix level dfnSize names <> OutOfFuel.
Proof.
  revert ress dfnSize. induction names as [ | name names IH]; intros ress dfnSize;
    cbn [compress_each]; [discriminate | ].
  cbv zeta.
  destruct (_ <? Z.of_nat (String.length name) + _ + 1); [discriminate | ].
  destruct (look (name ++ suffix)%string name) as [e srcSize].
  pose proof (extRess_fuel ress e srcSize level (Some "TODO passwordValue"%string))
    as Hfile.
  destruct (FIO_compressZstdFilename_extRess ress e srcSize level
              (Some "TODO passwordValue"%string)) as [[rep ctx] w1 | | | ];
    try discriminate; try contradiction.
  match goal with
  | |- context [compress_each ?r look suffix level ?d names] =>
    specialize (IH r d); destruct (compress_each r look suffix level d names)
      as [[[missed reps] ctx2] w2 | | | ]
  end; try discriminate; try contradiction.
Qed.

Lemma FIO_compressMultipleFilenames_fuel look names suffix dict level :
  FIO_compressMultipleFilenames look names suffix dict level <> OutOfFuel.
Proof.
  unfold FIO_compressMultipleFilenames.
  destruct (FIO_createCResources dict) as [code | ress]; [discriminate | ].
  pose proof (compress_each_fuel ress look suffix level FNSPACE names) as Hrun.
  destruct (compress_each ress look suffix level FNSPACE names)
    as [[[missed reps] ctx] w | | | ]; try discriminate; try contradiction.
  destruct (FIO_freeCResources ctx); discriminate.
Qed.

End Fuel.

(** ** Simple format: a short block left raw *)

Section RawRoundTrip.
Context {C : Collaborators}.

Lemma crc_tag_range x :
  0 <= x < 64 -> bType_of (Z.shiftr (Z.land (x + 192) (BIT7 + BIT6)) 6) = bt_crc.
Proof.
  intros Hx.
  assert (In x (map Z.of_nat (seq 0 64))) as Hin.
  { apply in_map_iff. exists (Z.to_nat x). split; [lia | apply in_seq; lia]. }
  assert (forallb (fun x => bt (bType_of (Z.shiftr (Z.land (x + 192) (BIT7 + BIT6)) 6))
                            =? bt bt_crc) (map Z.of_nat (seq 0 64)) = true) as Hall
      by (vm_compute; reflexivity).
  rewrite forallb_forall in Hall. specialize (Hall x Hin).
  apply Z.eqb_eq in Hall.
  destruct (bType_of _); try discriminate Hall. reflexivity.
Qed.

(** The first byte of the trailer is read as the end of the frame. *)
Lemma checksum_block_is_crc digest bs f :
  decode_header bs (nth 0 (checksum_block digest) 0) f = H_crc.
Proof.
  unfold checksum_block. cbn [nth].
  set (checksum := Z.land (Z.shiftr digest 5) (Z.shiftl 1 22 - 1)).
  assert (0 <= checksum < 2 ^ 22) as Hc.
  { unfold checksum. change (Z.shiftl 1 22 - 1) with (Z.ones 22).
    rewrite Z.land_ones by lia. apply Z.mod_pos_bound. lia. }
  change (Z.shiftl (bt bt_crc) 6) with 192.
  rewrite Z.shiftr_div_pow2 by lia. change (2 ^ 16) with 65536.
  change (2 ^ 22) with 4194304 in Hc.
  assert (0 <= checksum / 65536 < 64) as H16.
  { split; [apply Z.div_pos; lia | apply Z.div_lt_upper_bound; lia]. }
  unfold BYTE. rewrite Z.mod_small by lia.
  unfold decode_header. rewrite crc_tag_range by lia. reflexivity.
Qed.

(** A source shorter than a block on which the compressor answers 0: the
    frame holds the block as the cipher pass left it, and the decoder,
    which applies no pass to a raw block, writes those bytes. *)
Lemma raw_block_comes_back_ciphered c id blk :
  0 <= id <= FIO_maxBlockSizeID ->
  0 < zlen blk < FIO_blockID_to_blockSize id ->
  fst (fst (select_compressor c)
         (FSE_compressBound (FIO_blockID_to_blockSize id))
         (salsa20 salsa_local PTR blk) 0) = 0 ->
  FSE_isError 0 = false ->
  exists rep w rep' w',
    FIO_compressFilename (sample_file blk) c id None = Return rep w /\
    FIO_decompressFilename (sample_file (w_written w)) None = Return rep' w' /\
    w_written w' = salsa20 salsa_local PTR blk.
Proof.
  intros Hid Hlen Hc He.
  pose proof (blockSize_bounds id Hid) as Hbs.
  assert (exists rep w,
             FIO_compressFilename (sample_file blk) c id None = Return rep w /\
             w_written w
             = (FIO_writeLE32 (snd (select_compressor c)) ++ [id])
               ++ 64 :: BYTE (Z.shiftr (zlen blk) 8) :: BYTE (zlen blk)
                  :: salsa20 salsa_local PTR blk
                  ++ nth 0 (checksum_block
                              (XXH32 FSE_CHECKSUM_SEED (salsa20 salsa_local PTR blk))) 0
                  :: skipn 1 (checksum_block
                                (XXH32 FSE_CHECKSUM_SEED (salsa20 salsa_local PTR blk))))
    as (rep & w & Henc & Hw).
  { unfold FIO_compressFilename. rewrite get_fileHandle_sample.
    destruct (select_compressor c) as [compressor magic]. simpl fst in Hc. simpl snd.
    destruct (FIO_blockID_to_blockSize id =? 0) eqn:E; [apply Z.eqb_eq in E; lia | ].
    destruct (compressor (FSE_compressBound (FIO_blockID_to_blockSize id))
                (salsa20 salsa_local PTR blk) 0) as [cSize dst] eqn:Hcall.
    simpl in Hc. subst cSize.
    match goal with
    | |- context [compress_loop _ _ _ _ _ ?st] =>
      pose proof (compress_block_eq compressor (FIO_blockID_to_blockSize id)
                    None blk st 0 0 dst eq_refl Hcall He) as Hblk
    end.
    cbv zeta in Hblk.
    destruct blk as [ | b0 blk]; [unfold zlen in Hlen; simpl in Hlen; lia | ].
    cbn [length].
    erewrite compress_loop_one by (try exact Hblk; lia).
    do 2 eexists. split; [reflexivity | ].
    cbn [w_written fclose free_all fwrite malloc both_open c_world c_fed app].
    unfold write_cBlock. rewrite salsa20_length.
    change (0 =? 0) with true. cbv iota.
    rewrite block_header_raw.
    destruct (zlen (b0 :: blk) =? FIO_blockID_to_blockSize id) eqn:E1;
      [apply Z.eqb_eq in E1; lia | ].
    unfold BYTE at 1.
    rewrite (Z.mod_small id) by (unfold FIO_maxBlockSizeID in Hid; lia).
    rewrite <- !app_assoc. reflexivity. }
  exists rep, w. rewrite Hw. clear Hw.
  set (buf := salsa20 salsa_local PTR blk).
  set (crc := checksum_block (XXH32 FSE_CHECKSUM_SEED buf)).
  enough (exists rep' w',
             FIO_decompressFilename
               (sample_file
                  ((FIO_writeLE32 (snd (select_compressor c)) ++ [id])
                   ++ 64 :: BYTE (Z.shiftr (zlen blk) 8) :: BYTE (zlen blk)
                      :: buf ++ nth 0 crc 0 :: skipn 1 crc)) None
             = Return rep' w' /\ w_written w' = buf)
    as (rep' & w' & Hdec & Hout) by (exists rep', w'; auto).
  destruct (select_decompressor_magic c) as [d Hd].
  unfold FIO_decompressFilename. rewrite get_fileHandle_sample.
  rewrite (fread_app_exact FIO_FRAMEHEADERSIZE) by reflexivity.
  change (zlen (FIO_writeLE32 (snd (select_compressor c)) ++ [id])
          =? FIO_FRAMEHEADERSIZE) with true.
  change (FIO_readLE32 (FIO_writeLE32 (snd (select_compressor c)) ++ [id]))
    with (FIO_readLE32 (FIO_writeLE32 (snd (select_compressor c)))).
  rewrite readLE32_magic, Hd.
  change (nth 4 (FIO_writeLE32 (snd (select_compressor c)) ++ [id]) 0) with id.
  destruct (FIO_maxBlockSizeID <? id) eqn:E; [apply Z.ltb_lt in E; lia | ].
  cbn [negb].
  change (fread 1 (64 :: ?r)) with ([64], r).
  change (zlen [64] =? 1) with true. cbn [negb nth length].
  rewrite decompress_loop_S.
  assert (zlen buf = zlen blk) as Hbuf by apply salsa20_length.
  rewrite raw_block_turn by (rewrite be16_join by lia; lia).
  rewrite be16_join by lia.
  destruct (length (buf ++ nth 0 crc 0 :: skipn 1 crc)) as [ | n] eqn:El.
  { rewrite length_app in El. simpl in El. lia. }
  rewrite decompress_loop_S.
  unfold decompress_block. unfold crc at 1. rewrite checksum_block_is_crc.
  change (fread 2 (skipn 1 crc)) with
    ([nth 1 crc 0; nth 2 crc 0], @nil Z).
  cbv beta iota.
  match goal with
  | |- context [if ?t <? ?u then Undefined _ else _] =>
    destruct (t <? u) eqn:Eip;
      [apply Z.ltb_lt in Eip; cbn [d_ip d_emit d_seek] in Eip;
       change (zlen [nth 1 crc 0; nth 2 crc 0]) with 2 in Eip;
       unfold FIO_maxBlockHeaderSize in Eip; lia | ]
  end.
  change (zlen [nth 1 crc 0; nth 2 crc 0] =? 2) with true. cbn [negb].
  do 2 eexists. split; [reflexivity | ]. reflexivity.
Qed.

End RawRoundTrip.

(** * Further properties *)

(** ** Memory operations *)

(** The low byte and the rest. *)
Lemma low_byte_split v k :
  0 <= k -> Z.shiftr v k = 256 * Z.shiftr v (k + 8) + BYTE (Z.shiftr v k).
Proof.
  intros Hk. unfold BYTE. rewrite <- Z.shiftr_shiftr by lia.
  rewrite (Z.shiftr_div_pow2 _ 8) by lia. change (2 ^ 8) with 256.
  apply Z.div_mod. lia.
Qed.

Lemma shiftr_bound v k n :
  0 <= k -> 0 <= n -> 0 <= v < 2 ^ (k + n) -> 0 <= Z.shiftr v k < 2 ^ n.
Proof.
  intros Hk Hn Hv. rewrite Z.shiftr_div_pow2 by lia.
  rewrite Z.pow_add_r in Hv by lia.
  assert (0 < 2 ^ k) by (apply Z.pow_pos_nonneg; lia).
  split; [apply Z.div_pos; lia | apply Z.div_lt_upper_bound; lia].
Qed.

(** X1. A 32-bit value written by [FIO_writeLE32] is read back by
    [FIO_readLE32]. *)
Theorem readLE32_writeLE32 v :
  0 <= v < 2 ^ 32 -> FIO_readLE32 (FIO_writeLE32 v) = v.
Proof.
  intros Hv. unfold FIO_readLE32, FIO_writeLE32. cbn [nth].
  pose proof (low_byte_split v 0 ltac:(lia)) as H0.
  pose proof (low_byte_split v 8 ltac:(lia)) as H1.
  pose proof (low_byte_split v 16 ltac:(lia)) as H2.
  pose proof (shiftr_bound v 24 8 ltac:(lia) ltac:(lia) Hv) as H3.
  change (0 + 8) with 8 in H0. change (8 + 8) with 16 in H1.
  change (16 + 8) with 24 in H2. rewrite Z.shiftr_0_r in H0.
  change (2 ^ 8) with 256 in H3. change (2 ^ 32) with 4294967296 in Hv.
  rewrite !Z.shiftl_mul_pow2 by lia.
  change (2 ^ 8) with 256. change (2 ^ 16) with 65536.
  change (2 ^ 24) with 16777216.
  unfold BYTE at 4. rewrite (Z.mod_small (Z.shiftr v 24)) by exact H3.
  unfold to_unsigned. change (2 ^ 32) with 4294967296.
  rewrite Z.mod_small; [ | rewrite H0 in Hv at 1]; lia.
Qed.

Lemma readLE32_writeLE32_witness :
  FIO_readLE32 (FIO_writeLE32 FIO_magicNumber_huff0) = FIO_magicNumber_huff0.
Proof.
  apply (readLE32_writeLE32 FIO_magicNumber_huff0).
  unfold FIO_magicNumber_huff0. lia.
Defined.

(** X2. A 64-bit value written by [FIO_writeLE64] is read back by
    [FIO_readLE64]. *)
Theorem readLE64_writeLE64 v :
  0 <= v < 2 ^ 64 -> FIO_readLE64 (FIO_writeLE64 v) = v.
Proof.
  intros Hv. unfold FIO_readLE64, FIO_writeLE64. cbn [nth].
  pose proof (low_byte_split v 0 ltac:(lia)) as H0.
  pose proof (low_byte_split v 8 ltac:(lia)) as H1.
  pose proof (low_byte_split v 16 ltac:(lia)) as H2.
  pose proof (low_byte_split v 24 ltac:(lia)) as H3.
  pose proof (low_byte_split v 32 ltac:(lia)) as H4.
  pose proof (low_byte_split v 40 ltac:(lia)) as H5.
  pose proof (low_byte_split v 48 ltac:(lia)) as H6.
  pose proof (shiftr_bound v 56 8 ltac:(lia) ltac:(lia) Hv) as H7.
  change (0 + 8) with 8 in H0. change (8 + 8) with 16 in H1.
  change (16 + 8) with 24 in H2. change (24 + 8) with 32 in H3.
  change (32 + 8) with 40 in H4. change (40 + 8) with 48 in H5.
  change (48 + 8) with 56 in H6. rewrite Z.shiftr_0_r in H0.
  change (2 ^ 8) with 256 in H7.
  change (2 ^ 64) with 18446744073709551616 in Hv.
  rewrite !Z.shiftl_mul_pow2 by lia.
  change (2 ^ 8) with 256. change (2 ^ 16) with 65536.
  change (2 ^ 24) with 16777216. change (2 ^ 32) with 4294967296.
  change (2 ^ 40) with 1099511627776. change (2 ^ 48) with 281474976710656.
  change (2 ^ 56) with 72057594037927936.
  unfold BYTE at 8. rewrite (Z.mod_small (Z.shiftr v 56)) by exact H7.
  unfold to_ub8. change (2 ^ 64) with 18446744073709551616.
  rewrite Z.mod_small; lia.
Qed.

Lemma readLE64_writeLE64_witness :
  FIO_readLE64 (FIO_writeLE64 0x0123456789ABCDEF) = 0x0123456789ABCDEF.
Proof. apply (readLE64_writeLE64 0x0123456789ABCDEF). lia. Defined.

(** ** The frame trailer *)

(** X3. The three bytes of the trailer start with a byte that the decoder
    reads as the end of the frame, and the value [CRCsaved] that the
    decoder computes from them is the 22 bits
    [(digest >> 5) & 0x3FFFFF] that the encoder stored. *)
Theorem CRCsaved_checksum_block digest bs f :
  length (checksum_block digest) = 3%nat /\
  decode_header bs (nth 0 (checksum_block digest) 0) f = H_crc /\
  CRCsaved (checksum_block digest)
  = Z.land (Z.shiftr digest 5) (Z.shiftl 1 22 - 1).
Proof.
  split; [reflexivity | ]. split; [apply checksum_block_is_crc | ].
  destruct (checksum_block_format digest) as (b0 & b1 & b2 & Hb & _ & Hsum).
  rewrite Hb. unfold CRCsaved. cbn [nth].
  assert (0 <= Z.land (Z.shiftr digest 5) (Z.shiftl 1 22 - 1) < 2 ^ 22) as Hc.
  { change (Z.shiftl 1 22 - 1) with (Z.ones 22).
    rewrite Z.land_ones by lia. apply Z.mod_pos_bound. lia. }
  change (2 ^ 22) with 4194304 in Hc.
  unfold to_unsigned. change (2 ^ 32) with 4294967296.
  rewrite Z.mod_small; lia.
Qed.

(** ** Simple format: turns of the decode loop *)

Section DecodeTurns.
Context {C : Collaborators}.

Lemma list_eqb_eq a b : list_eqb a b = true -> a = b.
Proof.
  revert b. induction a as [ | x a IH]; intros [ | y b]; simpl; try discriminate;
    [reflexivity | ].
  intros H. apply andb_true_iff in H. destruct H as [Hx Hab].
  apply Z.eqb_eq in Hx. subst y. f_equal. now apply IH.
Qed.

Lemma crc_byte_ends_frame bs t0 f :
  192 <= t0 < 256 -> decode_header bs t0 f = H_crc.
Proof.
  intros Ht. unfold decode_header.
  replace t0 with (t0 - 192 + 192) by lia.
  rewrite crc_tag_range by lia. reflexivity.
Qed.

(** What the decoder does once the header is read, when the payload and
    the next header byte are in the source and fit the input buffer. *)
Lemma turn_after_header decompressor bs password ip0 f st t rSize payload ip1 rest :
  decode_header bs ip0 f = H_block t rSize (zlen payload) (payload ++ ip1 :: rest) ->
  zlen payload <= bs + 4 ->
  decompress_block decompressor bs password ip0 f st
  = let st := d_seek (zlen payload) st in
    match t with
    | bt_compressed =>
      match scrambler_func password (d_index st) with
      | None => T_undefined (d_world st)
      | Some scrambler =>
        let '(rSize', out) := decompressor rSize payload scrambler in
        let st1 := {| d_world := d_world st; d_index := to_unsigned (d_index st + 1);
                      d_filesize := d_filesize st; d_fed := d_fed st;
                      d_trace := d_trace st ++ [d_index st];
                      d_ip := d_ip st |} in
        if bs <? zlen out then T_undefined (d_world st)
        else if FSE_isError rSize' then T_exit 39 (d_world st)
        else T_next ip1 rest
               (d_emit (firstn (Z.to_nat rSize') (salsa20 salsa_global PTR out))
                  rSize' st1)
      end
    | bt_rle =>
      if bs <? rSize then T_undefined (d_world st)
      else T_next ip1 rest
             (d_emit (salsa20 salsa_global PTR
                        (repeat (nth 0 (payload ++ [ip1]) 0) (Z.to_nat rSize)))
                rSize st)
    | bt_raw => T_next ip1 rest (d_emit payload (zlen payload) st)
    | bt_crc => T_exit 40 (d_world st)
    end.
Proof.
  intros Hh Hfit. unfold decompress_block. rewrite Hh.
  assert (payload ++ ip1 :: rest = (payload ++ [ip1]) ++ rest) as ->
      by (rewrite <- app_assoc; reflexivity).
  rewrite fread_app_exact by (rewrite zlen_app; reflexivity).
  rewrite zlen_app. change (zlen [ip1]) with 1.
  destruct (bs + FIO_maxBlockHeaderSize <? zlen payload + 1) eqn:E;
    [apply Z.ltb_lt in E; unfold FIO_maxBlockHeaderSize in E; lia | ].
  rewrite Z.eqb_refl. cbn [negb].
  assert (Z.to_nat (zlen payload) = length payload) as -> by (unfold zlen; lia).
  rewrite nth_middle, firstn_app, Nat.sub_diag, firstn_all.
  cbn [firstn]. rewrite app_nil_r. reflexivity.
Qed.

End DecodeTurns.

(** ** Simple format: round trip *)

Section RoundTrip.
Context {C : Collaborators}.

Lemma select_paired_decompressor c :
  select_decompressor (snd (select_compressor c)) = Some (paired_decompressor c).
Proof. destruct c; reflexivity. Qed.

Lemma salsa20_zero ks mlen message :
  (forall i, ks i = 0) -> salsa20 ks mlen message = message.
Proof. intros H. unfold salsa20. now apply xor_stream_zero. Qed.

Lemma firstn_zlen (l : list Z) : firstn (Z.to_nat (zlen l)) l = l.
Proof. unfold zlen. rewrite Nat2Z.id. apply firstn_all. Qed.

Lemma zlen_firstn c (l : list Z) :
  0 <= c <= zlen l -> zlen (firstn (Z.to_nat c) l) = c.
Proof. unfold zlen. intros H. rewrite length_firstn. lia. Qed.

(** One faithful block, as the encoder frames it, followed by a next
    header byte: the turn of the decode loop writes what [block_back]
    says, and leaves [ip] where the trailer can still be stored. *)
Lemma decode_one_block compressor decompressor bs blk cSize dst ip1 rest st :
  0 < zlen blk <= bs -> bs <= 65536 ->
  compressor (FSE_compressBound bs) (salsa20 salsa_local PTR blk) 0 = (cSize, dst) ->
  block_ok compressor decompressor bs blk = true ->
  exists h t st1,
    write_cBlock bs (salsa20 salsa_local PTR blk) dst cSize ++ ip1 :: rest = h :: t /\
    decompress_block decompressor bs None h t st = T_next ip1 rest st1 /\
    d_world st1 = fwrite (block_back compressor bs blk) (d_world st) /\
    d_filesize st1 = d_filesize st + zlen blk /\
    0 <= d_ip st1 <= bs + 2.
Proof.
  intros Hlen Hbs Hcomp Hok.
  unfold block_ok in Hok. unfold block_back. cbv zeta in Hok |- *.
  rewrite Hcomp in Hok |- *.
  set (buf := salsa20 salsa_local PTR blk) in *.
  assert (zlen buf = zlen blk) as Hbuf by apply salsa20_length.
  rewrite <- Hbuf in Hlen, Hok |- *.
  apply andb_true_iff in Hok. destruct Hok as [_ Hok].
  unfold write_cBlock.
  destruct (cSize =? 0) eqn:E0.
  { (* raw *)
    cbn [orb]. apply Z.eqb_eq in E0. subst cSize. rewrite block_header_raw.
    destruct (zlen buf =? bs) eqn:Efull.
    - apply Z.eqb_eq in Efull.
      do 3 eexists. split; [rewrite <- app_assoc; reflexivity | ].
      rewrite (turn_after_header _ _ _ _ _ _ bt_raw bs buf ip1 rest)
        by (rewrite ?decode_header_full_raw, ?Efull; try reflexivity; lia).
      cbv zeta. split; [reflexivity | ].
      cbn [d_emit d_seek d_world d_filesize d_ip]. repeat split; lia.
    - apply Z.eqb_neq in Efull.
      do 3 eexists. split; [rewrite <- app_assoc; reflexivity | ].
      rewrite (turn_after_header _ _ _ _ _ _ bt_raw (zlen buf) buf ip1 rest)
        by (rewrite ?decode_header_short_raw, ?be16_join by lia;
            try reflexivity; lia).
      cbv zeta. split; [reflexivity | ].
      cbn [d_emit d_seek d_world d_filesize d_ip]. repeat split; lia. }
  destruct (cSize =? 1) eqn:E1.
  { (* rle *)
    apply Z.eqb_eq in E1. subst cSize. rewrite block_header_rle.
    cbn [orb andb] in Hok |- *. change (1 <? 1) with false in Hok.
    cbn [andb] in Hok. rewrite orb_false_r in Hok.
    apply andb_true_iff in Hok. destruct Hok as [Hok Hsize].
    apply list_eqb_eq in Hok.
    destruct (zlen buf =? bs) eqn:Efull.
    - apply Z.eqb_eq in Efull. cbn [negb].
      do 3 eexists. split; [reflexivity | ].
      rewrite (turn_after_header _ _ _ _ _ _ bt_rle bs [nth 0 buf 0] ip1 rest)
        by (rewrite ?decode_header_full_rle; try reflexivity;
            change (zlen [nth 0 buf 0]) with 1; lia).
      cbv zeta. rewrite Z.ltb_irrefl. cbn [app nth].
      replace (Z.to_nat bs) with (length buf) by (unfold zlen in Efull; lia).
      rewrite <- Hok. split; [reflexivity | ].
      cbn [d_emit d_seek d_world d_filesize d_ip].
      change (zlen [nth 0 buf 0]) with 1. repeat split; lia.
    - cbn [orb negb] in Hsize |- *. apply Z.eqb_eq in Hsize.
      assert (buf = [nth 0 buf 0]) as Hone.
      { destruct buf as [ | b [ | b' buf']]; unfold zlen in Hsize; simpl in Hsize;
          try lia. reflexivity. }
      rewrite Hsize.
      do 3 eexists. split; [reflexivity | ].
      rewrite (turn_after_header _ _ _ _ _ _ bt_raw 1 [nth 0 buf 0] ip1 rest)
        by (rewrite ?decode_header_short_raw; try reflexivity;
            change (zlen [nth 0 buf 0]) with 1; lia).
      cbv zeta. rewrite <- Hone. split; [reflexivity | ].
      cbn [d_emit d_seek d_world d_filesize d_ip].
      change (zlen [nth 0 buf 0]) with 1. repeat split; lia. }
  (* compressed *)
  cbn [orb andb] in Hok |- *.
  repeat (apply andb_true_iff in Hok; destruct Hok as [Hok ?]).
  tests_to_facts.
  destruct (decompressor (zlen buf) (firstn (Z.to_nat cSize) dst) 0)
    as [r out] eqn:Hdec.
  repeat match goal with
         | H : _ && _ = true |- _ => apply andb_true_iff in H; destruct H
         end.
  tests_to_facts.
  match goal with H : list_eqb out buf = true |- _ => apply list_eqb_eq in H end.
  subst out r.
  rewrite block_header_compressed by lia.
  set (payload := firstn (Z.to_nat cSize) dst) in *.
  assert (zlen payload = cSize) as Hpay by (apply zlen_firstn; lia).
  assert (zlen (salsa20 salsa_global PTR buf) = zlen buf) as Hg
      by apply salsa20_length.
  assert (firstn (Z.to_nat (zlen buf)) (salsa20 salsa_global PTR buf)
          = salsa20 salsa_global PTR buf) as Hall
      by (rewrite <- Hg; apply firstn_zlen).
  destruct (zlen buf =? bs) eqn:Efull.
  - apply Z.eqb_eq in Efull.
    do 3 eexists. split; [cbn [app]; reflexivity | ].
    rewrite (turn_after_header _ _ _ _ _ _ bt_compressed bs payload ip1 rest)
      by (rewrite ?decode_header_full_compressed, ?be16_join, ?Hpay by lia;
          try reflexivity; lia).
    cbv zeta. cbn [d_seek d_index].
    rewrite scrambler_func_no_secret, <- Efull, Hdec.
    destruct (zlen buf <? zlen buf) eqn:E; [apply Z.ltb_lt in E; lia | ].
    match goal with H : FSE_isError (zlen buf) = false |- _ => rewrite H end.
    rewrite Hall. split; [reflexivity | ].
    cbn [d_emit d_seek d_world d_filesize d_ip]. repeat split; lia.
  - apply Z.eqb_neq in Efull.
    do 3 eexists. split; [cbn [app]; reflexivity | ].
    rewrite (turn_after_header _ _ _ _ _ _ bt_compressed (zlen buf) payload ip1 rest)
      by (rewrite ?decode_header_short_compressed, ?be16_join, ?Hpay by lia;
          try reflexivity; lia).
    cbv zeta. cbn [d_seek d_index].
    rewrite scrambler_func_no_secret, Hdec.
    destruct (bs <? zlen buf) eqn:E; [apply Z.ltb_lt in E; lia | ].
    match goal with H : FSE_isError (zlen buf) = false |- _ => rewrite H end.
    rewrite Hall. split; [reflexivity | ].
    cbn [d_emit d_seek d_world d_filesize d_ip]. repeat split; lia.
Qed.

(** A whole run of faithful blocks, followed by a trailer: the decode loop
    writes what [source_back] says and stops at the trailer, with [ip]
    where the trailer can still be stored. *)
Lemma decode_frame_blocks compressor decompressor bs :
  0 < bs <= 65536 ->
  forall fuel f fuel2 st t0 t12,
    (length f < fuel)%nat ->
    blocks_ok fuel compressor decompressor bs f = true ->
    192 <= t0 < 256 ->
    (length (frame_blocks fuel compressor bs f ++ t0 :: t12) <= fuel2)%nat ->
    0 <= d_ip st <= bs + 2 ->
    exists st',
      decode_stream fuel2 decompressor bs None
        (frame_blocks fuel compressor bs f ++ t0 :: t12) st
      = Return (st', t12) (d_world st') /\
      w_written (d_world st')
      = w_written (d_world st) ++ source_back fuel compressor bs f /\
      w_open (d_world st') = w_open (d_world st) /\
      w_heap (d_world st') = w_heap (d_world st) /\
      d_filesize st' = d_filesize st + zlen f /\
      0 <= d_ip st' <= bs + 2.
Proof.
  intros Hbs.
  induction fuel as [ | fuel IH];
    intros f fuel2 st t0 t12 Hfuel Hok Ht0 Hfuel2 Hip; [lia | ].
  cbn [frame_blocks blocks_ok source_back] in *.
  pose proof (fread_app bs f) as Happ.
  pose proof (fread_length bs f ltac:(lia)) as Hlen.
  pose proof (fread_rest_le bs f) as Hrest.
  destruct (fread bs f) as [blk rest]. cbn [fst snd] in *.
  destruct (zlen blk =? 0) eqn:E.
  - apply Z.eqb_eq in E.
    assert (f = []) as ->.
    { destruct f; [reflexivity | unfold zlen in *; simpl in *; lia]. }
    cbn [app] in *. destruct fuel2 as [ | fuel2]; [simpl in Hfuel2; lia | ].
    exists st. unfold decode_stream. rewrite decompress_loop_S.
    unfold decompress_block. rewrite crc_byte_ends_frame by exact Ht0.
    rewrite app_nil_r. repeat split; try lia; unfold zlen; simpl; lia.
  - apply Z.eqb_neq in E. pose proof (zlen_nonneg blk) as Hnn.
    apply andb_true_iff in Hok. destruct Hok as [Hblk Hok].
    destruct (compressor (FSE_compressBound bs) (salsa20 salsa_local PTR blk) 0)
      as [cSize dst] eqn:Hcomp.
    rewrite <- app_assoc in *.
    destruct (frame_blocks fuel compressor bs rest ++ t0 :: t12)
      as [ | ip1 more] eqn:Hmore.
    { destruct (frame_blocks fuel compressor bs rest); discriminate Hmore. }
    destruct (decode_one_block compressor decompressor bs blk cSize dst ip1 more st
                ltac:(lia) ltac:(lia) Hcomp Hblk)
      as (h & t & st1 & Hcons & Hturn & Hw & Hsize & Hip1).
    rewrite Hcons in *.
    destruct fuel2 as [ | fuel2]; [simpl in Hfuel2; lia | ].
    unfold decode_stream at 1. rewrite decompress_loop_S, Hturn.
    assert (length (ip1 :: more) <= fuel2)%nat as Hfuel2'.
    { apply (f_equal (@length Z)) in Hcons. rewrite length_app in Hcons.
      simpl in Hcons, Hfuel2 |- *.
      assert (0 < length (write_cBlock bs (salsa20 salsa_local PTR blk) dst cSize))%nat.
      { unfold write_cBlock.
        pose proof (block_header_length bs
                      (zlen (salsa20 salsa_local PTR blk)) cSize) as Hh.
        simpl in Hh.
        destruct (cSize =? 0), (cSize =? 1); rewrite length_app; lia. }
      lia. }
    assert (length rest < fuel)%nat as Hfuel'.
    { apply (f_equal (@length Z)) in Happ. rewrite length_app in Happ.
      unfold zlen in E. lia. }
    rewrite <- Hmore in Hfuel2'.
    destruct (IH rest fuel2 st1 t0 t12 Hfuel' Hok Ht0 Hfuel2' Hip1)
      as (st' & Hrun & Hwr & Hop & Hhp & Hfs & Hip').
    rewrite Hmore in Hrun. unfold decode_stream in Hrun.
    exists st'. split; [exact Hrun | ].
    rewrite Hwr, Hop, Hhp, Hfs, Hw, Hsize. cbn [w_written w_open w_heap fwrite].
    rewrite <- Happ, <- app_assoc, zlen_app. repeat split; lia.
Qed.

(** The encode loop on a source of faithful blocks, with no secret. *)
Lemma encode_frame_blocks compressor decompressor bs :
  0 < bs ->
  forall fuel f st,
    (length f < fuel)%nat ->
    blocks_ok fuel compressor decompressor bs f = true ->
    exists st',
      compress_loop fuel compressor bs None f st = Return st' (c_world st') /\
      w_written (c_world st')
      = w_written (c_world st) ++ frame_blocks fuel compressor bs f /\
      w_open (c_world st') = w_open (c_world st) /\
      w_heap (c_world st') = w_heap (c_world st) /\
      c_filesize st' = c_filesize st + zlen f /\
      c_compressedfilesize st'
      = c_compressedfilesize st + zlen (frame_blocks fuel compressor bs f) /\
      c_fed st' = c_fed st ++ checksummed fuel bs f.
Proof.
  intros Hbs.
  induction fuel as [ | fuel IH]; intros f st Hfuel Hok; [lia | ].
  rewrite compress_loop_S. cbn [frame_blocks blocks_ok checksummed] in *.
  pose proof (fread_app bs f) as Happ.
  pose proof (fread_length bs f ltac:(lia)) as Hlen.
  destruct (fread bs f) as [blk rest]. cbn [fst snd] in *.
  destruct (zlen blk =? 0) eqn:E.
  - apply Z.eqb_eq in E.
    assert (f = []) as ->.
    { destruct f; [reflexivity | unfold zlen in *; simpl in *; lia]. }
    exists st. rewrite !app_nil_r. repeat split; unfold zlen; simpl; lia.
  - apply Z.eqb_neq in E. pose proof (zlen_nonneg blk) as Hnn.
    apply andb_true_iff in Hok. destruct Hok as [Hblk Hok].
    pose proof (salsa20_length salsa_local PTR blk) as Hbuf.
    destruct (compressor (FSE_compressBound bs) (salsa20 salsa_local PTR blk) 0)
      as [cSize dst] eqn:Hcomp.
    assert (FSE_isError cSize = false /\
            cBlock_size bs (zlen blk) cSize
            = zlen (write_cBlock bs (salsa20 salsa_local PTR blk) dst cSize))
      as (Herr & Hacc).
    { unfold block_ok in Hblk. cbv zeta in Hblk. rewrite Hcomp in Hblk.
      apply andb_true_iff in Hblk. destruct Hblk as [Herr Hcases].
      apply negb_true_iff in Herr. split; [exact Herr | ].
      unfold cBlock_size, write_cBlock. rewrite Hbuf.
      destruct (cSize =? 0) eqn:E0; [rewrite zlen_app; lia | ].
      destruct (cSize =? 1) eqn:E1;
        [rewrite zlen_app;
         change (zlen [nth 0 (salsa20 salsa_local PTR blk) 0]) with 1; lia | ].
      cbn [orb] in Hcases.
      repeat (apply andb_true_iff in Hcases; destruct Hcases as [Hcases ?]).
      tests_to_facts.
      rewrite zlen_app, zlen_firstn by lia. reflexivity. }
    pose proof (compress_block_eq compressor bs None blk st 0 cSize dst eq_refl
                  Hcomp Herr) as Hturn.
    cbv zeta in Hturn. rewrite Hturn.
    assert (length rest < fuel)%nat as Hfuel'.
    { apply (f_equal (@length Z)) in Happ. rewrite length_app in Happ.
      unfold zlen in E. lia. }
    match goal with
    | |- context [compress_loop fuel compressor bs None rest ?s] =>
      destruct (IH rest s Hfuel' Hok) as (st' & Hrun & Hwr & Hop & Hhp & Hfs & Hcs & Hfed)
    end.
    exists st'. split; [exact Hrun | ].
    rewrite Hwr, Hop, Hhp, Hfs, Hcs, Hfed.
    cbn [c_world c_filesize c_compressedfilesize c_fed w_written w_open w_heap fwrite].
    rewrite <- Happ, !zlen_app, Hacc, <- !app_assoc. repeat split; lia.
Qed.

(** With keystreams of zeros every block comes back as it was. *)
Lemma source_back_plain fuel compressor bs f :
  (forall i, salsa_local i = 0) -> (forall i, salsa_global i = 0) ->
  0 < bs -> (length f < fuel)%nat ->
  source_back fuel compressor bs f = f.
Proof.
  intros Hloc Hglo Hbs. revert f.
  induction fuel as [ | fuel IH]; intros f Hfuel; [lia | ].
  cbn [source_back].
  pose proof (fread_app bs f) as Happ.
  pose proof (fread_length bs f ltac:(lia)) as Hlen.
  destruct (fread bs f) as [blk rest]. simpl in Happ, Hlen.
  destruct (zlen blk =? 0) eqn:E.
  - apply Z.eqb_eq in E.
    assert (zlen f = 0) as Hf by lia.
    destruct f; [reflexivity | unfold zlen in Hf; simpl in Hf; lia].
  - apply Z.eqb_neq in E.
    assert (block_back compressor bs blk = blk) as ->.
    { unfold block_back. cbv zeta.
      rewrite (salsa20_zero _ _ _ Hloc), (salsa20_zero _ _ _ Hglo).
      destruct (compressor (FSE_compressBound bs) blk 0) as [cSize dst].
      destruct ((cSize =? 0) || (cSize =? 1) && negb (zlen blk =? bs));
        reflexivity. }
    rewrite IH; [exact Happ | ].
    apply (f_equal (@length Z)) in Happ. rewrite length_app in Happ.
    unfold zlen in E. lia.
Qed.

End RoundTrip.

Section RoundTripFiles.
Context {C : Collaborators}.

Lemma BYTE_small x : 0 <= x < 256 -> BYTE x = x.
Proof. intros H. unfold BYTE. now apply Z.mod_small. Qed.

(** Compression of a source of faithful blocks, and decompression of its
    frame under any trailer that carries the end-of-frame tag. *)
Lemma roundtrip_core e c id src w0 :
  0 <= id <= FIO_maxBlockSizeID ->
  get_fileHandle e world0 = Return src w0 ->
  blocks_ok (S (length src)) (fst (select_compressor c)) (paired_decompressor c)
    (FIO_blockID_to_blockSize id) src = true ->
  exists rep w body,
    FIO_compressFilename e c id None = Return rep w /\
    w_written w
    = body ++ checksum_block
                (XXH32 FSE_CHECKSUM_SEED
                   (checksummed (S (length src)) (FIO_blockID_to_blockSize id) src)) /\
    w_open w = [] /\ w_heap w = [] /\
    r_filesize rep = zlen src /\
    r_compressedfilesize rep = zlen (w_written w) /\
    forall t0 t1 t2 e' w0',
      192 <= t0 < 256 ->
      get_fileHandle e' world0 = Return (body ++ [t0; t1; t2]) w0' ->
      exists rep',
        FIO_decompressFilename e' None
        = Return rep'
            {| w_written := source_back (S (length src)) (fst (select_compressor c))
                              (FIO_blockID_to_blockSize id) src;
               w_open := []; w_heap := [] |} /\
        r_decoded rep' = zlen src.
Proof.
  intros Hid Hget Hok.
  pose proof (blockSize_bounds id Hid) as Hbs.
  pose proof (get_fileHandle_returns _ _ _ Hget) as ->.
  set (bs := FIO_blockID_to_blockSize id) in *.
  pose proof (select_paired_decompressor c) as Hsel.
  pose proof (readLE32_magic c) as Hmagic.
  unfold FIO_compressFilename. rewrite Hget. fold bs.
  destruct (select_compressor c) as [compressor magic]. cbn [fst snd] in *.
  destruct (bs =? 0) eqn:E; [apply Z.eqb_eq in E; lia | ].
  match goal with
  | |- context [compress_loop _ _ _ _ _ ?s] =>
    destruct (encode_frame_blocks compressor (paired_decompressor c) bs
                ltac:(lia) (S (length src)) src s ltac:(lia) Hok)
      as (st' & Hrun & Hwr & Hop & Hhp & Hfs & Hcs & Hfed)
  end.
  rewrite Hrun.
  cbn [c_world c_filesize c_compressedfilesize c_fed w_written w_open w_heap
       fwrite malloc both_open app] in Hwr, Hop, Hhp, Hfs, Hcs, Hfed.
  rewrite (BYTE_small id) in Hwr by (unfold FIO_maxBlockSizeID in Hid; lia).
  set (blocks := frame_blocks (S (length src)) compressor bs src) in *.
  do 2 eexists. exists ((FIO_writeLE32 magic ++ [id]) ++ blocks).
  split; [reflexivity | ].
  cbn [w_written w_open w_heap fclose free_all fwrite r_filesize
       r_compressedfilesize].
  rewrite Hwr, Hop, Hfed, Hfs, Hcs.
  split; [reflexivity | ]. split; [reflexivity | ]. split; [reflexivity | ].
  split; [lia | ].
  split.
  { rewrite !zlen_app. change (zlen (FIO_writeLE32 magic)) with 4.
    change (zlen [id]) with 1. change (zlen (checksum_block _)) with 3.
    unfold FIO_FRAMEHEADERSIZE. lia. }
  intros t0 t1 t2 e' w0' Ht0 Hget'.
  pose proof (get_fileHandle_returns _ _ _ Hget') as ->.
  unfold FIO_decompressFilename. rewrite Hget'.
  rewrite <- !app_assoc.
  rewrite (app_assoc (FIO_writeLE32 magic) [id]).
  rewrite (fread_app_exact FIO_FRAMEHEADERSIZE) by reflexivity.
  change (zlen (FIO_writeLE32 magic ++ [id]) =? FIO_FRAMEHEADERSIZE) with true.
  change (FIO_readLE32 (FIO_writeLE32 magic ++ [id]))
    with (FIO_readLE32 (FIO_writeLE32 magic)).
  rewrite Hmagic, Hsel.
  change (nth 4 (FIO_writeLE32 magic ++ [id]) 0) with id.
  destruct (FIO_maxBlockSizeID <? id) eqn:E1; [apply Z.ltb_lt in E1; lia | ].
  cbn [negb]. fold bs.
  destruct (blocks ++ [t0; t1; t2]) as [ | ip0 f] eqn:Hstream.
  { destruct blocks; discriminate Hstream. }
  change (fread 1 (ip0 :: f)) with ([ip0], f).
  change (zlen [ip0] =? 1) with true. cbn [negb nth].
  match goal with
  | |- context [decompress_loop _ _ _ _ _ _ ?s] =>
    destruct (decode_frame_blocks compressor (paired_decompressor c) bs
                ltac:(lia) (S (length src)) src (S (length f)) s t0 [t1; t2]
                ltac:(lia) Hok Ht0)
      as (dst' & Hdec & Hdw & Hdo & Hdh & Hdf & Hdi)
  end.
  { fold blocks. rewrite Hstream. simpl. lia. }
  { cbn [d_ip]. lia. }
  fold blocks in Hdec. rewrite Hstream in Hdec. unfold decode_stream in Hdec.
  rewrite Hdec.
  change (fread 2 [t1; t2]) with ([t1; t2], @nil Z). cbv beta iota.
  change (zlen [t1; t2]) with 2.
  destruct (bs + FIO_maxBlockHeaderSize <? d_ip dst' + 1 + 2) eqn:Eip;
    [apply Z.ltb_lt in Eip; unfold FIO_maxBlockHeaderSize in Eip; lia | ].
  change (2 =? 2) with true. cbn [negb].
  cbn [d_world d_filesize w_written w_open w_heap malloc both_open app]
    in Hdw, Hdo, Hdh, Hdf.
  eexists. split.
  - f_equal. unfold fclose, free_all. cbn [w_written w_open w_heap].
    rewrite Hdw, Hdo. reflexivity.
  - cbn [r_decoded]. rewrite Hdf. lia.
Qed.

(** X4. What comes back from the simple format, with no secret. [buf]
    being a block of the source after the cipher pass of the encoder: when
    on every block the compressor answers 0, or answers 1 on a [buf] of
    one repeated byte that is full or one byte long, or answers a
    compressed size that the size field and the input buffer of the
    decoder have room for and from which the paired decompressor gives
    [buf] back, then compression succeeds, reads the whole source,
    returns the number of bytes it wrote and leaves nothing open; and
    decompression of the frame returns and writes, for each block framed
    raw, [buf], and for each block framed rle or compressed, [buf] after
    the cipher pass of the decoder. With keystreams of zeros this is the
    source: the round trip holds. *)
Theorem roundtrip_of_faithful_blocks e c id src w0 :
  0 <= id <= FIO_maxBlockSizeID ->
  get_fileHandle e world0 = Return src w0 ->
  blocks_ok (S (length src)) (fst (select_compressor c)) (paired_decompressor c)
    (FIO_blockID_to_blockSize id) src = true ->
  let back := source_back (S (length src)) (fst (select_compressor c))
                (FIO_blockID_to_blockSize id) src in
  exists rep w,
    FIO_compressFilename e c id None = Return rep w /\
    w_open w = [] /\ w_heap w = [] /\
    r_filesize rep = zlen src /\
    r_compressedfilesize rep = zlen (w_written w) /\
    (forall e' w0',
      get_fileHandle e' world0 = Return (w_written w) w0' ->
      exists rep',
        FIO_decompressFilename e' None
        = Return rep' {| w_written := back; w_open := []; w_heap := [] |} /\
        r_decoded rep' = zlen src) /\
    ((forall i, salsa_local i = 0) -> (forall i, salsa_global i = 0) ->
     back = src).
Proof.
  intros Hid Hget Hok back.
  destruct (roundtrip_core e c id src w0 Hid Hget Hok)
    as (rep & w & body & Henc & Hw & Hop & Hhp & Hfs & Hcs & Hdec).
  exists rep, w. repeat (split; [assumption | ]).
  split.
  2:{ intros Hloc Hglo. apply source_back_plain; try assumption; [ | lia].
      pose proof (blockSize_bounds id Hid). lia. }
  intros e' w0' Hget'. rewrite Hw in Hget'.
  match type of Hget' with
  | context [checksum_block ?digest] =>
    destruct (checksum_block_format digest) as (b0 & b1 & b2 & Hb & Htag & _);
    rewrite Hb in Hget';
    apply (Hdec b0 b1 b2 e' w0'); [ | exact Hget'];
    assert (b0 = nth 0 (checksum_block digest) 0) as Hb0
        by (rewrite Hb; reflexivity);
    unfold checksum_block in Hb0; cbn [nth] in Hb0;
    set (checksum := Z.land (Z.shiftr digest 5) (Z.shiftl 1 22 - 1)) in *
  end.
  assert (0 <= checksum < 2 ^ 22) as Hc.
  { unfold checksum. change (Z.shiftl 1 22 - 1) with (Z.ones 22).
    rewrite Z.land_ones by lia. apply Z.mod_pos_bound. lia. }
  change (Z.shiftl (bt bt_crc) 6) with 192 in Hb0.
  rewrite Z.shiftr_div_pow2 in Hb0 by lia. change (2 ^ 16) with 65536 in Hb0.
  change (2 ^ 22) with 4194304 in Hc.
  assert (0 <= checksum / 65536 < 64) as H16.
  { split; [apply Z.div_pos; lia | apply Z.div_lt_upper_bound; lia]. }
  rewrite BYTE_small in Hb0 by lia. lia.
Qed.

(** X5. The checksum is not verified. Under the conditions of X4, the
    frame decodes to the same bytes, without error, when its trailer is
    replaced by any three bytes that carry the end-of-frame tag: the 22
    bits of checksum are read and compared with nothing. *)
Theorem checksum_is_not_verified e c id src w0 :
  0 <= id <= FIO_maxBlockSizeID ->
  get_fileHandle e world0 = Return src w0 ->
  blocks_ok (S (length src)) (fst (select_compressor c)) (paired_decompressor c)
    (FIO_blockID_to_blockSize id) src = true ->
  let back := source_back (S (length src)) (fst (select_compressor c))
                (FIO_blockID_to_blockSize id) src in
  exists rep w body,
    FIO_compressFilename e c id None = Return rep w /\
    w_written w
    = body ++ checksum_block
                (XXH32 FSE_CHECKSUM_SEED
                   (checksummed (S (length src)) (FIO_blockID_to_blockSize id) src)) /\
    (forall t0 t1 t2 e' w0',
      192 <= t0 < 256 ->
      get_fileHandle e' world0 = Return (body ++ [t0; t1; t2]) w0' ->
      exists rep',
        FIO_decompressFilename e' None
        = Return rep' {| w_written := back; w_open := []; w_heap := [] |}) /\
    ((forall i, salsa_local i = 0) -> (forall i, salsa_global i = 0) ->
     back = src).
Proof.
  intros Hid Hget Hok back.
  destruct (roundtrip_core e c id src w0 Hid Hget Hok)
    as (rep & w & body & Henc & Hw & _ & _ & _ & _ & Hdec).
  exists rep, w, body. split; [exact Henc | ]. split; [exact Hw | ].
  split.
  2:{ intros Hloc Hglo. apply source_back_plain; try assumption; [ | lia].
      pose proof (blockSize_bounds id Hid). lia. }
  intros t0 t1 t2 e' w0' Ht0 Hget'.
  destruct (Hdec t0 t1 t2 e' w0' Ht0 Hget') as (rep' & Hrun & _).
  exists rep'. exact Hrun.
Qed.

End RoundTripFiles.

Lemma roundtrip_of_faithful_blocks_witness :
  let back := source_back (C := plain) (S (length sample_source))
                (fst (select_compressor (C := plain) FIO_fse))
                (FIO_blockID_to_blockSize 0) sample_source in
  exists rep w,
    FIO_compressFilename (C := plain) (sample_file sample_source) FIO_fse 0 None
    = Return rep w /\
    w_open w = [] /\ w_heap w = [] /\
    r_filesize rep = zlen sample_source /\
    r_compressedfilesize rep = zlen (w_written w) /\
    (forall e' w0',
      get_fileHandle e' world0 = Return (w_written w) w0' ->
      exists rep',
        FIO_decompressFilename (C := plain) e' None
        = Return rep' {| w_written := back; w_open := []; w_heap := [] |} /\
        r_decoded rep' = zlen sample_source) /\
    back = sample_source.
Proof.
  intros back.
  destruct (roundtrip_of_faithful_blocks (C := plain)
              (sample_file sample_source) FIO_fse 0 sample_source both_open)
    as (rep & w & Henc & Hop & Hhp & Hfs & Hcs & Hdec & Hback).
  - unfold FIO_maxBlockSizeID. lia.
  - reflexivity.
  - vm_compute. reflexivity.
  - exists rep, w. repeat (split; [assumption | ]).
    apply Hback; intros i; reflexivity.
Defined.

Lemma checksum_is_not_verified_witness :
  let back := source_back (C := plain) (S (length sample_source))
                (fst (select_compressor (C := plain) FIO_fse))
                (FIO_blockID_to_blockSize 0) sample_source in
  exists rep w body,
    FIO_compressFilename (C := plain) (sample_file sample_source) FIO_fse 0 None
    = Return rep w /\
    w_written w
    = body ++ checksum_block
                (@XXH32 plain FSE_CHECKSUM_SEED
                   (checksummed (C := plain) (S (length sample_source))
                      (FIO_blockID_to_blockSize 0) sample_source)) /\
    (forall t0 t1 t2 e' w0',
      192 <= t0 < 256 ->
      get_fileHandle e' world0 = Return (body ++ [t0; t1; t2]) w0' ->
      exists rep',
        FIO_decompressFilename (C := plain) e' None
        = Return rep' {| w_written := back; w_open := []; w_heap := [] |}) /\
    back = sample_source.
Proof.
  intros back.
  destruct (checksum_is_not_verified (C := plain)
              (sample_file sample_source) FIO_fse 0 sample_source both_open)
    as (rep & w & body & Henc & Hw & Hdec & Hback).
  - unfold FIO_maxBlockSizeID. lia.
  - reflexivity.
  - vm_compute. reflexivity.
  - exists rep, w, body. repeat (split; [assumption | ]).
    apply Hback; intros i; reflexivity.
Defined.

(** ** Simple format: declared sizes *)

Section DeclaredSizes.
Context {C : Collaborators}.


End DeclaredSizes.



(** ** Simple format: edge cases *)

Section SimpleEdges.
Context {C : Collaborators}.

(** X6. An empty source. Whatever the coders and the secret (the
    scrambler is not called), compression writes the five bytes of the
    frame header and the trailer of the empty checksum and returns 8;
    decompression of these eight bytes, under any secret, writes nothing
    and returns 0. *)
Theorem empty_source_roundtrip e c id password w0 :
  0 <= id <= FIO_maxBlockSizeID ->
  get_fileHandle e world0 = Return [] w0 ->
  let frame := FIO_writeLE32 (snd (select_compressor c)) ++ [id]
               ++ checksum_block (XXH32 FSE_CHECKSUM_SEED []) in
  FIO_compressFilename e c id password
  = Return {| r_compressedfilesize := 8; r_filesize := 0;
              r_fed := []; r_trace := [] |}
           {| w_written := frame; w_open := []; w_heap := [] |} /\
  forall e' password' w0',
    get_fileHandle e' world0 = Return frame w0' ->
    FIO_decompressFilename e' password'
    = Return {| r_decoded := 0; r_dtrace := [] |}
             {| w_written := []; w_open := []; w_heap := [] |}.
Proof.
  intros Hid Hget frame.
  pose proof (blockSize_bounds id Hid) as Hbs.
  pose proof (get_fileHandle_returns _ _ _ Hget) as ->.
  pose proof (select_paired_decompressor c) as Hsel.
  pose proof (readLE32_magic c) as Hmagic.
  subst frame.
  split.
  - unfold FIO_compressFilename. rewrite Hget.
    destruct (select_compressor c) as [compressor magic]. cbn [snd].
    destruct (FIO_blockID_to_blockSize id =? 0) eqn:E; [apply Z.eqb_eq in E; lia | ].
    cbn [length]. rewrite compress_loop_S, fread_nil.
    change (zlen [] =? 0) with true. cbv iota.
    rewrite (BYTE_small id) by (unfold FIO_maxBlockSizeID in Hid; lia).
    unfold fclose, free_all, fwrite, malloc, both_open.
    cbn [w_written w_open w_heap c_world c_fed c_trace c_filesize
         c_compressedfilesize filter handle_eqb negb app].
    rewrite <- app_assoc. reflexivity.
  - intros e' password' w0' Hget'.
    pose proof (get_fileHandle_returns _ _ _ Hget') as ->.
    unfold FIO_decompressFilename. rewrite Hget'.
    rewrite app_assoc, (fread_app_exact FIO_FRAMEHEADERSIZE) by reflexivity.
    change (zlen (FIO_writeLE32 (snd (select_compressor c)) ++ [id])
            =? FIO_FRAMEHEADERSIZE) with true.
    change (FIO_readLE32 (FIO_writeLE32 (snd (select_compressor c)) ++ [id]))
      with (FIO_readLE32 (FIO_writeLE32 (snd (select_compressor c)))).
    rewrite Hmagic, Hsel.
    change (nth 4 (FIO_writeLE32 (snd (select_compressor c)) ++ [id]) 0) with id.
    destruct (FIO_maxBlockSizeID <? id) eqn:E; [apply Z.ltb_lt in E; lia | ].
    cbn [negb].
    set (crc := checksum_block (XXH32 FSE_CHECKSUM_SEED [])).
    change (fread 1 crc) with ([nth 0 crc 0], [nth 1 crc 0; nth 2 crc 0]).
    change (zlen [nth 0 crc 0] =? 1) with true. cbn [negb].
    change (nth 0 [nth 0 crc 0] 0) with (nth 0 crc 0).
    change (length [nth 1 crc 0; nth 2 crc 0]) with 2%nat.
    rewrite decompress_loop_S. unfold decompress_block.
    subst crc. rewrite checksum_block_is_crc.
    match goal with
    | |- context [fread 2 ?t] => change (fread 2 t) with (t, @nil Z)
    end.
    cbv beta iota. cbn [d_ip].
    match goal with
    | |- context [zlen [?a; ?b]] => change (zlen [a; b]) with 2
    end.
    destruct (FIO_blockID_to_blockSize id + FIO_maxBlockHeaderSize <? 0 + 1 + 2)
      eqn:Eip;
      [apply Z.ltb_lt in Eip; unfold FIO_maxBlockHeaderSize in Eip; lia | ].
    reflexivity.
Qed.

(** X7. The preamble of a frame. A source of fewer than five bytes is the
    read error 30; a known magic number followed by a block size
    identifier above 6 is the error 32; a preamble with nothing after it
    is the read error 34. In each case nothing has been written. *)
Theorem preamble_errors e password src w0 :
  get_fileHandle e world0 = Return src w0 ->
  w_written w0 = [] /\
  (zlen src < FIO_FRAMEHEADERSIZE ->
   FIO_decompressFilename e password = Exit 30 w0) /\
  (FIO_FRAMEHEADERSIZE <= zlen src ->
   select_decompressor (FIO_readLE32 src) <> None ->
   (FIO_maxBlockSizeID < nth 4 src 0 ->
    FIO_decompressFilename e password = Exit 32 w0) /\
   (nth 4 src 0 <= FIO_maxBlockSizeID -> zlen src = FIO_FRAMEHEADERSIZE ->
    FIO_decompressFilename e password
    = Exit 34 (malloc out_buff (malloc in_buff w0)))).
Proof.
  intros Hget.
  pose proof (get_fileHandle_returns _ _ _ Hget) as ->.
  split; [reflexivity | ].
  unfold FIO_decompressFilename. rewrite Hget.
  pose proof (fread_length FIO_FRAMEHEADERSIZE src ltac:(unfold FIO_FRAMEHEADERSIZE; lia))
    as Hl.
  pose proof (fread_app FIO_FRAMEHEADERSIZE src) as Happ.
  destruct (fread FIO_FRAMEHEADERSIZE src) as [header f]. cbn [fst snd] in *.
  unfold FIO_FRAMEHEADERSIZE in *.
  split.
  - intros Hshort.
    destruct (zlen header =? 5) eqn:E; [apply Z.eqb_eq in E; lia | reflexivity].
  - intros Hlong Hknown.
    rewrite Z.min_l in Hl by lia. rewrite Hl. cbn [Z.eqb Pos.eqb negb].
    assert (exists a b c d i, header = [a; b; c; d; i]) as (a & b & c & d & i & ->).
    { destruct header as [ | a [ | b [ | c [ | d [ | i [ | x header]]]]]];
        unfold zlen in Hl; simpl in Hl; try lia. do 5 eexists. reflexivity. }
    subst src. cbn [app nth] in *.
    change (FIO_readLE32 (a :: b :: c :: d :: i :: f))
      with (FIO_readLE32 [a; b; c; d; i]) in Hknown.
    destruct (select_decompressor (FIO_readLE32 [a; b; c; d; i]));
      [ | contradiction].
    split.
    + intros Hbig.
      destruct (FIO_maxBlockSizeID <? i) eqn:E; [reflexivity | ].
      apply Z.ltb_ge in E. lia.
    + intros Hsmall Hfive.
      destruct (FIO_maxBlockSizeID <? i) eqn:E; [apply Z.ltb_lt in E; lia | ].
      assert (f = []) as ->.
      { destruct f; [reflexivity | unfold zlen in Hfive; simpl in Hfive; lia]. }
      reflexivity.
Qed.

End SimpleEdges.

Lemma empty_source_roundtrip_witness :
  let frame := [9; 51; 62; 24; 5; 192; 0; 0] in
  FIO_compressFilename (C := plain) (sample_file []) FIO_huff0 5 (Some ""%string)
  = Return {| r_compressedfilesize := 8; r_filesize := 0;
              r_fed := []; r_trace := [] |}
           {| w_written := frame; w_open := []; w_heap := [] |} /\
  forall e' password' w0',
    get_fileHandle e' world0 = Return frame w0' ->
    FIO_decompressFilename (C := plain) e' password'
    = Return {| r_decoded := 0; r_dtrace := [] |}
             {| w_written := []; w_open := []; w_heap := [] |}.
Proof.
  apply (empty_source_roundtrip (C := plain) (sample_file []) FIO_huff0 5
           (Some ""%string) both_open).
  - unfold FIO_maxBlockSizeID. lia.
  - reflexivity.
Defined.

Lemma preamble_errors_witness :
  FIO_decompressFilename (C := plain) (sample_file [9; 35; 62]) None
    = Exit 30 both_open /\
  FIO_decompressFilename (C := plain) (sample_file [9; 35; 62; 24; 7; 192; 0; 0]) None
    = Exit 32 both_open /\
  FIO_decompressFilename (C := plain) (sample_file [9; 35; 62; 24; 6]) None
    = Exit 34 starved.
Proof.
  split; [ | split].
  - destruct (preamble_errors (C := plain) (sample_file [9; 35; 62]) None
                [9; 35; 62] both_open eq_refl) as (_ & Hshort & _).
    apply Hshort. vm_compute. reflexivity.
  - destruct (preamble_errors (C := plain)
                (sample_file [9; 35; 62; 24; 7; 192; 0; 0]) None
                [9; 35; 62; 24; 7; 192; 0; 0] both_open eq_refl) as (_ & _ & Hlong).
    destruct Hlong as (Hbig & _).
    + vm_compute. discriminate.
    + vm_compute. discriminate.
    + apply Hbig. vm_compute. reflexivity.
  - destruct (preamble_errors (C := plain) (sample_file [9; 35; 62; 24; 6]) None
                [9; 35; 62; 24; 6] both_open eq_refl) as (_ & _ & Hlong).
    destruct Hlong as (_ & Hfive).
    + vm_compute. discriminate.
    + vm_compute. discriminate.
    + apply Hfive; vm_compute; [discriminate | reflexivity].
Defined.

(** ** Opening the files *)

(** X8. [get_fileHandle] refuses with code 11 exactly when the destination
    is a file other than the null one, it exists, overwriting is not
    allowed, and either no interaction is possible (display level at most
    1) or the answer at the prompt is not 'Y' or 'y'. The destination has
    then not been opened for writing and nothing has been written. *)
Theorem get_fileHandle_refusal e w :
  ((exists w', get_fileHandle e w = Exit 11 w') <->
   (is_stdoutmark (e_output e) = false /\ is_nulmark (e_output e) = false /\
    e_dst_exists e = true /\ g_overwrite e = false /\
    (g_displayLevel e <= 1 \/ ~ answers_yes e))) /\
  (forall w', get_fileHandle e w = Exit 11 w' ->
              w_written w' = w_written w /\ w_heap w' = w_heap w /\
              (w_open w' = w_open w \/ w_open w' = finput :: w_open w)).
Proof.
  unfold get_fileHandle, answers_yes.
  set (ch := fst (getchar (e_keys e))).
  destruct (is_stdinmark (e_input e)), (e_source e) as [bytes | ],
    (is_stdoutmark (e_output e)), (is_nulmark (e_output e)),
    (e_dst_exists e), (g_overwrite e), (e_dst_writable e);
    cbn [andb orb negb];
    destruct (Z.leb_spec (g_displayLevel e) 1);
    destruct (Z.eqb_spec ch 89); destruct (Z.eqb_spec ch 121);
    cbn [andb orb negb];
    (split;
     [ split;
       [ intros (w' & Hx);
         first [ discriminate Hx
               | repeat split; solve [reflexivity | left; lia
                                     | right; intros [? | ?]; lia] ]
       | intros (Ha & Hb & Hc & Hd & He);
         first [ discriminate
               | eexists; reflexivity
               | exfalso; destruct He as [He | He];
                 [lia | apply He; auto] ] ]
     | intros w' Hx;
       first [ discriminate Hx | inversion Hx; subst; simpl; auto ] ]).
Qed.

(** X9. A source that cannot be opened is reported by [get_fileHandle]
    (code 12) only after the destination has been dealt with: when the
    destination is not refused and can be opened, it has been opened for
    writing by the time the process exits. *)
Theorem get_fileHandle_missing_source e w :
  is_stdinmark (e_input e) = false -> e_source e = None ->
  is_stdoutmark (e_output e) = true
  \/ (e_dst_writable e = true /\ (e_dst_exists e = false \/ g_overwrite e = true)) ->
  get_fileHandle e w = Exit 12 (fopen foutput w).
Proof.
  intros Hin Hsrc Hdst. unfold get_fileHandle. rewrite Hin, Hsrc.
  destruct Hdst as [-> | (-> & [-> | ->])]; [reflexivity | | ].
  - destruct (is_stdoutmark (e_output e)); [reflexivity | ].
    rewrite andb_false_r. reflexivity.
  - destruct (is_stdoutmark (e_output e)); [reflexivity | ].
    cbn [negb]. rewrite andb_false_r. reflexivity.
Qed.


(** X10. [FIO_getFiles] looks at the source first. It returns 1 either
    because the source cannot be opened, and then it has touched nothing,
    or because an existing destination may not be overwritten, and then
    the source is left open; the only code it throws is 13. When the
    source is standard input, an existing destination is refused without
    a prompt unless overwriting is allowed. *)
Theorem FIO_getFiles_outcomes e w :
  (forall w', FIO_getFiles e w = GF_fail w' ->
     (is_stdinmark (e_input e) = false /\ e_source e = None /\ w' = w)
     \/ (is_stdoutmark (e_output e) = false /\ g_overwrite e = false /\
         e_dst_exists e = true /\ w' = fopen finput w)) /\
  (forall code w', FIO_getFiles e w = GF_throw code w' ->
     code = 13 /\ e_dst_writable e = false /\ w' = fopen finput w) /\
  (forall src w', FIO_getFiles e w = GF_ok src w' ->
     w' = fopen foutput (fopen finput w) /\
     (is_stdoutmark (e_output e) = true \/ e_dst_writable e = true) /\
     (if is_stdinmark (e_input e) then src = e_stdin e
      else e_source e = Some src)) /\
  (is_stdinmark (e_input e) = true -> is_stdoutmark (e_output e) = false ->
   e_dst_exists e = true -> g_overwrite e = false ->
   FIO_getFiles e w = GF_fail (fopen finput w)).
Proof.
  unfold FIO_getFiles.
  destruct (is_stdinmark (e_input e)), (e_source e) as [bytes | ],
    (is_stdoutmark (e_output e)), (e_dst_exists e), (g_overwrite e),
    (e_dst_writable e);
    cbn [andb orb negb];
    try destruct (g_displayLevel e <=? 1); cbn [andb orb negb];
    try destruct (getchar (flush_line (e_keys e))) as [ch keys];
    try destruct (fst (getchar keys) =? 10); cbn [andb orb negb];
    try destruct (ch =? 89); try change (78 =? 89) with false;
    try destruct (ch =? 121); try change (78 =? 121) with false;
    cbn [andb orb negb];
    (split;
     [ intros w' Hx; first [discriminate Hx | inversion Hx; subst; auto 10]
     | split;
       [ intros cd w' Hx; first [discriminate Hx | inversion Hx; subst; auto]
       | split;
         [ intros src w' Hx;
           first [discriminate Hx | inversion Hx; subst; auto]
         | intros Ha Hb Hc Hd; first [discriminate | reflexivity] ] ] ]).
Qed.

(** X11. [FIO_loadFile] on a file whose size is reported as it is and on
    which [fseek] succeeds gives at most [MAX_DICT_SIZE] bytes, and they
    are the last bytes of the file: the whole file when it is not larger.
    Such a file is refused only when it is above 1 GB (code 32). A file
    that cannot be opened is code 31, a failing [fseek] on a file above
    [MAX_DICT_SIZE] is code 33, a file that gives fewer bytes than its
    reported size is code 35, and a file reported with size 0 (as one that
    is not a regular file) gives no byte. *)
Theorem FIO_loadFile_keeps_the_end bytes :
  (forall d, FIO_loadFile (Some (dict_file (zlen bytes) bytes true)) = inr d ->
     zlen d <= MAX_DICT_SIZE /\
     (exists dropped, bytes = dropped ++ d) /\
     (zlen bytes <= MAX_DICT_SIZE -> d = bytes) /\
     (MAX_DICT_SIZE <= zlen bytes -> zlen d = MAX_DICT_SIZE)) /\
  (forall code, FIO_loadFile (Some (dict_file (zlen bytes) bytes true)) = inl code ->
     code = 32 /\ Z.shiftl 1 30 < zlen bytes) /\
  (Z.shiftl 1 30 < zlen bytes ->
   FIO_loadFile (Some (dict_file (zlen bytes) bytes true)) = inl 32) /\
  FIO_loadFile (Some dict_missing) = inl 31 /\
  (forall size, MAX_DICT_SIZE < size <= Z.shiftl 1 30 ->
     FIO_loadFile (Some (dict_file size bytes false)) = inl 33) /\
  (forall size seekable, zlen bytes < size <= MAX_DICT_SIZE ->
     FIO_loadFile (Some (dict_file size bytes seekable)) = inl 35) /\
  (forall seekable, FIO_loadFile (Some (dict_file 0 bytes seekable)) = inr []).
Proof.
  assert (0 < MAX_DICT_SIZE < Z.shiftl 1 30) as Hmax
    by (vm_compute; split; reflexivity).
  assert (forall n (l : list Z), zlen l <= n -> fread n l = (l, [])) as Hall.
  { intros n l Hn. unfold fread, zlen in *.
    rewrite firstn_all2, skipn_all2 by lia. reflexivity. }
  assert (0 <= zlen bytes) as Hpos by (unfold zlen; lia).
  split; [ | split; [ | split; [ | split; [ | split; [ | split]]]]].
  - unfold FIO_loadFile.
    destruct (Z.ltb_spec MAX_DICT_SIZE (zlen bytes)) as [Hbig | Hsmall];
      [destruct (Z.ltb_spec (Z.shiftl 1 30) (zlen bytes)) as [Hhuge | Hfits] | ].
    + intros d Hx; discriminate Hx.
    + cbn [negb].
      set (n := Z.to_nat (zlen bytes - MAX_DICT_SIZE)).
      assert (zlen (skipn n bytes) = MAX_DICT_SIZE) as Hlen.
      { unfold zlen in *. rewrite length_skipn. lia. }
      rewrite Hall by lia. rewrite Hlen, Z.eqb_refl. cbn [negb].
      intros d Hx. inversion Hx as [Hd]. clear Hx.
      split; [lia | ]. split; [ | split; [lia | intros _; exact Hlen]].
      exists (firstn n bytes). symmetry. apply firstn_skipn.
    + rewrite Hall by lia. rewrite Z.eqb_refl. cbn [negb].
      intros d Hx. inversion Hx; subst d.
      split; [lia | ]. split; [exists []; reflexivity | ].
      split; [reflexivity | lia].
  - unfold FIO_loadFile.
    destruct (Z.ltb_spec MAX_DICT_SIZE (zlen bytes)) as [Hbig | Hsmall];
      [destruct (Z.ltb_spec (Z.shiftl 1 30) (zlen bytes)) as [Hhuge | Hfits] | ].
    + intros code Hx. inversion Hx. split; [reflexivity | exact Hhuge].
    + cbn [negb].
      set (n := Z.to_nat (zlen bytes - MAX_DICT_SIZE)).
      assert (zlen (skipn n bytes) = MAX_DICT_SIZE) as Hlen.
      { unfold zlen in *. rewrite length_skipn. lia. }
      rewrite Hall by lia. rewrite Hlen, Z.eqb_refl. cbn [negb].
      intros code Hx; discriminate Hx.
    + rewrite Hall by lia. rewrite Z.eqb_refl. cbn [negb].
      intros code Hx; discriminate Hx.
  - intros Hhuge. unfold FIO_loadFile.
    destruct (Z.ltb_spec MAX_DICT_SIZE (zlen bytes)) as [Hbig | Hsmall]; [ | lia].
    destruct (Z.ltb_spec (Z.shiftl 1 30) (zlen bytes)) as [_ | Hfits];
      [reflexivity | lia].
  - reflexivity.
  - intros size Hsize. unfold FIO_loadFile.
    destruct (Z.ltb_spec MAX_DICT_SIZE size) as [_ | Hsmall]; [ | lia].
    destruct (Z.ltb_spec (Z.shiftl 1 30) size) as [Hhuge | _]; [lia | ].
    reflexivity.
  - intros size seekable Hsize. unfold FIO_loadFile.
    destruct (Z.ltb_spec MAX_DICT_SIZE size) as [Hbig | _]; [lia | ].
    rewrite Hall by lia.
    destruct (Z.eqb_spec (zlen bytes) size) as [Heq | _]; [lia | reflexivity].
  - intros seekable. unfold FIO_loadFile.
    destruct (Z.ltb_spec MAX_DICT_SIZE 0) as [Hbig | _]; [lia | ].
    reflexivity.
Qed.


Lemma get_fileHandle_refusal_witness :
  exists w', get_fileHandle (existing_destination [110; 10]) world0 = Exit 11 w'.
Proof.
  apply (proj1 (get_fileHandle_refusal (existing_destination [110; 10]) world0)).
  repeat split; try reflexivity.
  right. unfold answers_yes. simpl. intros [H | H]; discriminate H.
Defined.

Lemma get_fileHandle_missing_source_witness :
  get_fileHandle missing_source world0 = Exit 12 (fopen foutput world0).
Proof.
  apply get_fileHandle_missing_source; [reflexivity | reflexivity | ].
  right. split; [reflexivity | left; reflexivity].
Defined.

Lemma FIO_getFiles_outcomes_witness :
  FIO_getFiles piped_to_existing world0 = GF_fail (fopen finput world0).
Proof.
  apply (proj2 (proj2 (proj2 (FIO_getFiles_outcomes piped_to_existing world0))));
    reflexivity.
Defined.

Lemma FIO_loadFile_keeps_the_end_witness :
  zlen [1; 2; 3] <= MAX_DICT_SIZE /\
  (exists dropped, [1; 2; 3] = dropped ++ [1; 2; 3]) /\
  (zlen [1; 2; 3] <= MAX_DICT_SIZE -> [1; 2; 3] = [1; 2; 3]) /\
  (MAX_DICT_SIZE <= zlen [1; 2; 3] -> zlen [1; 2; 3] = MAX_DICT_SIZE).
Proof.
  apply (proj1 (FIO_loadFile_keeps_the_end [1; 2; 3]) [1; 2; 3]). reflexivity.
Defined.

(** ** Headers: where the round trip holds *)

(** X12. For a valid block description, decoding the header that the
    encoder writes gives the description back exactly when the block is
    not an rle block shorter than the nominal size: the five other header
    shapes round-trip, whatever bytes follow the header. *)
Theorem header_roundtrip_exactly nominal x tail :
  nominal_size nominal -> valid_desc nominal x ->
  (decodeHeader nominal (encodeHeader nominal x ++ tail) = Some (x, tail)
   <-> (bd_type x = bt_rle -> bd_full x = true)).
Proof.
  intros Hn Hv. split.
  - intros Hdec Hrle. destruct (bd_full x) eqn:Ef; [reflexivity | exfalso].
    destruct Hv as (Hr & Hfull & Ht). apply nominal_bounds in Hn.
    destruct x as [t full r c]; simpl in *. subst t full.
    unfold encodeHeader, bd_code in Hdec; simpl in Hdec.
    rewrite block_header_rle in Hdec.
    destruct (r =? nominal) eqn:E.
    + apply Z.eqb_eq in E. apply Hfull in E. discriminate E.
    + cbn [app] in Hdec. rewrite decodeHeader_cons in Hdec.
      rewrite decode_header_short_raw in Hdec. discriminate Hdec.
  - intros Hrle. now apply header_roundtrip_but_short_rle.
Qed.

Lemma header_roundtrip_exactly_witness :
  let x := {| bd_type := bt_compressed; bd_full := false; bd_rSize := 700;
              bd_cSize := Some 300 |} in
  decodeHeader 1024 (encodeHeader 1024 x ++ [7; 7]) = Some (x, [7; 7])
  <-> (bd_type x = bt_rle -> bd_full x = true).
Proof.
  apply header_roundtrip_exactly.
  - exists 0. split; [unfold FIO_maxBlockSizeID; lia | reflexivity].
  - unfold valid_desc. cbn [bd_rSize bd_full bd_type bd_cSize].
    split; [lia | ]. split; [split; [discriminate | lia] | ].
    exists 300. split; [reflexivity | lia].
Defined.

(** ** Names of the destinations *)

Lemma string_length_app (a b : string) :
  String.length (a ++ b) = (String.length a + String.length b)%nat.
Proof. induction a as [ | c a IH]; simpl; [reflexivity | now rewrite IH]. Qed.

Lemma substring_all (s : string) : substring 0 (String.length s) s = s.
Proof. induction s as [ | c s IH]; simpl; [reflexivity | now rewrite IH]. Qed.

Lemma substring_app_left (a b : string) :
  substring 0 (String.length a) (a ++ b) = a.
Proof.
  induction a as [ | c a IH]; simpl.
  - destruct b; reflexivity.
  - now rewrite IH.
Qed.

Lemma substring_app_right (a b : string) (n : nat) :
  substring (String.length a) n (a ++ b) = substring 0 n b.
Proof. induction a as [ | c a IH]; simpl; [reflexivity | exact IH]. Qed.

Lemma substring_split (s : string) (n : nat) :
  (n <= String.length s)%nat ->
  (substring 0 n s ++ substring n (String.length s - n) s)%string = s.
Proof.
  revert n. induction s as [ | c s IH]; intros n Hn; simpl in *.
  - destruct n; [reflexivity | lia].
  - destruct n as [ | n]; simpl.
    + now rewrite substring_all.
    + f_equal. apply IH. lia.
Qed.

Lemma length_substring_0 (s : string) (n : nat) :
  (n <= String.length s)%nat -> String.length (substring 0 n s) = n.
Proof.
  revert n. induction s as [ | c s IH]; intros n Hn; simpl in *.
  - destruct n; [reflexivity | lia].
  - destruct n as [ | n]; simpl; [reflexivity | ]. f_equal. apply IH. lia.
Qed.

Lemma decompress_dstName_inv (srcFileName suffix dstFileName : string) :
  decompress_dstName srcFileName suffix = Some dstFileName ->
  dstFileName <> EmptyString /\ srcFileName = (dstFileName ++ suffix)%string.
Proof.
  unfold decompress_dstName.
  destruct (Nat.leb_spec (String.length srcFileName) (String.length suffix))
    as [Hle | Hlt]; [discriminate | ].
  cbn [orb].
  destruct (String.eqb_spec
              (substring (String.length srcFileName - String.length suffix)
                 (String.length suffix) srcFileName) suffix) as [Heq | Hne];
    [ | discriminate].
  cbn [negb]. intros H; inversion H; subst dstFileName; clear H. split.
  - intros E. apply (f_equal String.length) in E.
    rewrite length_substring_0 in E by lia. simpl in E. lia.
  - pose proof (substring_split srcFileName
                  (String.length srcFileName - String.length suffix)
                  ltac:(lia)) as Hs.
    replace (String.length srcFileName
             - (String.length srcFileName - String.length suffix))%nat
      with (String.length suffix) in Hs by lia.
    rewrite Heq in Hs. symmetry. exact Hs.
Qed.

Lemma decompress_dstName_of_name (name suffix : string) :
  name <> EmptyString ->
  decompress_dstName (name ++ suffix) suffix = Some name.
Proof.
  intros Hne. unfold decompress_dstName. rewrite string_length_app.
  assert (0 < String.length name)%nat as Hpos.
  { destruct name; [contradiction | simpl; lia]. }
  destruct (Nat.leb_spec (String.length name + String.length suffix)
              (String.length suffix)) as [Hle | Hlt]; [lia | ].
  replace (String.length name + String.length suffix
           - String.length suffix)%nat
    with (String.length name) by lia.
  rewrite substring_app_right, substring_all, String.eqb_refl.
  cbn [orb negb]. now rewrite substring_app_left.
Qed.

(** X13. The name test of [FIO_decompressMultipleFilenames] accepts a
    source name exactly when it is a non-empty name followed by the
    suffix, and the destination is then that name: the names that
    [FIO_compressMultipleFilenames] forms, [name ++ suffix], are mapped
    back to [name]; a name that is the suffix alone is skipped. *)
Theorem decompress_dstName_spec (srcFileName suffix dstFileName : string) :
  decompress_dstName srcFileName suffix = Some dstFileName
  <-> (dstFileName <> EmptyString /\
       srcFileName = (dstFileName ++ suffix)%string).
Proof.
  split; [apply decompress_dstName_inv | ].
  intros (Hne & ->). now apply decompress_dstName_of_name.
Qed.

Section BufferedDecode.
Context {C : Collaborators} {B : Buffered}.

Lemma FIO_getFiles_ok_world e w src w' :
  FIO_getFiles e w = GF_ok src w' -> w' = fopen foutput (fopen finput w).
Proof.
  unfold FIO_getFiles.
  destruct (if is_stdinmark (e_input e) then Some (e_stdin e) else e_source e);
    [ | discriminate].
  match goal with
  | |- context [if ?r then GF_fail _ else _] => destruct r
  end; [discriminate | ].
  destruct (is_stdoutmark (e_output e) || e_dst_writable e); [ | discriminate].
  intros H; inversion H; reflexivity.
Qed.


Lemma Return_inj {A : Type} (a a' : A) (w w' : world) :
  Return a w = Return a' w' -> a = a' /\ w = w'.
Proof. intros H. injection H as Ha Hw. split; assumption. Qed.




End BufferedDecode.


(** ** Buffered format: decompression of a file *)

Section BufferedDecodeFile.
Context {C : Collaborators} {B : Buffered}.

(** [FIO_decompressFrame] is the loop of [decompressFrame_run], seen from
    the caller: the size of the frame and what is left of the source. *)
Lemma decompressFrame_loop_run fuel ress passwordValue st :
  decompressFrame_loop fuel ress passwordValue st
  = match decompressFrame_run fuel ress passwordValue st with
    | Return st' w => Return (f_frameSize st', f_file st') w
    | Exit code w => Exit code w
    | Undefined w => Undefined w
    | OutOfFuel => OutOfFuel
    end.
Proof.
  revert st. induction fuel as [ | fuel IH]; intros st; [reflexivity | ].
  cbn [decompressFrame_loop decompressFrame_run].
  destruct (decompressFrame_turn ress passwordValue st); try reflexivity.
  apply IH.
Qed.

Lemma decompressFrame_turn_continue ress passwordValue st toRead st' :
  decompressFrame_turn ress passwordValue st = F_continue toRead st' ->
  (length (f_file st') < length (f_file st))%nat.
Proof.
  unfold decompressFrame_turn.
  destruct (scrambler_func passwordValue (f_index st)); [ | discriminate].
  destruct (ZBUFF_decompressContinue _ _ _ _) as [dctx' [[toRead' decoded] inSize]].
  destruct (ZBUFF_isError toRead'); [discriminate | ].
  destruct (toRead' =? 0) eqn:E0; [discriminate | ].
  apply Z.eqb_neq in E0.
  destruct (negb (zlen (f_staged st) - inSize =? 0)); [discriminate | ].
  destruct (d_srcBufferSize ress <? toRead'); [discriminate | ].
  pose proof (fread_rest_shorter toRead' (f_file st)) as Hshort.
  destruct (fread toRead' (f_file st)) as [buf rest]. simpl in Hshort.
  destruct (zlen buf =? toRead') eqn:El; cbn [negb]; [ | discriminate].
  apply Z.eqb_eq in El. pose proof (zlen_nonneg buf) as Hnn.
  intros Heq; inversion Heq; subst; clear Heq. cbn [f_file].
  specialize (Hshort ltac:(lia)). lia.
Qed.

Lemma decompressFrame_turn_done ress passwordValue st st' :
  decompressFrame_turn ress passwordValue st = F_done st' ->
  f_file st' = f_file st.
Proof.
  unfold decompressFrame_turn. split_turn; try discriminate.
  intros H; inversion H; reflexivity.
Qed.

Lemma decompressFrame_turn_codes ress passwordValue st code w :
  decompressFrame_turn ress passwordValue st = F_exit code w ->
  In code [34; 35; 36; 38].
Proof.
  unfold decompressFrame_turn. split_turn; try discriminate;
    intros H; inversion H; simpl; tauto.
Qed.

Lemma decompressFrame_turn_undefined ress passwordValue st w :
  decompressFrame_turn ress passwordValue st = F_undefined w ->
  scrambler_func passwordValue (f_index st) = None.
Proof.
  unfold decompressFrame_turn.
  destruct (scrambler_func passwordValue (f_index st)); [ | reflexivity].
  split_turn; discriminate.
Qed.

(** The frame loop writes to the destination and does nothing else to
    the world. *)
Lemma decompressFrame_turn_world ress passwordValue st :
  match decompressFrame_turn ress passwordValue st with
  | F_done st' | F_continue _ st' =>
    w_open (f_world st') = w_open (f_world st) /\
    w_heap (f_world st') = w_heap (f_world st)
  | _ => True
  end.
Proof.
  unfold decompressFrame_turn. split_turn; simpl; auto.
Qed.

Lemma decompressFrame_run_world fuel ress passwordValue st st' w :
  decompressFrame_run fuel ress passwordValue st = Return st' w ->
  w = f_world st' /\
  w_open w = w_open (f_world st) /\ w_heap w = w_heap (f_world st).
Proof.
  revert st. induction fuel as [ | fuel IH]; intros st; [discriminate | ].
  cbn [decompressFrame_run].
  pose proof (decompressFrame_turn_world ress passwordValue st) as Hw.
  destruct (decompressFrame_turn ress passwordValue st) as [st1 | t st1 | | ];
    try discriminate.
  - intros H; inversion H; subst. tauto.
  - intros H. apply IH in H. destruct H as (-> & Ho & Hh).
    split; [reflexivity | ]. destruct Hw as (Ho' & Hh'). split; congruence.
Qed.

Lemma decompress_frames_open fuel ress passwordValue src w filesize r w' :
  decompress_frames fuel ress passwordValue src w filesize = Return r w' ->
  w_open w' = w_open w.
Proof.
  revert ress src w filesize.
  induction fuel as [ | fuel IH]; intros ress src w filesize; [discriminate | ].
  cbn [decompress_frames].
  destruct (fread 4 src) as [loaded rest].
  destruct (zlen loaded =? 0); [intros H; inversion H; reflexivity | ].
  destruct (negb (zlen loaded =? 4)); [discriminate | ].
  match goal with
  | |- context [decompressFrame_run ?n ress passwordValue ?st] =>
    destruct (decompressFrame_run n ress passwordValue st) as [st' w1 | | | ]
      eqn:Hrun
  end; try discriminate.
  apply decompressFrame_run_world in Hrun. destruct Hrun as (_ & Ho & _).
  intros H. apply IH in H. cbn [f_world] in Ho. congruence.
Qed.

(** What a run of the loop of one frame can end in. *)
Lemma decompressFrame_run_outcomes fuel ress passwordValue st :
  (length (f_file st) < fuel)%nat ->
  match decompressFrame_run fuel ress passwordValue st with
  | Return st' w => (length (f_file st') <= length (f_file st))%nat
  | Exit code w => In code [34; 35; 36; 38]
  | Undefined w => exists index, scrambler_func passwordValue index = None
  | OutOfFuel => False
  end.
Proof.
  revert st. induction fuel as [ | fuel IH]; intros st Hfuel; [lia | ].
  cbn [decompressFrame_run].
  destruct (decompressFrame_turn ress passwordValue st) as [st' | t st' | | ] eqn:Hturn.
  - apply decompressFrame_turn_done in Hturn. rewrite Hturn. lia.
  - apply decompressFrame_turn_continue in Hturn.
    specialize (IH st' ltac:(lia)).
    destruct (decompressFrame_run fuel ress passwordValue st'); auto. lia.
  - eapply decompressFrame_turn_codes; eassumption.
  - eexists. eapply decompressFrame_turn_undefined; eassumption.
Qed.

(** Every frame takes its four bytes of magic number from the source, so
    the loop over the frames ends. *)
Lemma decompress_frames_outcomes fuel ress passwordValue src w filesize :
  (length src < fuel)%nat ->
  match decompress_frames fuel ress passwordValue src w filesize with
  | Return _ _ => True
  | Exit code w => In code [31; 34; 35; 36; 38]
  | Undefined w => exists index, scrambler_func passwordValue index = None
  | OutOfFuel => False
  end.
Proof.
  revert ress src w filesize.
  induction fuel as [ | fuel IH]; intros ress src w filesize Hfuel; [lia | ].
  cbn [decompress_frames].
  pose proof (fread_rest_shorter 4 src) as Hshort.
  destruct (fread 4 src) as [loaded rest]. simpl in Hshort.
  destruct (zlen loaded =? 0) eqn:E0; [exact I | ].
  apply Z.eqb_neq in E0. pose proof (zlen_nonneg loaded) as Hnn.
  specialize (Hshort ltac:(lia)).
  destruct (negb (zlen loaded =? 4)); [simpl; tauto | ].
  match goal with
  | |- context [decompressFrame_run ?n ress passwordValue ?st] =>
    pose proof (decompressFrame_run_outcomes n ress passwordValue st
                  ltac:(simpl; lia)) as Hrun;
    destruct (decompressFrame_run n ress passwordValue st) as [st' w' | | | ]
  end.
  - cbn [f_file] in Hrun. apply IH. lia.
  - simpl in Hrun |- *. tauto.
  - exact Hrun.
  - contradiction.
Qed.

(** X15. [FIO_decompressFile_extRess] ends for every source: each frame
    consumes at least the four bytes of its magic number and each turn of
    the frame loop at least one byte. When the writes succeed it ends the
    process with one of the codes 13, 31, 34, 35, 36 and 38 only; it
    returns 0 with both files closed, or 1 with nothing written; and its
    behaviour is undefined only where the scrambler has no value: never
    when no secret is given. *)
Theorem FIO_decompressFile_extRess_outcomes ress e passwordValue :
  match FIO_decompressFile_extRess ress e passwordValue with
  | Return (rep, _) w =>
    (dz_result rep = 0 /\ w_open w = [] /\ dz_written rep = w_written w)
    \/ (dz_result rep = 1 /\ dz_written rep = [] /\ w_written w = [])
  | Exit code w => In code [13; 31; 34; 35; 36; 38]
  | Undefined w =>
    passwordValue <> None /\
    exists index, scrambler_func passwordValue index = None
  | OutOfFuel => False
  end.
Proof.
  unfold FIO_decompressFile_extRess.
  destruct (FIO_getFiles e world0) as [src w1 | w1 | code w1] eqn:Hfiles.
  - apply FIO_getFiles_ok_world in Hfiles. subst w1.
    match goal with
    | |- context [decompress_frames ?n ress passwordValue src ?w 0] =>
      pose proof (decompress_frames_outcomes n ress passwordValue src w 0
                    ltac:(lia)) as Hrun;
      destruct (decompress_frames n ress passwordValue src w 0)
        as [[filesize ctx] w' | | | ] eqn:Hframes
    end.
    + left. cbn [dz_result dz_written]. split; [reflexivity | ].
      split; [ | reflexivity].
      apply decompress_frames_open in Hframes. cbn [fclose w_open].
      rewrite Hframes. reflexivity.
    + simpl in Hrun |- *. tauto.
    + split; [ | exact Hrun].
      intros ->. destruct Hrun as (index & Hnone). discriminate Hnone.
    + contradiction.
  - right. cbn [dz_result dz_written]. split; [reflexivity | ].
    split; [reflexivity | ].
    revert Hfiles. unfold FIO_getFiles. split_turn; try discriminate;
      intros H; inversion H; reflexivity.
  - revert Hfiles. unfold FIO_getFiles. split_turn; try discriminate;
      intros H; inversion H; simpl; tauto.
Qed.

End BufferedDecodeFile.

Section BufferedDecodeFrames.
Context {C : Collaborators} {B : Buffered}.

Lemma decompress_frames_S fuel ress passwordValue src w filesize :
  decompress_frames (S fuel) ress passwordValue src w filesize
  = let '(loaded, rest) := fread 4 src in
    if zlen loaded =? 0 then Return (filesize, d_dctx ress) w
    else if negb (zlen loaded =? 4) then Exit 31 w
    else
      let dctx0 :=
        ZBUFF_decompressWithDictionary (ZBUFF_decompressInit (d_dctx ress))
          (d_dictBuffer ress) in
      match decompressFrame_run (S (length rest)) ress passwordValue
              {| f_world := w; f_dctx := dctx0; f_staged := loaded;
                 f_file := rest; f_index := 0; f_frameSize := 0 |} with
      | Return st' w' =>
        decompress_frames fuel (with_dctx ress (f_dctx st')) passwordValue
          (f_file st') w' (filesize + f_frameSize st')
      | Exit code w' => Exit code w'
      | Undefined w' => Undefined w'
      | OutOfFuel => OutOfFuel
      end.
Proof. reflexivity. Qed.

(** X16. A source with no byte is decoded by [FIO_decompressFile_extRess]
    into an empty destination: no frame is looked for, the codec is not
    called, both files are closed and 0 is returned, whatever the
    secret. A source of one to three bytes ends the process with code 31,
    both files open. *)
Theorem short_source_is_no_frame ress e passwordValue src w :
  FIO_getFiles e world0 = GF_ok src w ->
  (src = [] ->
   FIO_decompressFile_extRess ress e passwordValue
   = Return ({| dz_result := 0; dz_filesize := 0; dz_written := [] |},
             d_dctx ress) world0) /\
  (0 < zlen src < 4 ->
   FIO_decompressFile_extRess ress e passwordValue
   = Exit 31 (fopen foutput (fopen finput world0))).
Proof.
  intros Hfiles. unfold FIO_decompressFile_extRess. rewrite Hfiles.
  apply FIO_getFiles_ok_world in Hfiles. subst w. split.
  - intros ->. reflexivity.
  - intros Hlen. rewrite decompress_frames_S, fread_all by lia.
    destruct (zlen src =? 0) eqn:E0; [apply Z.eqb_eq in E0; lia | ].
    destruct (zlen src =? 4) eqn:E4; [apply Z.eqb_eq in E4; lia | ].
    reflexivity.
Qed.

(** X17. A source that holds one frame: when [FIO_decompressFrame], given
    the four bytes of the magic number as loaded and the rest of the
    source, returns the size of the frame with nothing left to read,
    [FIO_decompressFile_extRess] returns 0, reports that size, has
    written what the frame loop wrote and has closed both files. When one
    to three bytes are left after the frame, the process ends with code
    31 after the frame has been written. *)
Theorem one_frame_file ress e passwordValue magic rest w size rest' w' :
  FIO_getFiles e world0 = GF_ok (magic ++ rest) w ->
  zlen magic = 4 ->
  FIO_decompressFrame ress w rest magic passwordValue = Return (size, rest') w' ->
  (rest' = [] ->
   exists ctx,
     FIO_decompressFile_extRess ress e passwordValue
     = Return ({| dz_result := 0; dz_filesize := size;
                  dz_written := w_written w' |}, ctx)
              (fclose foutput (fclose finput w'))
     /\ w_open (fclose foutput (fclose finput w')) = []) /\
  (0 < zlen rest' < 4 ->
   FIO_decompressFile_extRess ress e passwordValue = Exit 31 w').
Proof.
  intros Hfiles Hmagic Hframe.
  unfold FIO_decompressFile_extRess. rewrite Hfiles.
  apply FIO_getFiles_ok_world in Hfiles. subst w.
  rewrite decompress_frames_S, (fread_app_exact 4 magic rest Hmagic).
  rewrite Hmagic. change (4 =? 0) with false. change (negb (4 =? 4)) with false.
  cbv iota.
  unfold FIO_decompressFrame in Hframe.
  rewrite decompressFrame_loop_run in Hframe.
  match type of Hframe with
  | match ?run with _ => _ end = _ =>
    destruct run as [st1 w1 | | | ] eqn:Hrun; try discriminate Hframe
  end.
  apply Return_inj in Hframe. destruct Hframe as (Hres & ->).
  apply pair_equal_spec in Hres. destruct Hres as (Hsize & Hrest).
  cbv zeta. rewrite Hrun.
  assert (length (magic ++ rest) = S (length rest + 3)) as Hlen.
  { rewrite length_app. unfold zlen in Hmagic. lia. }
  rewrite Hlen, decompress_frames_S, Hrest. split.
  - intros ->. rewrite fread_nil. change (zlen [] =? 0) with true. cbv iota.
    rewrite Hsize, Z.add_0_l.
    eexists. split; [reflexivity | ].
    apply decompressFrame_run_world in Hrun. destruct Hrun as (_ & Ho & _).
    cbn [fclose w_open]. rewrite Ho. reflexivity.
  - intros Hshort. rewrite fread_all by lia.
    destruct (zlen rest' =? 0) eqn:E0; [apply Z.eqb_eq in E0; lia | ].
    destruct (zlen rest' =? 4) eqn:E4; [apply Z.eqb_eq in E4; lia | ].
    reflexivity.
Qed.

End BufferedDecodeFrames.

(** ** Buffered format: the secret of a single file *)

Section BufferedSecret.
Context {C : Collaborators} {B : Buffered}.

Lemma scrambler_func_empty_secret pw index :
  strlen pw = 0 -> scrambler_func (Some pw) index = None.
Proof.
  intros Hlen. unfold scrambler_func, choose_scrambler, simlple_scrambler.
  rewrite Hlen. reflexivity.
Qed.

End BufferedSecret.

(** ** Simple format: the blocks of a file *)

Section BlockCount.
Context {C : Collaborators}.

Lemma to_unsigned_range x : 0 <= to_unsigned x < 2 ^ 32.
Proof. unfold to_unsigned. apply Z.mod_pos_bound. lia. Qed.

Lemma to_unsigned_succ i k :
  to_unsigned (to_unsigned (i + 1) + k) = to_unsigned (i + (1 + k)).
Proof.
  unfold to_unsigned. rewrite Zplus_mod_idemp_l. f_equal. lia.
Qed.

Lemma compress_block_filesize compressor bs password blk st st' w :
  compress_block compressor bs password blk st = Return st' w ->
  c_filesize st' = c_filesize st + zlen blk.
Proof.
  unfold compress_block.
  destruct (scrambler_func password (c_index st)); [ | discriminate].
  destruct (compressor _ _ _) as [cSize dst].
  destruct (FSE_isError cSize); [discriminate | ].
  intros H; inversion H; subst; simpl.
  unfold zlen, salsa20. reflexivity.
Qed.

(** The loop reads the source in blocks of [bs] bytes, the last one
    shorter, and gives consecutive indices to the scrambler. *)
Lemma compress_loop_counts fuel compressor bs password f st st' w :
  0 < bs -> 0 <= c_index st < 2 ^ 32 ->
  compress_loop fuel compressor bs password f st = Return st' w ->
  exists n : nat,
    c_trace st'
    = c_trace st ++ map (fun k => to_unsigned (c_index st + Z.of_nat k)) (seq 0 n) /\
    c_filesize st' = c_filesize st + zlen f /\
    (Z.of_nat n - 1) * bs < zlen f <= Z.of_nat n * bs.
Proof.
  intros Hbs. revert f st.
  induction fuel as [ | fuel IH]; intros f st Hidx; [discriminate | ].
  rewrite compress_loop_S.
  pose proof (fread_length bs f ltac:(lia)) as Hlen.
  pose proof (fread_app bs f) as Happ.
  destruct (fread bs f) as [blk rest]. cbn [fst snd] in Hlen, Happ.
  pose proof (zlen_nonneg f) as Hf.
  destruct (zlen blk =? 0) eqn:E0.
  - apply Z.eqb_eq in E0. intros H; inversion H; subst st' w; clear H.
    exists 0%nat. cbn [seq map]. rewrite app_nil_r.
    split; [reflexivity | ]. lia.
  - apply Z.eqb_neq in E0.
    destruct (compress_block compressor bs password blk st) as [st1 w1 | | | ]
      eqn:Hblock; try discriminate.
    pose proof (compress_block_index _ _ _ _ _ _ _ Hblock) as (Hi1 & Ht1).
    pose proof (compress_block_filesize _ _ _ _ _ _ _ Hblock) as Hs1.
    intros Hloop. apply IH in Hloop;
      [ | rewrite Hi1; apply to_unsigned_range].
    destruct Hloop as (n & Htrace & Hsize & Hcount).
    exists (S n). rewrite Htrace, Ht1, Hsize, Hs1, Hi1.
    assert (zlen f = zlen blk + zlen rest) as Hsum
      by (rewrite <- Happ at 1; apply zlen_app).
    split; [ | split; [lia | ]].
    + rewrite <- app_assoc. f_equal. cbn [seq map app].
      rewrite Z.add_0_r. f_equal.
      * unfold to_unsigned. symmetry. apply Z.mod_small. exact Hidx.
      * rewrite <- seq_shift, map_map. apply map_ext. intros k.
        rewrite to_unsigned_succ. f_equal. lia.
    + pose proof (zlen_nonneg rest) as Hrest.
      rewrite Nat2Z.inj_succ. unfold Z.succ.
      assert (0 <= Z.of_nat n) as Hn by lia.
      set (N := Z.of_nat n) in *.
      destruct (Z.min_spec bs (zlen f)) as [(Hlt & Hmin) | (Hge & Hmin)].
      * assert (zlen rest = zlen f - bs) as Hz by lia. rewrite Hz in Hcount.
        replace ((N + 1 - 1) * bs) with ((N - 1) * bs + bs) by ring.
        replace ((N + 1) * bs) with (N * bs + bs) by ring. lia.
      * assert (zlen rest = 0) as Hz by lia. rewrite Hz in Hcount.
        assert (N = 0) as ->.
        { destruct (Z.eq_dec N 0) as [E | E]; [exact E | exfalso].
          assert (0 <= (N - 1) * bs) by (apply Z.mul_nonneg_nonneg; lia).
          lia. }
        lia.
Qed.

(** X19. When [FIO_compressFilename] returns, the size it reports is the
    size of the source, the scrambler has been called once per block of
    the source, a block being [blockSize] bytes and the last one what is
    left, and the calls carry the indices 0, 1, 2, ... in order. *)
Theorem encoder_numbers_the_blocks e c id password src w0 rep w :
  0 <= id <= FIO_maxBlockSizeID ->
  get_fileHandle e world0 = Return src w0 ->
  FIO_compressFilename e c id password = Return rep w ->
  let bs := FIO_blockID_to_blockSize id in
  let n := length (r_trace rep) in
  r_filesize rep = zlen src /\
  r_trace rep = map (fun k => to_unsigned (Z.of_nat k)) (seq 0 n) /\
  (Z.of_nat n - 1) * bs < zlen src <= Z.of_nat n * bs.
Proof.
  intros Hid Hget. unfold FIO_compressFilename. rewrite Hget.
  pose proof (blockSize_bounds id Hid) as Hbs.
  destruct (select_compressor c) as [compressor magicNumber].
  destruct (FIO_blockID_to_blockSize id =? 0) eqn:E0;
    [apply Z.eqb_eq in E0; lia | ].
  match goal with
  | |- context [compress_loop ?n ?cmp ?b ?p ?f ?st] =>
    destruct (compress_loop n cmp b p f st) as [st' w' | | | ] eqn:Hloop
  end; try discriminate.
  apply compress_loop_counts in Hloop; [ | lia | simpl; lia].
  destruct Hloop as (n & Htrace & Hsize & Hcount).
  intros H; inversion H; subst rep w; clear H.
  cbn [r_filesize r_trace c_trace c_filesize c_index app] in *.
  rewrite Htrace, length_map, length_seq.
  split; [lia | ]. split; [reflexivity | exact Hcount].
Qed.

End BlockCount.

(** ** Simple format: how the process can end *)

Section ExitCodes.
Context {C : Collaborators}.

Lemma get_fileHandle_codes e w code w' :
  get_fileHandle e w = Exit code w' -> In code [11; 12; 13].
Proof.
  unfold get_fileHandle. split_turn; simpl; split_turn;
    intros H; inversion H; simpl; tauto.
Qed.

Lemma decompress_loop_codes fuel decompressor bs password ip0 f st code w :
  decompress_loop fuel decompressor bs password ip0 f st = Exit code w ->
  In code [35; 36; 38; 39].
Proof.
  revert ip0 f st. induction fuel as [ | fuel IH]; intros ip0 f st;
    [discriminate | ].
  rewrite decompress_loop_S.
  destruct (decompress_block decompressor bs password ip0 f st)
    as [ | ip1 rest st1 | code1 w1 | w1] eqn:Hblock; try discriminate.
  - apply IH.
  - intros H; inversion H; subst.
    apply decompress_block_exits in Hblock. tauto.
Qed.

Lemma compress_loop_codes fuel compressor bs password f st code w :
  compress_loop fuel compressor bs password f st = Exit code w -> code = 23.
Proof.
  revert f st. induction fuel as [ | fuel IH]; intros f st; [discriminate | ].
  rewrite compress_loop_S.
  destruct (fread bs f) as [blk rest].
  destruct (zlen blk =? 0); [discriminate | ].
  destruct (compress_block compressor bs password blk st) as [st1 w1 | code1 w1 | | ]
    eqn:Hblock; try discriminate.
  - apply IH.
  - intros H; inversion H; subst.
    revert Hblock. unfold compress_block. split_turn; try discriminate.
    intros H'; inversion H'; reflexivity.
Qed.

(** X20. The codes with which the simple format ends the process, when
    memory is obtained and the writes succeed.
    [FIO_decompressFilename] exits with one of 11, 12, 13 (opening the
    files), 30, 31, 32, 34 (frame header and first block header), 35, 36,
    38, 39 (blocks) and 43 (trailer): the throws marked "should not
    happen" are never reached. [FIO_compressFilename], for one of the
    three compressors and a block-size exponent within range, exits with
    11, 12, 13 or 23 only. *)
Theorem simple_format_exit_codes e c id password :
  0 <= id <= FIO_maxBlockSizeID ->
  (forall code w, FIO_decompressFilename e password = Exit code w ->
     In code [11; 12; 13; 30; 31; 32; 34; 35; 36; 38; 39; 43]) /\
  (forall code w, FIO_compressFilename e c id password = Exit code w ->
     In code [11; 12; 13; 23]).
Proof.
  intros Hid. split; intros code w.
  - unfold FIO_decompressFilename.
    destruct (get_fileHandle e world0) as [src w0 | code0 w0 | | ] eqn:Hget;
      try discriminate.
    + destruct (fread FIO_FRAMEHEADERSIZE src) as [header f].
      destruct (negb (zlen header =? FIO_FRAMEHEADERSIZE));
        [intros H; inversion H; simpl; tauto | ].
      destruct (select_decompressor (FIO_readLE32 header)) as [decompressor | ];
        [ | intros H; inversion H; simpl; tauto].
      destruct (FIO_maxBlockSizeID <? nth 4 header 0);
        [intros H; inversion H; simpl; tauto | ].
      destruct (fread 1 f) as [b f0].
      destruct (negb (zlen b =? 1)); [intros H; inversion H; simpl; tauto | ].
      match goal with
      | |- context [decompress_loop ?n ?d ?bs ?p ?i ?g ?st] =>
        destruct (decompress_loop n d bs p i g st) as [[st' f'] w' | code1 w' | | ]
          eqn:Hloop
      end; try discriminate.
      * destruct (fread 2 f') as [crc rest].
        destruct (_ <? d_ip st' + 1 + zlen crc); [discriminate | ].
        destruct (negb (zlen crc =? 2)); [ | discriminate].
        intros H; inversion H; simpl; tauto.
      * intros H; inversion H; subst.
        apply decompress_loop_codes in Hloop. simpl in Hloop |- *. tauto.
    + intros H; inversion H; subst.
      apply get_fileHandle_codes in Hget. simpl in Hget |- *. tauto.
  - unfold FIO_compressFilename.
    pose proof (blockSize_bounds id Hid) as Hbs.
    destruct (get_fileHandle e world0) as [src w0 | code0 w0 | | ] eqn:Hget;
      try discriminate.
    + destruct (select_compressor c) as [compressor magicNumber].
      destruct (FIO_blockID_to_blockSize id =? 0) eqn:E0;
        [apply Z.eqb_eq in E0; lia | ].
      match goal with
      | |- context [compress_loop ?n ?cmp ?b ?p ?f ?st] =>
        destruct (compress_loop n cmp b p f st) as [st' w' | code1 w' | | ]
          eqn:Hloop
      end; try discriminate.
      intros H; inversion H; subst.
      apply compress_loop_codes in Hloop. subst. simpl. tauto.
    + intros H; inversion H; subst.
      apply get_fileHandle_codes in Hget. simpl in Hget |- *. tauto.
Qed.

End ExitCodes.

(** ** The properties on the sample files *)

Lemma short_source_is_no_frame_witness :
  FIO_decompressFile_extRess (C := plain) sample_dRess (sample_file [1; 2]) None
  = Exit 31 (fopen foutput (fopen finput world0)).
Proof.
  apply (proj2 (short_source_is_no_frame (C := plain) sample_dRess
                  (sample_file [1; 2]) None [1; 2] _ eq_refl)).
  unfold zlen. simpl. lia.
Defined.

Lemma one_frame_file_witness :
  exists ctx,
    FIO_decompressFile_extRess (C := plain) sample_dRess
      (sample_file sample_frame) None
    = Return ({| dz_result := 0; dz_filesize := 2; dz_written := [5; 6] |}, ctx)
             (fclose foutput (fclose finput (fwrite [5; 6] both_open)))
    /\ w_open (fclose foutput (fclose finput (fwrite [5; 6] both_open))) = [].
Proof.
  apply (proj1 (one_frame_file (C := plain) sample_dRess
                  (sample_file sample_frame) None
                  [9; 9; 9; 9] [2; 5; 6; 0] both_open 2 []
                  (fwrite [5; 6] both_open) eq_refl eq_refl eq_refl)).
  reflexivity.
Defined.

Lemma encoder_numbers_the_blocks_witness :
  let rep := {| r_compressedfilesize := 16; r_filesize := 6;
                r_fed := [1; 2; 1; 2; 1; 2]; r_trace := [0] |} in
  let bs := FIO_blockID_to_blockSize 0 in
  let n := length (r_trace rep) in
  r_filesize rep = zlen [1; 2; 1; 2; 1; 2] /\
  r_trace rep = map (fun k => to_unsigned (Z.of_nat k)) (seq 0 n) /\
  (Z.of_nat n - 1) * bs < zlen [1; 2; 1; 2; 1; 2] <= Z.of_nat n * bs.
Proof.
  apply (encoder_numbers_the_blocks (C := plain)
           (sample_file [1; 2; 1; 2; 1; 2]) FIO_fse 0 None
           [1; 2; 1; 2; 1; 2] both_open _
           {| w_written :=
                [9; 35; 62; 24; 0; 0; 0; 6; 0; 3; 1; 2; 3; 220; 167; 96];
              w_open := []; w_heap := [] |}).
  - unfold FIO_maxBlockSizeID. lia.
  - reflexivity.
  - reflexivity.
Defined.

Lemma simple_format_exit_codes_witness :
  In 30 [11; 12; 13; 30; 31; 32; 34; 35; 36; 38; 39; 43].
Proof.
  apply (proj1 (simple_format_exit_codes (C := plain) (sample_file [1; 2; 3])
                  FIO_fse 0 None
                  ltac:(unfold FIO_maxBlockSizeID; lia)) 30 both_open).
  reflexivity.
Defined.

(** ** Simple format: the secret and the blocks that are not compressed *)

Section DecoderIndices.
Context {C : Collaborators}.

(** X21. A block that is not compressed is not protected by the secret:
    on a raw or rle header a turn of the decode loop does the same under
    any two secrets, the same bytes written and the same state. *)
Theorem uncompressed_blocks_ignore_the_secret
    decompressor bs password password' ip0 f st :
  bType_of (Z.shiftr (Z.land ip0 (BIT7 + BIT6)) 6) <> bt_compressed ->
  decompress_block decompressor bs password ip0 f st
  = decompress_block decompressor bs password' ip0 f st.
Proof.
  intros Ht. unfold decompress_block, decode_header.
  destruct (bType_of (Z.shiftr (Z.land ip0 (BIT7 + BIT6)) 6)) eqn:Et;
    [contradiction | | | reflexivity];
    destruct (Z.land ip0 BIT5 =? 0);
    repeat match goal with
           | |- context [fread ?n ?g] => destruct (fread n g)
           | |- context [if ?b then _ else _] => destruct b
           end; reflexivity.
Qed.

(** A turn that goes on to a next block has decoded a block whose type
    is the one in the header, and has taken an index for it exactly when
    that type is [bt_compressed]. *)
Lemma decompress_block_next decompressor bs password ip0 f st ip1 rest st' :
  decompress_block decompressor bs password ip0 f st = T_next ip1 rest st' ->
  exists t rSize cSize f1,
    decode_header bs ip0 f = H_block t rSize cSize f1 /\
    ip1 = nth (Z.to_nat cSize) (fst (fread (cSize + 1) f1)) 0 /\
    rest = snd (fread (cSize + 1) f1) /\
    if is_compressed t
    then d_index st' = to_unsigned (d_index st + 1) /\
         d_trace st' = d_trace st ++ [d_index st]
    else d_index st' = d_index st /\ d_trace st' = d_trace st.
Proof.
  unfold decompress_block.
  destruct (decode_header bs ip0 f) as [ | code | t rSize cSize f1];
    try discriminate.
  destruct (fread (cSize + 1) f1) as [buf rest0] eqn:Hread.
  destruct (_ <? zlen buf); [discriminate | ].
  destruct (negb (zlen buf =? cSize + 1)); [discriminate | ].
  cbv zeta. intros H. exists t, rSize, cSize, f1.
  split; [reflexivity | ]. rewrite Hread. cbn [fst snd].
  destruct t; cbn [is_compressed].
  - cbn [d_seek d_index] in H.
    destruct (scrambler_func password (d_index st)) as [scrambler | ];
      [ | discriminate].
    destruct (decompressor rSize (firstn (Z.to_nat cSize) buf) scrambler)
      as [rSize' out].
    destruct (bs <? zlen out); [discriminate | ].
    destruct (FSE_isError rSize'); [discriminate | ].
    inversion H; subst. simpl. auto.
  - inversion H; subst. simpl. auto.
  - destruct (bs <? rSize); [discriminate | ].
    inversion H; subst. simpl. auto.
  - discriminate.
Qed.

Lemma decompress_block_break decompressor bs password ip0 f st :
  decompress_block decompressor bs password ip0 f st = T_break ->
  decode_header bs ip0 f = H_crc.
Proof.
  unfold decompress_block.
  destruct (decode_header bs ip0 f) as [ | code | t rSize cSize f1];
    [reflexivity | discriminate | ].
  destruct (fread (cSize + 1) f1) as [buf rest0].
  destruct (_ <? zlen buf); [discriminate | ].
  destruct (negb (zlen buf =? cSize + 1)); [discriminate | ].
  cbv zeta.
  destruct t; try discriminate.
  - destruct (scrambler_func password _) as [scrambler | ]; [ | discriminate].
    destruct (decompressor _ _ _) as [rSize' out].
    destruct (bs <? zlen out); [discriminate | ].
    destruct (FSE_isError rSize'); discriminate.
  - destruct (bs <? rSize); discriminate.
Qed.

Lemma block_types_S fuel bs ip0 f :
  block_types (S fuel) bs ip0 f
  = match decode_header bs ip0 f with
    | H_block t _ cSize f1 =>
      t :: block_types fuel bs
             (nth (Z.to_nat cSize) (fst (fread (cSize + 1) f1)) 0)
             (snd (fread (cSize + 1) f1))
    | _ => []
    end.
Proof.
  cbn [block_types].
  destruct (decode_header bs ip0 f) as [ | code | t rSize cSize f1];
    reflexivity.
Qed.

Lemma decompress_loop_compressed fuel decompressor bs password ip0 f st st' f' w :
  0 <= d_index st < 2 ^ 32 ->
  decompress_loop fuel decompressor bs password ip0 f st = Return (st', f') w ->
  d_trace st'
  = d_trace st
    ++ map (fun k => to_unsigned (d_index st + Z.of_nat k))
         (seq 0 (length (filter is_compressed (block_types fuel bs ip0 f)))).
Proof.
  revert ip0 f st. induction fuel as [ | fuel IH]; intros ip0 f st Hidx;
    [discriminate | ].
  rewrite decompress_loop_S, block_types_S.
  destruct (decompress_block decompressor bs password ip0 f st)
    as [ | ip1 rest st1 | code1 w1 | w1] eqn:Hblock; try discriminate.
  - apply decompress_block_break in Hblock. rewrite Hblock.
    intros H; inversion H; subst. simpl. now rewrite app_nil_r.
  - apply decompress_block_next in Hblock.
    destruct Hblock as (t & rSize & cSize & f1 & Hheader & -> & -> & Hstep).
    rewrite Hheader. cbn [filter].
    destruct (is_compressed t); destruct Hstep as (Hi & Ht); intros Hloop.
    + apply IH in Hloop; [ | rewrite Hi; apply to_unsigned_range].
      rewrite Hloop, Hi, Ht, <- app_assoc. f_equal.
      cbn [length seq map app].
      rewrite Z.add_0_r. f_equal.
      * unfold to_unsigned. symmetry. apply Z.mod_small. exact Hidx.
      * rewrite <- seq_shift, map_map. apply map_ext. intros k.
        rewrite to_unsigned_succ. f_equal. lia.
    + apply IH in Hloop; [ | rewrite Hi; exact Hidx].
      rewrite Hloop, Hi, Ht. reflexivity.
Qed.

(** X22. When [FIO_decompressFilename] returns, it has called the
    scrambler once for every compressed block of the frame and for no
    other block, with the indices 0, 1, 2, ... in order: the blocks that
    are raw or rle take none, so the index of a compressed block is the
    number of compressed blocks before it, not its position in the
    frame. The blocks of the frame are those that its headers tell. *)
Theorem decoder_numbers_compressed_blocks e password src w0 rep w :
  get_fileHandle e world0 = Return src w0 ->
  FIO_decompressFilename e password = Return rep w ->
  r_dtrace rep
  = map (fun k => to_unsigned (Z.of_nat k))
      (seq 0 (length (filter is_compressed (frame_block_types src)))).
Proof.
  intros Hopen. unfold FIO_decompressFilename, frame_block_types.
  rewrite Hopen.
  destruct (fread FIO_FRAMEHEADERSIZE src) as [header f].
  destruct (negb (zlen header =? FIO_FRAMEHEADERSIZE)); [discriminate | ].
  destruct (select_decompressor (FIO_readLE32 header)) as [decompressor | ];
    [ | discriminate].
  destruct (FIO_maxBlockSizeID <? nth 4 header 0); [discriminate | ].
  destruct (fread 1 f) as [b f0].
  destruct (negb (zlen b =? 1)); [discriminate | ].
  match goal with
  | |- context [decompress_loop ?n ?d ?bs ?p ?i ?g ?st] =>
    destruct (decompress_loop n d bs p i g st) as [[st' f'] w' | | | ] eqn:Hloop
  end; try discriminate.
  apply decompress_loop_compressed in Hloop; [ | simpl; lia].
  cbn [d_trace d_index app] in Hloop.
  destruct (fread 2 f') as [crc rest].
  destruct (_ <? d_ip st' + 1 + zlen crc); [discriminate | ].
  destruct (negb (zlen crc =? 2)); [discriminate | ].
  intros H; inversion H; subst rep w; clear H. cbn [r_dtrace].
  exact Hloop.
Qed.

End DecoderIndices.

(** ** Buffered format: a run over several files *)

Section BufferedBatch.
Context {C : Collaborators} {B : Buffered}.

Lemma zstd_compress_loop_codes fuel ress passwordValue f st code w :
  zstd_compress_loop fuel ress passwordValue f st = Exit code w ->
  In code [23; 24].
Proof.
  revert f st. induction fuel as [ | fuel IH]; intros f st; [discriminate | ].
  cbn [zstd_compress_loop].
  destruct (scrambler_func passwordValue (z_index st)); [ | discriminate].
  destruct (fread (c_srcBufferSize ress) f) as [blk rest].
  destruct (zlen blk =? 0); [discriminate | ].
  destruct (ZBUFF_compressContinue _ _ _ _) as [ctx [[result out] usedInSize]].
  destruct (ZBUFF_isError result); [intros H; inversion H; simpl; tauto | ].
  destruct (negb (zlen blk =? usedInSize)); [intros H; inversion H; simpl; tauto | ].
  apply IH.
Qed.

Lemma extRess_outcomes ress e srcSize cLevel passwordValue :
  match FIO_compressZstdFilename_extRess ress e srcSize cLevel passwordValue with
  | Return (rep, _) w => zr_result rep = 0 \/ zr_result rep = 1
  | Exit code w => In code [13; 21; 22; 23; 24; 26]
  | Undefined w => True
  | OutOfFuel => False
  end.
Proof.
  pose proof (extRess_fuel ress e srcSize cLevel passwordValue) as Hfuel.
  revert Hfuel. unfold FIO_compressZstdFilename_extRess.
  destruct (FIO_getFiles e world0) as [src w1 | w1 | code w1] eqn:Hfiles.
  - destruct (ZBUFF_compressInit_advanced _ _ _) as [ctx1 e1].
    destruct (ZBUFF_isError e1); [simpl; tauto | ].
    destruct (ZBUFF_compressWithDictionary _ _) as [ctx2 e2].
    destruct (ZBUFF_isError e2); [simpl; tauto | ].
    match goal with
    | |- context [zstd_compress_loop ?n ?r ?p ?f ?st] =>
      destruct (zstd_compress_loop n r p f st) as [st' w' | code' w' | | ]
        eqn:Hloop
    end.
    + destruct (ZBUFF_compressEnd _ _) as [ctx' [result out]].
      destruct (negb (result =? 0)); simpl; tauto.
    + apply zstd_compress_loop_codes in Hloop. simpl in Hloop |- *. tauto.
    + tauto.
    + intros Hfuel. now apply Hfuel.
  - intros _. right. reflexivity.
  - intros _. revert Hfiles. unfold FIO_getFiles. split_turn; try discriminate;
      intros H; inversion H; simpl; tauto.
Qed.

Lemma compress_each_cons ress look suffix cLevel dfnSize name names :
  compress_each ress look suffix cLevel dfnSize (name :: names)
  = let suffixSize := Z.of_nat (String.length suffix) in
    let ifnSize := Z.of_nat (String.length name) in
    let dfnSize :=
      if dfnSize <=? ifnSize + suffixSize + 1 then ifnSize + 20 else dfnSize in
    if dfnSize <? ifnSize + suffixSize + 1 then Undefined world0
    else
      let dstFileName := (name ++ suffix)%string in
      let '(e, srcSize) := look dstFileName name in
      match FIO_compressZstdFilename_extRess ress e srcSize cLevel
              (Some "TODO passwordValue"%string) with
      | Return (rep, ctx) _ =>
        let ress' := {| c_srcBufferSize := c_srcBufferSize ress;
                        c_dstBufferSize := c_dstBufferSize ress;
                        c_dictBuffer := c_dictBuffer ress;
                        c_ctx := ctx |} in
        match compress_each ress' look suffix cLevel dfnSize names with
        | Return (missed, reps, ctx') w =>
          Return (zr_result rep + missed, rep :: reps, ctx') w
        | other => other
        end
      | Exit code w => Exit code w
      | Undefined w => Undefined w
      | OutOfFuel => OutOfFuel
      end.
Proof. reflexivity. Qed.




(** X25. The buffer of the destination name has room for a suffix of 19
    characters at most: with a longer suffix, and a first name that
    together with it has 29 characters or more, [strcpy] and [strcat] go
    beyond the end of the buffer before any file is opened. *)
Theorem long_suffix_overruns_the_name_buffer look name names suffix dict level ress :
  FIO_createCResources dict = inr ress ->
  (20 <= String.length suffix)%nat ->
  (29 <= String.length name + String.length suffix)%nat ->
  FIO_compressMultipleFilenames look (name :: names) suffix dict level
  = Undefined world0.
Proof.
  intros Hress Hsuffix Hname. unfold FIO_compressMultipleFilenames.
  rewrite Hress, compress_each_cons. cbv zeta. unfold FNSPACE.
  destruct (Z.leb_spec 30
              (Z.of_nat (String.length name) + Z.of_nat (String.length suffix) + 1))
    as [_ | Hsmall]; [ | lia].
  destruct (Z.ltb_spec (Z.of_nat (String.length name) + 20)
              (Z.of_nat (String.length name) + Z.of_nat (String.length suffix) + 1))
    as [_ | Hfits]; [reflexivity | lia].
Qed.

End BufferedBatch.

(** ** Buffered format: the values given to the coder *)

Section BufferedValuesProperties.
Context {C : Collaborators} {B : Buffered}.

Lemma scrambler_func_values passwordValue index :
  scrambler_func passwordValue index = values_of_secret passwordValue index.
Proof. destruct passwordValue; reflexivity. Qed.

(** The loop of [FIO_compressZstdFilename_extRess] gives the blocks of the
    source to the coder, block [k] with the value of the scrambler at
    [k]. *)
Lemma zstd_compress_loop_feeds values fuel ress passwordValue f st :
  (forall index, scrambler_func passwordValue index = values index) ->
  (length f < fuel)%nat ->
  map_outcome z_ctx (zstd_compress_loop fuel ress passwordValue f st)
  = feed_blocks values (c_dstBufferSize ress)
      (blocks_of fuel (c_srcBufferSize ress) f) (z_index st) (z_ctx st) (z_world st).
Proof.
  intros Hvalues. revert f st.
  induction fuel as [ | fuel IH]; intros f st Hfuel; [lia | ].
  cbn [zstd_compress_loop blocks_of].
  destruct (fread (c_srcBufferSize ress) f) as [blk rest] eqn:Hread.
  destruct (zlen blk =? 0) eqn:Hempty; cbn [feed_blocks]; rewrite <- Hvalues;
    destruct (scrambler_func passwordValue (z_index st)) as [scrambler | ];
    try reflexivity.
  destruct (ZBUFF_compressContinue _ _ _ _) as [ctx [[result out] usedInSize]].
  destruct (ZBUFF_isError result); [reflexivity | ].
  destruct (negb (zlen blk =? usedInSize)); [reflexivity | ].
  rewrite IH; [reflexivity | ].
  pose proof (fread_rest_shorter (c_srcBufferSize ress) f) as Hshort.
  rewrite Hread in Hshort. cbn [fst snd] in Hshort.
  apply Z.eqb_neq in Hempty. pose proof (zlen_nonneg blk). lia.
Qed.

Lemma extRess_feeds values ress e srcSize cLevel passwordValue :
  (forall index, scrambler_func passwordValue index = values index) ->
  map_outcome (fun '(rep, ctx) => (file_of_report rep, ctx))
    (FIO_compressZstdFilename_extRess ress e srcSize cLevel passwordValue)
  = compress_file_with values ress e srcSize cLevel.
Proof.
  intros Hvalues.
  unfold FIO_compressZstdFilename_extRess, compress_file_with.
  destruct (FIO_getFiles e world0) as [src w1 | w1 | code w1]; try reflexivity.
  destruct (ZBUFF_compressInit_advanced _ _ _) as [ctx1 e1].
  destruct (ZBUFF_isError e1); [reflexivity | ].
  destruct (ZBUFF_compressWithDictionary _ _) as [ctx2 e2].
  destruct (ZBUFF_isError e2); [reflexivity | ].
  match goal with
  | |- context [zstd_compress_loop ?n ?r ?p ?f ?st] =>
    pose proof (zstd_compress_loop_feeds values n r p f st Hvalues ltac:(lia))
      as Hloop;
    destruct (zstd_compress_loop n r p f st) as [st' w' | | | ]
  end; cbn [map_outcome z_index z_ctx z_world] in Hloop; rewrite <- Hloop;
    try reflexivity.
  destruct (ZBUFF_compressEnd _ _) as [ctx' [result out]].
  destruct (negb (result =? 0)); reflexivity.
Qed.




(** X18. [FIO_compressZstdFilename] compresses under the secret of its
    caller: it does what the second description does when the value for
    block [k] is that of [simlple_scrambler] on the secret at [k], and 0
    for every block when there is no secret. No file is ever compressed
    under a secret of length 0: the first call of the scrambler, made
    before the first read, has no value, and the function can only return
    1, for files that were not opened. *)
Theorem single_file_uses_the_callers_secret e srcSize dict level passwordValue :
  map_outcome file_of_report
    (FIO_compressZstdFilename e srcSize dict level passwordValue)
  = compress_one_with (values_of_secret passwordValue) e srcSize dict level /\
  (forall pw rep w,
     passwordValue = Some pw -> strlen pw = 0 ->
     FIO_compressZstdFilename e srcSize dict level passwordValue = Return rep w ->
     zr_result rep = 1 /\ zr_written rep = []).
Proof.
  unfold FIO_compressZstdFilename, compress_one_with.
  destruct (FIO_createCResources dict) as [code | ress];
    [split; [reflexivity | discriminate] | ].
  split.
  - rewrite <- (extRess_feeds _ ress e srcSize level passwordValue
                  (scrambler_func_values passwordValue)).
    destruct (FIO_compressZstdFilename_extRess ress e srcSize level passwordValue)
      as [[rep ctx] w | | | ]; cbn [map_outcome]; try reflexivity.
    destruct (FIO_freeCResources ctx); reflexivity.
  - intros pw rep w -> Hlen.
    pose proof (extRess_outcomes ress e srcSize level (Some pw)) as Hres.
    destruct (FIO_compressZstdFilename_extRess ress e srcSize level (Some pw))
      as [[rep' ctx] w' | | | ] eqn:Hrun; try discriminate.
    destruct (FIO_freeCResources ctx); [discriminate | ].
    intros H; inversion H; subst rep' w'; clear H.
    pose proof Hrun as Hwritten.
    apply extRess_report in Hrun. destruct Hrun as (Hok & _ & Htrace).
    destruct Hres as [Hzero | Hone].
    + destruct (Hok Hzero) as (_ & Hne).
      destruct (zr_trace rep) as [ | [i v] trace] eqn:Et; [contradiction | ].
      specialize (Htrace i v (or_introl eq_refl)).
      rewrite scrambler_func_empty_secret in Htrace by exact Hlen.
      discriminate Htrace.
    + split; [exact Hone | ].
      revert Hwritten Hone. unfold FIO_compressZstdFilename_extRess.
      destruct (FIO_getFiles e world0) as [src w1 | w1 | code w1];
        [ | intros H; inversion H; reflexivity | discriminate].
      destruct (ZBUFF_compressInit_advanced _ _ _) as [ctx1 e1].
      destruct (ZBUFF_isError e1); [discriminate | ].
      destruct (ZBUFF_compressWithDictionary _ _) as [ctx2 e2].
      destruct (ZBUFF_isError e2); [discriminate | ].
      match goal with
      | |- context [zstd_compress_loop ?n ?r ?p ?f ?st] =>
        destruct (zstd_compress_loop n r p f st) as [st' w2 | | | ]
      end; try discriminate.
      destruct (ZBUFF_compressEnd _ _) as [ctx' [result out]].
      destruct (negb (result =? 0)); [discriminate | ].
      intros H; inversion H; subst; simpl. discriminate.
Qed.

End BufferedValuesProperties.


(** Under the secret "k" the same file reaches the coder with the values 88
    and 89. *)
Lemma single_file_uses_the_callers_secret_witness :
  map_outcome file_of_report
    (FIO_compressZstdFilename (C := plain) (B := showing_buffered)
       (sample_file [1; 2; 3; 4; 5]) 5 None 3 (Some "k"%string))
  = Return (0, [1; 2; 3; 4; 88; 5; 89; 0])
      {| w_written := [1; 2; 3; 4; 88; 5; 89; 0]; w_open := []; w_heap := [] |} /\
  values_of_secret (C := plain) (Some "k"%string) 0 = Some 88 /\
  values_of_secret (C := plain) (Some "k"%string) 1 = Some 89.
Proof.
  split; [ | split; reflexivity].
  rewrite (proj1 (single_file_uses_the_callers_secret (C := plain)
                    (B := showing_buffered)
                    (sample_file [1; 2; 3; 4; 5]) 5 None 3 (Some "k"%string))).
  reflexivity.
Defined.

Lemma uncompressed_blocks_ignore_the_secret_witness :
  decompress_block (C := plain) (@FSE_decompress plain) 1024 (Some "a"%string) 64
    [0; 2; 7; 8; 192] dState0
  = decompress_block (C := plain) (@FSE_decompress plain) 1024 None 64
      [0; 2; 7; 8; 192] dState0.
Proof.
  apply uncompressed_blocks_ignore_the_secret.
  vm_compute. intros H. discriminate H.
Defined.

(** [sample_encoded] has an rle block, a raw block and a compressed
    block: the decoder takes one index, for the third block. *)
Lemma decoder_numbers_compressed_blocks_witness :
  frame_block_types sample_encoded = [bt_rle; bt_raw; bt_compressed] /\
  FIO_decompressFilename (C := plain) (sample_file sample_encoded) None
  = Return {| r_decoded := 2054; r_dtrace := [0] |}
      {| w_written := sample_source; w_open := []; w_heap := [] |} /\
  [0] = map (fun k => to_unsigned (Z.of_nat k))
          (seq 0 (length (filter is_compressed (frame_block_types sample_encoded)))).
Proof.
  assert (FIO_decompressFilename (C := plain) (sample_file sample_encoded) None
          = Return {| r_decoded := 2054; r_dtrace := [0] |}
              {| w_written := sample_source; w_open := []; w_heap := [] |})
    as Hrun by (vm_compute; reflexivity).
  split; [vm_compute; reflexivity | ]. split; [exact Hrun | ].
  apply (decoder_numbers_compressed_blocks (C := plain)
           (sample_file sample_encoded) None sample_encoded both_open
           {| r_decoded := 2054; r_dtrace := [0] |}
           {| w_written := sample_source; w_open := []; w_heap := [] |});
    [vm_compute; reflexivity | exact Hrun].
Defined.

Lemma long_suffix_overruns_the_name_buffer_witness :
  FIO_compressMultipleFilenames (C := plain) (B := sample_buffered) sample_look
    ["data"; "b"]%string ".compressed-with-a-secret" None 3
  = Undefined world0.
Proof.
  apply (long_suffix_overruns_the_name_buffer (C := plain) (B := sample_buffered)
           sample_look "data" ["b"%string] ".compressed-with-a-secret" None 3
           (@Build_cRess_t sample_buffered 4 16 [] tt)).
  - reflexivity.
  - simpl. lia.
  - simpl. lia.
Defined.

(** ** Buffered format: the calls of the scrambler *)

Section BufferedCalls.
Context {C : Collaborators} {B : Buffered}.

Lemma zstd_compress_loop_S fuel ress passwordValue f st :
  zstd_compress_loop (S fuel) ress passwordValue f st
  = match scrambler_func passwordValue (z_index st) with
    | None => Undefined (z_world st)
    | Some scrambler =>
      let trace := z_trace st ++ [(z_index st, scrambler)] in
      let index := to_unsigned (z_index st + 1) in
      let '(blk, rest) := fread (c_srcBufferSize ress) f in
      let inSize := zlen blk in
      if inSize =? 0
      then Return {| z_world := z_world st; z_ctx := z_ctx st; z_index := index;
                     z_filesize := z_filesize st;
                     z_compressedfilesize := z_compressedfilesize st;
                     z_trace := trace |} (z_world st)
      else
        let '(ctx, (result, out, usedInSize)) :=
          ZBUFF_compressContinue (z_ctx st) (c_dstBufferSize ress) blk scrambler in
        if ZBUFF_isError result then Exit 23 (z_world st)
        else if negb (inSize =? usedInSize) then Exit 24 (z_world st)
        else
          zstd_compress_loop fuel ress passwordValue rest
            {| z_world := fwrite out (z_world st); z_ctx := ctx; z_index := index;
               z_filesize := z_filesize st + inSize;
               z_compressedfilesize := z_compressedfilesize st + zlen out;
               z_trace := trace |}
    end.
Proof. reflexivity. Qed.

(** The loop calls the scrambler at the top of every turn: once for each
    read that obtains bytes and once for the read that obtains none. *)
Lemma zstd_compress_loop_counts fuel ress passwordValue f st st' w :
  0 < c_srcBufferSize ress -> 0 <= z_index st < 2 ^ 32 ->
  zstd_compress_loop fuel ress passwordValue f st = Return st' w ->
  exists n : nat,
    map fst (z_trace st')
    = map fst (z_trace st)
      ++ map (fun k => to_unsigned (z_index st + Z.of_nat k)) (seq 0 (S n)) /\
    z_filesize st' = z_filesize st + zlen f /\
    (Z.of_nat n - 1) * c_srcBufferSize ress < zlen f
      <= Z.of_nat n * c_srcBufferSize ress.
Proof.
  intros Hbs. set (bs := c_srcBufferSize ress) in *. revert f st.
  induction fuel as [ | fuel IH]; intros f st Hidx; [discriminate | ].
  rewrite zstd_compress_loop_S.
  destruct (scrambler_func passwordValue (z_index st)) as [scrambler | ];
    [ | discriminate].
  cbv zeta. fold bs.
  pose proof (fread_length bs f ltac:(lia)) as Hlen.
  pose proof (fread_app bs f) as Happ.
  destruct (fread bs f) as [blk rest]. cbn [fst snd] in Hlen, Happ.
  pose proof (zlen_nonneg f) as Hf.
  assert (z_index st = to_unsigned (z_index st + 0)) as Hfirst.
  { rewrite Z.add_0_r. unfold to_unsigned. symmetry. now apply Z.mod_small. }
  destruct (zlen blk =? 0) eqn:E0.
  - apply Z.eqb_eq in E0. intros H. apply Return_inj in H.
    destruct H as (<- & _). cbn [z_trace z_filesize]. exists 0%nat.
    rewrite map_app. cbn [seq map fst Z.of_nat].
    split; [now rewrite <- Hfirst | ]. lia.
  - apply Z.eqb_neq in E0.
    destruct (ZBUFF_compressContinue _ _ _ _) as [ctx [[result out] usedInSize]].
    destruct (ZBUFF_isError result); [discriminate | ].
    destruct (negb (zlen blk =? usedInSize)); [discriminate | ].
    intros Hloop. apply IH in Hloop; [ | cbn [z_index]; apply to_unsigned_range].
    destruct Hloop as (n & Htrace & Hsize & Hcount).
    cbn [z_trace z_index z_filesize] in Htrace, Hsize.
    exists (S n). rewrite Htrace, Hsize.
    assert (zlen f = zlen blk + zlen rest) as Hsum
      by (rewrite <- Happ at 1; apply zlen_app).
    split; [ | split; [lia | ]].
    + rewrite map_app, <- app_assoc. f_equal.
      change (seq 0 (S (S n))) with (0%nat :: seq 1 (S n)).
      cbn [map fst app]. change (Z.of_nat 0) with 0. rewrite <- Hfirst. f_equal.
      rewrite <- seq_shift, map_map. apply map_ext. intros k.
      rewrite to_unsigned_succ. f_equal. lia.
    + pose proof (zlen_nonneg rest) as Hrest.
      rewrite Nat2Z.inj_succ. unfold Z.succ.
      assert (0 <= Z.of_nat n) as Hn by lia.
      set (N := Z.of_nat n) in *.
      destruct (Z.min_spec bs (zlen f)) as [(Hlt & Hmin) | (Hge & Hmin)].
      * assert (zlen rest = zlen f - bs) as Hz by lia. rewrite Hz in Hcount.
        replace ((N + 1 - 1) * bs) with ((N - 1) * bs + bs) by ring.
        replace ((N + 1) * bs) with (N * bs + bs) by ring. lia.
      * assert (zlen rest = 0) as Hz by lia. rewrite Hz in Hcount.
        assert (N = 0) as ->.
        { destruct (Z.eq_dec N 0) as [E | E]; [exact E | exfalso].
          assert (0 <= (N - 1) * bs) by (apply Z.mul_nonneg_nonneg; lia).
          lia. }
        lia.
Qed.

(** X24. When [FIO_compressZstdFilename_extRess] has compressed a file,
    with a source buffer of at least one byte, the scrambler has been
    called with the indices 0, 1, 2, ..., n in order, where n is the
    number of reads that obtained bytes, ceil(sourceSize /
    srcBufferSize): one call more than there are blocks, the last value
    being computed and not used. *)
Theorem buffered_encoder_calls ress e srcSize cLevel passwordValue src w0 rep ctx w :
  0 < c_srcBufferSize ress ->
  FIO_getFiles e world0 = GF_ok src w0 ->
  FIO_compressZstdFilename_extRess ress e srcSize cLevel passwordValue
    = Return (rep, ctx) w ->
  exists n : nat,
    map fst (zr_trace rep)
    = map (fun k => to_unsigned (Z.of_nat k)) (seq 0 (S n)) /\
    (Z.of_nat n - 1) * c_srcBufferSize ress < zlen src
      <= Z.of_nat n * c_srcBufferSize ress.
Proof.
  intros Hbs Hfiles. unfold FIO_compressZstdFilename_extRess. rewrite Hfiles.
  destruct (ZBUFF_compressInit_advanced _ _ _) as [ctx1 e1].
  destruct (ZBUFF_isError e1); [discriminate | ].
  destruct (ZBUFF_compressWithDictionary _ _) as [ctx2 e2].
  destruct (ZBUFF_isError e2); [discriminate | ].
  match goal with
  | |- context [zstd_compress_loop ?n ?r ?p ?f ?st] =>
    destruct (zstd_compress_loop n r p f st) as [st' w' | | | ] eqn:Hloop
  end; try discriminate.
  apply zstd_compress_loop_counts in Hloop; [ | exact Hbs | simpl; lia].
  destruct Hloop as (n & Htrace & _ & Hcount).
  cbn [z_trace z_index map app] in Htrace.
  destruct (ZBUFF_compressEnd _ _) as [ctx' [result out]].
  destruct (negb (result =? 0)); [discriminate | ].
  intros H. apply Return_inj in H. destruct H as (H & _).
  apply pair_equal_spec in H. destruct H as (<- & _). cbn [zr_trace].
  exists n. split; [exact Htrace | exact Hcount].
Qed.

End BufferedCalls.

Lemma buffered_encoder_calls_witness :
  exists n : nat,
    map fst [(0, 88); (1, 89); (2, 90)]
    = map (fun k => to_unsigned (Z.of_nat k)) (seq 0 (S n)) /\
    (Z.of_nat n - 1) * 4 < zlen [1; 2; 3; 4; 5] <= Z.of_nat n * 4.
Proof.
  apply (buffered_encoder_calls (C := plain) (B := sample_buffered)
           (@Build_cRess_t sample_buffered 4 16 [] tt)
           (sample_file [1; 2; 3; 4; 5]) 5 3 (Some "k"%string)
           [1; 2; 3; 4; 5] (fopen foutput (fopen finput world0))
           {| zr_result := 0; zr_scrambler := Some fn_simlple_scrambler;
              zr_trace := [(0, 88); (1, 89); (2, 90)];
              zr_written := [1; 2; 3; 4; 5; 0] |} tt
           {| w_written := [1; 2; 3; 4; 5; 0]; w_open := []; w_heap := [] |}).
  - reflexivity.
  - reflexivity.
  - reflexivity.
Defined.
